(** * Verification of [parsing.py] (scraper-edgar)

    A shallow embedding of the text normaliser and section extractor of
    [src/parsing.py] together with the part of Python's [re] module the
    file relies on, and of its three drivers over a file tree, with the
    part of [pathlib] they rely on, followed by the properties proved
    about them.

    Python strings are sequences of Unicode code points: a character is
    a code point in [N], a string is a list of characters.  Python's
    [len] is [length]. *)

From Stdlib Require Import String Ascii.
From Stdlib Require Import List Bool Arith NArith ZArith Lia.
From Stdlib Require Import Floats.SpecFloat.
From Stdlib Require Import DecimalString DecimalPos DecimalZ.
Import ListNotations.

(** ** Characters and strings *)

Definition char := N.
Definition str := list char.

(** Code points of an ASCII literal. *)
Definition lit (s : string) : str :=
  List.map N_of_ascii (list_ascii_of_string s).

Definition in_range (lo hi c : char) : bool := ((lo <=? c) && (c <=? hi))%N.

(** [[A-Za-z]] and [[0-9]] in a pattern without [re.ASCII]/[re.IGNORECASE]:
    plain code-point ranges. *)
Definition is_ascii_letter (c : char) : bool :=
  in_range 65%N 90%N c || in_range 97%N 122%N c.

Definition is_ascii_digit (c : char) : bool := in_range 48%N 57%N c.

(** [\s] of a [str] pattern and the characters removed by [str.strip()]:
    CPython's [Py_UNICODE_ISSPACE]. *)
Definition is_space (c : char) : bool :=
  in_range 9%N 13%N c || in_range 28%N 32%N c || (c =? 133)%N || (c =? 160)%N
  || (c =? 5760)%N || in_range 8192%N 8202%N c || (c =? 8232)%N || (c =? 8233)%N
  || (c =? 8239)%N || (c =? 8287)%N || (c =? 12288)%N.

Definition NL : char := 10%N.
Definition SP : char := 32%N.
Definition is_char (a c : char) : bool := (c =? a)%N.

(** ** Regular expressions: the fragment of [re] used by [parsing.py] *)

Inductive regex : Type :=
| Eps : regex
| Cls : (char -> bool) -> regex
| Bos : regex
| Eos : regex
| Cat : regex -> regex -> regex
| Alt : regex -> regex -> regex
| Rep : bool -> nat -> option nat -> regex -> regex
| Grp : nat -> regex -> regex.

(** Captured groups, most recent capture first. *)
Definition groups := list (nat * str).

Fixpoint group (i : nat) (g : groups) : str :=
  match g with
  | [] => []
  | (j, t) :: g' => if Nat.eqb i j then t else group i g'
  end.

Definition orelse {A} (x : option A) (y : option A) : option A :=
  match x with Some _ => x | None => y end.

Definition reached (mx : option nat) (count : nat) : bool :=
  match mx with Some x => x <=? count | None => false end.

(** A matcher in continuation-passing style: [b] is the text before the
    current position (reversed), [n] the number of characters consumed
    since the start of the match, [s] the text from the current
    position on, and the continuation is what remains to be matched. *)
Definition cont (R : Type) : Type := str -> nat -> str -> groups -> option R.
Definition matcher (R : Type) : Type :=
  str -> nat -> str -> groups -> cont R -> option R.

(** The quantifier [{mn,mx}] around [body], after [count] iterations.
    One more iteration is tried first when the quantifier is greedy,
    the continuation first when it is lazy.  An optional iteration
    that consumes nothing is cut, so every further iteration consumes a
    character and [mn + length s + 1] bounds the depth. *)
Fixpoint rep_loop {R : Type} (body : matcher R) (greedy : bool) (mn : nat)
    (mx : option nat) (k : cont R)
    (fuel count : nat) (b : str) (n : nat) (s : str) (g : groups)
    {struct fuel} : option R :=
  match fuel with
  | O => None
  | S fuel' =>
      let again :=
        body b n s g (fun b' n' s' g' =>
          if (mn <=? count) && (n' =? n) then None
          else rep_loop body greedy mn mx k fuel' (S count) b' n' s' g') in
      if count <? mn then again
      else if reached mx count then k b n s g
      else if greedy then orelse again (k b n s g)
      else orelse (k b n s g) again
  end.

(** Backtracking matcher.  Alternatives are tried in priority order,
    as [sre] does: the left branch of [|] first. *)
Fixpoint rmatch {R : Type} (r : regex) {struct r} : matcher R :=
  fun b n s g k =>
  match r with
  | Eps => k b n s g
  | Cls f =>
      match s with
      | c :: s' => if f c then k (c :: b) (S n) s' g else None
      | [] => None
      end
  | Bos => match b with [] => k b n s g | _ :: _ => None end
  | Eos => match s with [] => k b n s g | _ :: _ => None end
  | Cat r1 r2 => rmatch r1 b n s g (fun b' n' s' g' => rmatch r2 b' n' s' g' k)
  | Alt r1 r2 => orelse (rmatch r1 b n s g k) (rmatch r2 b n s g k)
  | Grp i r1 =>
      rmatch r1 b n s g
        (fun b' n' s' g' => k b' n' s' ((i, firstn (n' - n) s) :: g'))
  | Rep greedy mn mx r1 =>
      rep_loop (rmatch r1) greedy mn mx k (mn + length s + 1) 0 b n s g
  end.

(** A compiled pattern, seen through what [sre] offers at one position:
    given the text before the position (reversed), the text from it on
    and the [must_advance] flag, the length of the match that starts
    there and its groups.  The patterns imported from
    [parsing_patterns] are values of this type. *)
Definition pattern := str -> str -> bool -> option (nat * groups).

(** The end of a match, [n] characters after its start: with
    [must_advance] set an empty match is refused. *)
Definition final (must_advance : bool) : cont (nat * groups) :=
  fun _ n _ g => if must_advance && (n =? 0) then None else Some (n, g).

Definition compile (r : regex) : pattern :=
  fun b s must_advance => rmatch r b 0 s [] (final must_advance).

(** ** Scanning: [finditer] and [sub] (CPython 3.7 and later) *)

Inductive piece : Type :=
| Keep : char -> piece
| Hit : str -> groups -> piece.

(** One left-to-right scan.  [skip] counts the characters of the
    current match still to be passed over.  After an empty match the
    search is retried at the same position with [must_advance] set;
    when that fails the character is copied and the search goes on. *)
Fixpoint scan (p : pattern) (b s : str) (skip : nat) {struct s} : list piece :=
  match s with
  | [] =>
      match skip with
      | S _ => []
      | O => match p b [] false with
             | Some (_, g) => [Hit [] g]
             | None => []
             end
      end
  | c :: s' =>
      match skip with
      | S n => scan p (c :: b) s' n
      | O =>
          match p b s false with
          | Some (S n, g) => Hit (firstn (S n) s) g :: scan p (c :: b) s' n
          | Some (O, g) =>
              Hit [] g ::
              match p b s true with
              | Some (S n, g') =>
                  Hit (firstn (S n) s) g' :: scan p (c :: b) s' n
              | _ => Keep c :: scan p (c :: b) s' 0
              end
          | None => Keep c :: scan p (c :: b) s' 0
          end
      end
  end.

(** [pattern.finditer(txt)]: the [group(0)] and groups of each match. *)
Definition finditer (p : pattern) (txt : str) : list (str * groups) :=
  flat_map (fun x => match x with Keep _ => [] | Hit t g => [(t, g)] end)
           (scan p [] txt 0).

(** [pattern.sub(repl, txt)] with a callable replacement. *)
Definition re_sub (p : pattern) (repl : str -> groups -> str) (txt : str) : str :=
  flat_map (fun x => match x with Keep c => [c] | Hit t g => repl t g end)
           (scan p [] txt 0).

(** A literal replacement string. *)
Definition const (t : str) : str -> groups -> str := fun _ _ => t.

(** [str.strip()]. *)
Fixpoint lstrip (s : str) : str :=
  match s with
  | c :: s' => if is_space c then lstrip s' else s
  | [] => []
  end.

Definition rstrip (s : str) : str := rev (lstrip (rev s)).
Definition strip (s : str) : str := rstrip (lstrip s).

(** Regex building blocks. *)
Fixpoint word (t : str) : regex :=
  match t with
  | [] => Eps
  | [c] => Cls (is_char c)
  | c :: t' => Cat (Cls (is_char c)) (word t')
  end.

Definition opt r := Rep true 0 (Some 1) r.
Definition star r := Rep true 0 None r.
Definition at_least n r := Rep true n None r.
Definition lazy_star r := Rep false 0 None r.
Definition any_but_newline : regex := Cls (fun c => negb (c =? NL)%N).

(** ** Python numbers and exceptions *)

(** [float] is IEEE binary64. *)
Definition prec : Z := 53.
Definition emax : Z := 1024.

(** [int] to [float]; exact below [2^53]. *)
Definition float_of_int (n : Z) : spec_float := binary_normalize prec emax n 0 false.

Inductive py_exn : Type := ZeroDivisionError.

Inductive result (A : Type) : Type :=
| Ok : A -> result A
| Raise : py_exn -> result A.
Arguments Ok {A} _.
Arguments Raise {A} _.

(** [a / b] on [int]s.  For operands below [2^53], which covers every
    string length, CPython converts both to [float] and divides; the
    quotient is the correctly rounded one. *)
Definition truediv (a b : Z) : result spec_float :=
  if (b =? 0)%Z then Raise ZeroDivisionError
  else Ok (SFdiv prec emax (float_of_int a) (float_of_int b)).

(** The literal [0.1]: [0x1.999999999999ap-4]. *)
Definition tab_ratio_default : spec_float :=
  S754_finite false 7205759403792794 (-56).

(** ** The regular expressions written in [parsing.py] *)

(** [[^A-Za-z]|nbsp] *)
Definition RE_NOT_LETTER : regex :=
  Alt (Cls (fun c => negb (is_ascii_letter c))) (word (lit "nbsp")).

(** [[^0-9]|nbsp] *)
Definition RE_NOT_DIGIT : regex :=
  Alt (Cls (fun c => negb (is_ascii_digit c))) (word (lit "nbsp")).

(** [\xa0|\u200b] *)
Definition RE_NBSP : regex := Alt (Cls (is_char 160%N)) (Cls (is_char 8203%N)).

(** The pattern of line 60: the group [\n\s*] repeated [{3,}]. *)
Definition RE_BLANK_LINES : regex :=
  at_least 3 (Grp 1 (Cat (Cls (is_char NL)) (star (Cls is_space)))).

(** [(\_{2,}|\-{2,}|={2,})] *)
Definition RE_RULES : regex :=
  Grp 1 (Alt (at_least 2 (Cls (is_char 95%N)))
        (Alt (at_least 2 (Cls (is_char 45%N)))
             (at_least 2 (Cls (is_char 61%N))))).

(** [(\s{1,})] *)
Definition RE_SPACES : regex := Grp 1 (at_least 1 (Cls is_space)).

(** The marks of line 83: comma, semicolon, full stop, U+2019, U+00AE. *)
Definition is_mark (c : char) : bool :=
  is_char 44%N c || is_char 59%N c || is_char 46%N c
  || is_char 8217%N c || is_char 174%N c.

(** [ (,|;|\.|U+2019|U+00AE) ] with a space on either side. *)
Definition RE_MARK : regex :=
  Cat (Cls (is_char SP))
      (Cat (Grp 1 (Alt (Cls (is_char 44%N))
                  (Alt (Cls (is_char 59%N))
                  (Alt (Cls (is_char 46%N))
                  (Alt (Cls (is_char 8217%N)) (Cls (is_char 174%N)))))))
           (Cls (is_char SP))).

(** The replacement template of line 83: group 1, then a space. *)
Definition mark_repl : str -> groups -> str := fun _ g => group 1 g ++ [SP].

(** The closing token of line 84: a double quote, a space, [-->]. *)
Definition COMMENT_END : str := 34%N :: lit " -->".

(** The pattern of line 84: [^], a lazy group [(.*?)], then [COMMENT_END]. *)
Definition RE_COMMENT : regex :=
  Cat Bos (Cat (Grp 1 (lazy_star any_but_newline)) (word COMMENT_END)).

Definition TABLE_OPEN : str := lit "[TABLE]".
Definition TABLE_CLOSE : str := lit "[/TABLE]".

Definition str_eqb (s t : str) : bool :=
  if list_eq_dec N.eq_dec s t then true else false.

(** ** The pattern library

    The module [parsing_patterns] is not part of the sources: its
    compiled patterns are parameters.  [PAT_MU1] is a dictionary,
    iterated in insertion order. *)
Record parsing_patterns : Type := {
  PAT_10K_MDA1 : pattern;
  PAT_10K_MDA2 : pattern;
  PAT_10Q_MDA : pattern;
  PAT_ITEM1 : pattern;
  PAT_MU1 : list (str * pattern);
  PAT_MU2 : pattern;
  PAT_TAB1 : pattern;
  PAT_TAB2 : pattern;
  PAT_TOC1 : pattern;
  PAT_TOC2 : pattern
}.

Section Parsing.

Variable P : parsing_patterns.

(** [html.unescape] of the Python standard library. *)
Variable html_unescape : str -> str.

(** *** [tab_replace] *)

(** Line 38: the table text with its inner tags turned into newlines. *)
Definition tab_content (match0 : str) : str :=
  re_sub (PAT_MU2 P) (const [NL]) match0.

(** Lines 39 and 40. *)
Definition letter_count (content : str) : nat :=
  length (re_sub (compile RE_NOT_LETTER) (const []) content).

Definition digit_count (content : str) : nat :=
  length (re_sub (compile RE_NOT_DIGIT) (const []) content).

(** The body of the [try] block, lines 43 to 47. *)
Definition tab_replace_try (match0 : str) (tab_ratio : spec_float) : result str :=
  let c := Z.of_nat (letter_count (tab_content match0)) in
  let d := Z.of_nat (digit_count (tab_content match0)) in
  match truediv d (c + d) with
  | Raise e => Raise e
  | Ok num_ratio =>
      if SFltb num_ratio tab_ratio
      then Ok (TABLE_OPEN ++ match0 ++ TABLE_CLOSE)
      else Ok []
  end.

(** The handler of lines 48 to 50 prints the exception and returns
    the empty string; standard output is not modelled. *)
Definition tab_replace (match0 : str) (tab_ratio : spec_float) : str :=
  match tab_replace_try match0 tab_ratio with
  | Ok s => s
  | Raise _ => []
  end.

(** *** [clean_filing_text] *)

Definition clean_filing_text (txt : str) : str :=
  let txt := fold_left (fun t v => re_sub v (const [NL]) t)
                       (List.map snd (PAT_MU1 P)) txt in
  let txt := html_unescape txt in
  let txt := re_sub (PAT_TAB1 P)
                    (fun m _ => tab_replace m tab_ratio_default) txt in
  let txt := re_sub (PAT_MU2 P) (const [NL]) txt in
  let txt := strip (re_sub (compile RE_NBSP) (const [NL]) txt) in
  let txt := strip (re_sub (compile RE_BLANK_LINES) (const [NL; NL]) txt) in
  txt.

(** *** Section extraction *)

(** The loops of lines 69 to 78 and 91 to 93: starting from [acc], a
    match replaces the kept one when it is strictly longer. *)
Definition keep_longest (acc : str) (matches : list (str * groups)) : str :=
  fold_left (fun kept m => if length kept <? length (fst m) then fst m else kept)
            matches acc.

(** Lines 79 to 84, repeated as lines 94 to 99. *)
Definition clean_excerpt (mda : str) : str :=
  let mda := re_sub (PAT_TOC1 P) (const [SP]) mda in
  let mda := re_sub (PAT_TOC2 P) (const [SP]) mda in
  let mda := re_sub (compile RE_RULES) (const [SP]) mda in
  let mda := re_sub (compile RE_SPACES) (const [SP]) mda in
  let mda := re_sub (compile RE_MARK) mark_repl mda in
  let mda := re_sub (compile RE_COMMENT) (const []) mda in
  mda.

Definition clean_mda_text (txt : str) (form_type : str) : str :=
  let mda := [] in
  let txt := re_sub (PAT_TAB2 P) (const []) txt in
  let mda :=
    if str_eqb form_type (lit "10-k")
    then keep_longest (keep_longest mda (finditer (PAT_10K_MDA1 P) txt))
                      (finditer (PAT_10K_MDA2 P) txt)
    else if str_eqb form_type (lit "10-q")
    then keep_longest mda (finditer (PAT_10Q_MDA P) txt)
    else mda in
  clean_excerpt mda.

Definition clean_item1_text (txt : str) : str :=
  let item1 := [] in
  let txt := re_sub (PAT_TAB2 P) (const []) txt in
  let item1 := keep_longest item1 (finditer (PAT_ITEM1 P) txt) in
  clean_excerpt item1.

End Parsing.

(** ** [html.unescape]

    The function of CPython's [html] module, over its three tables:
    [html5] (named references), [invalid_charrefs] and
    [invalid_codepoints]. *)

Definition is_hex_digit (c : char) : bool :=
  is_ascii_digit c || in_range 97%N 102%N c || in_range 65%N 70%N c.

(** [[^\t\n\f <&#;]] *)
Definition is_name_char (c : char) : bool :=
  negb (is_char 9%N c || is_char 10%N c || is_char 12%N c || is_char 32%N c
        || is_char 60%N c || is_char 38%N c || is_char 35%N c || is_char 59%N c).

(** [&(#[0-9]+;?|#[xX][0-9a-fA-F]+;?|[^\t\n\f <&#;]{1,32};?)] *)
Definition RE_CHARREF : regex :=
  Cat (Cls (is_char 38%N))
      (Grp 1
         (Alt (Cat (Cls (is_char 35%N))
                   (Cat (at_least 1 (Cls is_ascii_digit)) (opt (Cls (is_char 59%N)))))
         (Alt (Cat (Cls (is_char 35%N))
                   (Cat (Cls (fun c => is_char 120%N c || is_char 88%N c))
                        (Cat (at_least 1 (Cls is_hex_digit))
                             (opt (Cls (is_char 59%N))))))
              (Cat (Rep true 1 (Some 32) (Cls is_name_char))
                   (opt (Cls (is_char 59%N))))))).

Definition digit_value (c : char) : N :=
  if is_ascii_digit c then (c - 48)%N
  else if in_range 97%N 102%N c then (c - 87)%N
  else (c - 55)%N.

(** [int(ds, base)] on a string of digits.  The limit that CPython
    3.11 sets on the length of a decimal numeral (4300 digits unless
    configured otherwise, beyond which [int] raises [ValueError]) is
    not modelled. *)
Definition int_of_digits (base : N) (ds : str) : N :=
  fold_left (fun acc c => (acc * base + digit_value c)%N) ds 0%N.

(** [s.rstrip(';')] *)
Fixpoint lstrip_char (a : char) (s : str) : str :=
  match s with
  | c :: s' => if is_char a c then lstrip_char a s' else s
  | [] => []
  end.

Definition rstrip_char (a : char) (s : str) : str := rev (lstrip_char a (rev s)).

(** The loop [for x in range(len(s)-1, 1, -1)], entered at [x]. *)
Fixpoint longest_name (html5 : str -> option str) (s : str) (x : nat) : option str :=
  match x with
  | O => None
  | S x' =>
      if x <? 2 then None
      else match html5 (firstn x s) with
           | Some v => Some (v ++ skipn x s)
           | None => longest_name html5 s x'
           end
  end.

Section Unescape.

Variable html5 : str -> option str.
Variable invalid_charrefs : N -> option str.
Variable invalid_codepoints : N -> bool.

Definition replace_charref (s : str) : str :=
  match s with
  | 35%N :: s1 =>
      let num :=
        match s1 with
        | c :: s2 =>
            if is_char 120%N c || is_char 88%N c
            then int_of_digits 16 (rstrip_char 59%N s2)
            else int_of_digits 10 (rstrip_char 59%N s1)
        | [] => 0%N
        end in
      match invalid_charrefs num with
      | Some t => t
      | None =>
          if in_range 55296%N 57343%N num || (1114111 <? num)%N then [65533%N]
          else if invalid_codepoints num then []
          else [num]
      end
  | _ =>
      match html5 s with
      | Some v => v
      | None =>
          match longest_name html5 s (length s - 1) with
          | Some v => v
          | None => 38%N :: s
          end
      end
  end.

Definition unescape (s : str) : str :=
  if existsb (is_char 38%N) s
  then re_sub (compile RE_CHARREF) (fun _ g => replace_charref (group 1 g)) s
  else s.

End Unescape.

(** *** The tables of [html]

    [_invalid_charrefs] and [_invalid_codepoints] in full; of
    [html.entities.html5] the entries of the XML entities and of
    [nbsp] only.  With this excerpt [py_unescape] is [html.unescape] on
    the texts whose named references are among these eleven; any
    other name is left undecoded.  It serves in the examples, on such
    texts; the properties are stated for every decoder. *)

Fixpoint lookup {A : Type} (key : str) (table : list (str * A)) : option A :=
  match table with
  | [] => None
  | (k, v) :: table' => if str_eqb key k then Some v else lookup key table'
  end.

Definition html5_excerpt : str -> option str :=
  fun name =>
    lookup name
      [ (lit "amp;", [38%N]); (lit "amp", [38%N]);
        (lit "lt;", [60%N]); (lit "lt", [60%N]);
        (lit "gt;", [62%N]); (lit "gt", [62%N]);
        (lit "quot;", [34%N]); (lit "quot", [34%N]);
        (lit "nbsp;", [160%N]); (lit "nbsp", [160%N]);
        (lit "apos;", [39%N]) ].

Definition invalid_charrefs : N -> option str :=
  fun num =>
    option_map (fun c => [c])
      (lookup [num]
         (List.map (fun kv => ([fst kv], snd kv))
            [ (0, 65533); (13, 13); (128, 8364); (129, 129); (130, 8218);
              (131, 402); (132, 8222); (133, 8230); (134, 8224); (135, 8225);
              (136, 710); (137, 8240); (138, 352); (139, 8249); (140, 338);
              (141, 141); (142, 381); (143, 143); (144, 144); (145, 8216);
              (146, 8217); (147, 8220); (148, 8221); (149, 8226); (150, 8211);
              (151, 8212); (152, 732); (153, 8482); (154, 353); (155, 8250);
              (156, 339); (157, 157); (158, 382); (159, 376) ]%N)).

Definition invalid_codepoints : N -> bool :=
  fun c =>
    in_range 1%N 8%N c || in_range 14%N 31%N c || in_range 127%N 159%N c
    || in_range 64976%N 65007%N c || (c =? 11)%N
    || ((65534 <=? c mod 65536)%N && (c <=? 1114111)%N).

Definition py_unescape : str -> str :=
  unescape html5_excerpt invalid_charrefs invalid_codepoints.

(** ** A pattern library for the examples *)

(** A letter in either case, any other character as it is. *)
Definition ci (a : char) : regex :=
  Cls (fun c => is_char a c
                || (in_range 97%N 122%N a && is_char (a - 32)%N c)
                || (in_range 65%N 90%N a && is_char (a + 32)%N c)).

Fixpoint ci_word (t : str) : regex :=
  match t with
  | [] => Eps
  | [c] => ci c
  | c :: t' => Cat (ci c) (ci_word t')
  end.

Definition any_char : regex := Cls (fun _ => true).
Definition not_char (a : char) : regex := Cls (fun c => negb (is_char a c)).
Definition blank : regex := Cls (fun c => is_char 32%N c || is_char 9%N c).
Definition digits_1_3 : regex := Rep true 1 (Some 3) (Cls is_ascii_digit).

(** An opening or closing tag [name], with attributes. *)
Definition tag (name : string) : regex :=
  Cat (Cls (is_char 60%N))
      (Cat (opt (Cls (is_char 47%N)))
           (Cat (ci_word (lit name))
                (Cat (opt (Cat (Cls is_space) (star (not_char 62%N))))
                     (Cat (opt (Cls (is_char 47%N))) (Cls (is_char 62%N)))))).

(** A table from its opening to the nearest closing tag. *)
Definition table_span : regex :=
  Cat (Cls (is_char 60%N))
      (Cat (ci_word (lit "table"))
           (Cat (opt (Cat (Cls is_space) (star (not_char 62%N))))
                (Cat (Cls (is_char 62%N))
                     (Cat (lazy_star any_char)
                          (Cat (Cls (is_char 60%N))
                               (Cat (Cls (is_char 47%N))
                                    (Cat (ci_word (lit "table"))
                                         (Cls (is_char 62%N))))))))).

(** The heading [Item n.] *)
Definition item_heading (n : string) : regex :=
  Cat (ci_word (lit "item"))
      (Cat (star (Cls is_space)) (Cat (ci_word (lit n)) (Cls (is_char 46%N)))).

(** From a heading to the nearest of the closing headings [stop], or
    to the end of the text. *)
Definition section_span (start stop : regex) : regex :=
  Cat start (Cat (lazy_star any_char) (Alt stop Eos)).

(** Modelled from the spec: the module [parsing_patterns] is missing
    from the sources.  One pattern per category of section 4.1:
    unwrap rules for paragraph, line-break and block tags; a rule for
    any remaining tag; the table span, non-greedy and across lines;
    the two table-of-contents lines (a label, a gap and a page number
    at the end of a line; a row of dots and a number); the section
    spans, from a case-insensitive heading to the next major heading or
    the end of the document, non-greedy. *)
Definition spec_patterns : parsing_patterns :=
  {| PAT_10K_MDA1 :=
       compile (section_span (item_heading "7")
                  (Alt (item_heading "7a") (item_heading "8")));
     PAT_10K_MDA2 :=
       compile (section_span
                  (ci_word (lit "management's discussion and analysis"))
                  (Alt (ci_word (lit "quantitative and qualitative disclosures"))
                       (ci_word (lit "financial statements and supplementary data"))));
     PAT_10Q_MDA :=
       compile (section_span (item_heading "2") (item_heading "3"));
     PAT_ITEM1 :=
       compile (section_span (item_heading "1")
                  (Alt (item_heading "1a") (item_heading "2")));
     PAT_MU1 :=
       [ (lit "p", compile (tag "p"));
         (lit "br", compile (tag "br"));
         (lit "div", compile (tag "div")) ];
     PAT_MU2 :=
       compile (Cat (Cls (is_char 60%N))
                    (Cat (star (not_char 62%N)) (Cls (is_char 62%N))));
     PAT_TAB1 := compile table_span;
     PAT_TAB2 := compile table_span;
     PAT_TOC1 :=
       compile (Cat (Cls is_ascii_letter)
                    (Cat (Rep false 0 (Some 80) any_but_newline)
                         (Cat (at_least 2 blank)
                              (Cat digits_1_3
                                   (Cat (star blank)
                                        (Alt (Cls (is_char NL)) Eos))))));
     PAT_TOC2 :=
       compile (Cat (at_least 3 (Cls (is_char 46%N)))
                    (Cat (star blank) digits_1_3)) |}.

(** ** Vocabulary of the statements *)

(** [best] is a longest candidate of [cands]: no candidate is longer,
    it is one of them when there is any, and empty when there is none. *)
Definition longest_of (best : str) (cands : list (str * groups)) : Prop :=
  (forall c, In c cands -> length (fst c) <= length best)
  /\ (cands <> [] -> In best (List.map fst cands))
  /\ (cands = [] -> best = []).

(** The table-of-contents patterns find nothing in the empty text. *)
Definition toc_silent (P : parsing_patterns) : Prop :=
  PAT_TOC1 P [] [] false = None /\ PAT_TOC2 P [] [] false = None.

(** The text in which sections are searched: line 66 and line 89. *)
Definition without_tables (P : parsing_patterns) (txt : str) : str :=
  re_sub (PAT_TAB2 P) (const []) txt.

(** Number of characters of a text that satisfy [f]. *)
Definition count (f : char -> bool) (s : str) : nat := length (filter f s).

(** Length of the longest prefix whose characters satisfy [f]. *)
Fixpoint span (f : char -> bool) (s : str) : nat :=
  match s with
  | c :: s' => if f c then S (span f s') else 0
  | [] => 0
  end.

(** The text does not begin with a whitespace character. *)
Definition no_leading_space (s : str) : bool :=
  match s with
  | c :: _ => negb (is_space c)
  | [] => true
  end.

(** No whitespace other than the space character, and no two
    whitespace characters side by side. *)
Fixpoint tidy (s : str) : bool :=
  match s with
  | [] => true
  | c :: s' =>
      (if is_space c then is_char SP c && no_leading_space s' else true)
      && tidy s'
  end.

(** ** Descriptions of the matcher *)

(** The flattening of the pieces of a scan done by [re_sub]. *)
Definition pieces_text (repl : str -> groups -> str) (l : list piece) : str :=
  flat_map (fun x => match x with Keep c => [c] | Hit t g => repl t g end) l.

(** A matcher calls its continuation further on in the same text only:
    on what is left once it has consumed some of it. *)
Definition respects {R : Type} (m : matcher R) : Prop :=
  forall b n s g k1 k2,
    (forall b' n' s' g',
        length s' <= length s -> n' + length s' = n + length s ->
        k1 b' n' s' g' = k2 b' n' s' g') ->
    m b n s g k1 = m b n s g k2.

(** [body] matches one character of the class [f]. *)
Definition one_char {R : Type} (f : char -> bool) (body : matcher R) : Prop :=
  forall b n s g k,
    body b n s g k
    = match s with
      | c :: s' => if f c then k (c :: b) (S n) s' g else None
      | [] => None
      end.

(** A greedy unbounded quantifier around one character class, with
    [need] iterations still required: the longest run first, then one
    character less at a time. *)
Fixpoint greedy_run {R : Type} (f : char -> bool) (k : cont R) (need : nat)
    (b : str) (n : nat) (s : str) (g : groups) : option R :=
  let stop := if need =? 0 then k b n s g else None in
  match s with
  | c :: s' =>
      if f c then orelse (greedy_run f k (pred need) (c :: b) (S n) s' g) stop
      else stop
  | [] => stop
  end.

(** Some suffix of the text, reached by dropping characters of the
    class [f], satisfies [ok]. *)
Fixpoint exists_suffix (f : char -> bool) (ok : str -> bool) (s : str) : bool :=
  match s with
  | c :: s' => (f c && exists_suffix f ok s') || ok s
  | [] => ok []
  end.

(** ** Descriptions for the table heuristic (lines 39 and 40) *)

(** The text begins with the four letters [nbsp]. *)
Definition is_nbsp_at (s : str) : bool :=
  match s with
  | c1 :: c2 :: c3 :: c4 :: _ =>
      is_char 110%N c1 && is_char 98%N c2 && is_char 115%N c3 && is_char 112%N c4
  | _ => false
  end.

(** Number of occurrences of [nbsp] in a text. *)
Fixpoint nbsp_occurrences (s : str) : nat :=
  match s with
  | [] => 0
  | c :: s' => (if is_nbsp_at (c :: s') then 1 else 0) + nbsp_occurrences s'
  end.

(** ** Descriptions for the normaliser (lines 54 to 60) *)

(** Lines 54 to 58 of [clean_filing_text]. *)
Definition unwrap_steps (P : parsing_patterns) (decode : str -> str)
    (txt : str) : str :=
  re_sub (PAT_MU2 P) (const [NL])
    (re_sub (PAT_TAB1 P) (fun m _ => tab_replace P m tab_ratio_default)
       (decode
          (fold_left (fun t v => re_sub v (const [NL]) t)
                     (List.map snd (PAT_MU1 P)) txt))).

(** Lines 59 and 60 of [clean_filing_text]. *)
Definition blank_steps (txt : str) : str :=
  strip (re_sub (compile RE_BLANK_LINES) (const [NL; NL])
           (strip (re_sub (compile RE_NBSP) (const [NL]) txt))).

(** The characters replaced by line 59. *)
Definition is_nbsp_char (c : char) : bool := is_char 160%N c || is_char 8203%N c.

(** No character of the text is one of those replaced by line 59. *)
Definition plain (s : str) : bool := forallb (fun c => negb (is_nbsp_char c)) s.

(** The body of the quantifier of line 60: a newline and a greedy run
    of whitespace, captured as group 1. *)
Definition blank_body : regex :=
  Grp 1 (Cat (Cls (is_char NL)) (star (Cls is_space))).

Definition starts_with_newline (s : str) : bool :=
  match s with
  | c :: _ => is_char NL c
  | [] => false
  end.

(** Number of newlines in the run of whitespace at the start of a text. *)
Fixpoint newlines_ahead (s : str) : nat :=
  match s with
  | c :: s' =>
      if is_space c then (if is_char NL c then 1 else 0) + newlines_ahead s' else 0
  | [] => 0
  end.

(** The text begins with a newline and the run of whitespace it opens
    holds [need] newlines or more. *)
Definition blank_run (need : nat) (s : str) : bool :=
  starts_with_newline s && (need <=? newlines_ahead s).

(** Where line 60 matches, and how far: at a newline whose run of
    whitespace holds three newlines or more, to the end of the run. *)
Definition blank_at (s : str) : option nat :=
  if blank_run 3 s then Some (span is_space s) else None.

(** What line 60 computes, read from left to right: [skip] characters
    of the current match are passed over. *)
Fixpoint blank_out (s : str) (skip : nat) : str :=
  match s with
  | [] => []
  | c :: s' =>
      match skip with
      | S k => blank_out s' k
      | O =>
          match blank_at (c :: s') with
          | Some (S n) => NL :: NL :: blank_out s' n
          | _ => c :: blank_out s' 0
          end
      end
  end.

(** No position of the text is matched by line 60. *)
Fixpoint calm (s : str) : bool :=
  match s with
  | [] => true
  | c :: s' => negb (blank_run 3 (c :: s')) && calm s'
  end.

(** ** Descriptions for a second normalisation *)

(** No [<] of the text has a [>] after it: the text holds no tag. *)
Fixpoint tagless (s : str) : bool :=
  match s with
  | [] => true
  | c :: s' =>
      if is_char 60%N c then negb (existsb (is_char 62%N) s') else tagless s'
  end.

(** The patterns of the normaliser recognise tags only: the unwrap
    rules, the table pattern and the second-pass rule find nothing in
    a text that holds no tag, and the second-pass rule leaves no tag
    behind. *)
Definition tags_only (P : parsing_patterns) : Prop :=
  (forall s, tagless s = true ->
     Forall (fun v => finditer v s = []) (List.map snd (PAT_MU1 P))
     /\ finditer (PAT_TAB1 P) s = []
     /\ finditer (PAT_MU2 P) s = [])
  /\ (forall s, tagless (re_sub (PAT_MU2 P) (const [NL]) s) = true).

(** A match of [r] needs a character of the class [f] in the text
    ahead. *)
Definition needs (f : char -> bool) (r : regex) : Prop :=
  forall (R : Type) (b : str) (n : nat) (s : str) (g : groups) (k : cont R),
    rmatch r b n s g k <> None -> existsb f s = true.

(** A matcher succeeds only where its continuation does, further on
    in the text. *)
Definition reaches {R : Type} (m : matcher R) : Prop :=
  forall b n s g k,
    m b n s g k <> None -> exists b' n' j g', k b' n' (skipn j s) g' <> None.

(** The second-pass rule of the examples, [<[^>]*>]. *)
Definition any_tag : regex :=
  Cat (Cls (is_char 60%N)) (Cat (star (not_char 62%N)) (Cls (is_char 62%N))).

(** ** Descriptions for the excerpt (lines 79 to 84) *)

(** The excerpt after line 82. *)
Definition collapsed (P : parsing_patterns) (mda : str) : str :=
  re_sub (compile RE_SPACES) (const [SP])
    (re_sub (compile RE_RULES) (const [SP])
       (re_sub (PAT_TOC2 P) (const [SP]) (re_sub (PAT_TOC1 P) (const [SP]) mda))).

(** Line 83 alone. *)
Definition repair_marks (s : str) : str := re_sub (compile RE_MARK) mark_repl s.

(** What line 83 computes, read from left to right: [skip] characters
    of the current match are passed over; at a space, a mark and a
    space the mark and one space are written. *)
Fixpoint marks (s : str) (skip : nat) : str :=
  match s with
  | [] => []
  | c1 :: s1 =>
      match skip with
      | S k => marks s1 k
      | O =>
          match s1 with
          | c2 :: c3 :: _ =>
              if is_char SP c1 && is_mark c2 && is_char SP c3
              then c2 :: SP :: marks s1 2
              else c1 :: marks s1 0
          | _ => c1 :: marks s1 0
          end
      end
  end.

(** The text ends with a space followed by a mark. *)
Fixpoint ends_with_spaced_mark (u : str) : bool :=
  match u with
  | [] => false
  | c :: u' =>
      match u' with
      | [q] => is_char SP c && is_mark q
      | _ => ends_with_spaced_mark u'
      end
  end.

(** ** Descriptions for the further properties *)

(** The characters of the rules of line 81: underscore, hyphen, equals sign. *)
Definition is_rule_char (c : char) : bool :=
  is_char 95%N c || is_char 45%N c || is_char 61%N c.

(** The text begins with the character [a]. *)
Definition starts_with (a : char) (s : str) : bool :=
  match s with
  | c :: _ => is_char a c
  | [] => false
  end.

(** The character [a] occurs twice in a row somewhere in the text. *)
Fixpoint doubled (a : char) (s : str) : bool :=
  match s with
  | c :: s' => (is_char a c && starts_with a s') || doubled a s'
  | [] => false
  end.

(** Where line 81 matches, and how far: at two or more underscores,
    hyphens or equals signs, to the end of the run. *)
Definition rule_at (s : str) : option nat :=
  if 2 <=? span (is_char 95%N) s then Some (span (is_char 95%N) s)
  else if 2 <=? span (is_char 45%N) s then Some (span (is_char 45%N) s)
  else if 2 <=? span (is_char 61%N) s then Some (span (is_char 61%N) s)
  else None.

(** The characters that lines 59 and 60 leave alone: neither
    whitespace nor one of the two characters replaced by line 59. *)
Definition visible (c : char) : bool := negb (is_space c || is_nbsp_char c).

(** The excerpt after line 80. *)
Definition without_toc (P : parsing_patterns) (mda : str) : str :=
  re_sub (PAT_TOC2 P) (const [SP]) (re_sub (PAT_TOC1 P) (const [SP]) mda).

(** The characters that lines 81 to 84 leave alone: neither whitespace
    nor a rule character. *)
Definition wordy (c : char) : bool := negb (is_space c || is_rule_char c).

(** A space, a mark and a space stand somewhere in the text. *)
Fixpoint spaced_mark (s : str) : bool :=
  match s with
  | c1 :: s1 =>
      match s1 with
      | c2 :: c3 :: _ => is_char SP c1 && is_mark c2 && is_char SP c3
      | _ => false
      end || spaced_mark s1
  | [] => false
  end.

(** ** Texts of the examples *)

(** Two candidates of 77 characters, one for each annual pattern. *)
Definition tie_text : str :=
  lit "Item 7." ++ repeat 120%N 63 ++ lit "Item 8. "
  ++ lit "Management's Discussion and Analysis Quantitative and Qualitative Disclosures".

Definition plain_text : str := lit "Annual report without any heading".
Definition mda_text : str := lit "Item 7. Results of operations. Item 8. Statements".

Definition empty_table : str := lit "<table><tr><td>--</td></tr></table>".
Definition nbsp_table : str :=
  lit "<table>nbspnbspnbspnbspnbspnbspnbspnbspnbspnbsp12</table>".
Definition boundary_table : str := lit "<table><tr><td>abcdefghi1</td></tr></table>".
Definition prose_table : str := lit "<table><tr><td>abcdefghij1</td></tr></table>".

Definition spaced_word : str := lit "word , next".
Definition spaced_twice : str := lit "a , , b".
Definition spaced_twice_text : str := lit "Item 7. a , , b Item 8.".

Definition escaped_twice : str := lit "&amp;amp;".
Definition sample_filing : str :=
  lit "<p>Results</p>" ++ [NL; NL; SP; NL; NL] ++ lit "<div>Sales &amp; costs</div> ".

(** An excerpt that needs no cleaning. *)
Definition clean_sentence : str := lit "Item 7. Results of operations - net".

(** ** Paths: [pathlib] on a POSIX system

    A pure path is its root (empty, one slash or two) and its
    components. *)

Definition SLASH : char := 47%N.
Definition UNDERSCORE : char := 95%N.

(** [s.split(a)] *)
Fixpoint split_on (a : char) (s : str) : list str :=
  match s with
  | [] => [[]]
  | c :: s' =>
      if is_char a c then [] :: split_on a s'
      else match split_on a s' with
           | t :: l => (c :: t) :: l
           | [] => [[c]]
           end
  end.

(** [sep.join(l)] *)
Fixpoint join (sep : str) (l : list str) : str :=
  match l with
  | [] => []
  | [x] => x
  | x :: l' => x ++ sep ++ join sep l'
  end.

(** [s.rfind(a)] *)
Fixpoint rfind (a : char) (s : str) : option nat :=
  match s with
  | [] => None
  | c :: s' =>
      match rfind a s' with
      | Some i => Some (S i)
      | None => if is_char a c then Some 0 else None
      end
  end.

(** [str(n)] of an [int]. *)
Definition str_of_int (n : Z) : str := lit (NilZero.string_of_int (Z.to_int n)).

Record path : Type := { root : str; parts : list str }.

(** [splitroot]: the root of an argument and what follows it.  Two
    leading slashes, and two only, are a root of their own. *)
Definition splitroot (part : str) : str * str :=
  match part with
  | c :: _ =>
      if is_char SLASH c
      then let stripped := lstrip_char SLASH part in
           if length part - length stripped =? 2
           then ([SLASH; SLASH], stripped)
           else ([SLASH], stripped)
      else ([], part)
  | [] => ([], [])
  end.

(** The components of an argument: empty ones and [.] are dropped. *)
Definition components (rel : str) : list str :=
  filter (fun x => negb (str_eqb x []) && negb (str_eqb x (lit ".")))
         (split_on SLASH rel).

(** [parse_parts], which reads the arguments from the last to the
    first and stops at one that has a root. *)
Fixpoint parse_parts (rev_args : list str) : path :=
  match rev_args with
  | [] => {| root := []; parts := [] |}
  | part :: rest =>
      match splitroot part with
      | ([], rel) =>
          let p := parse_parts rest in
          {| root := root p; parts := parts p ++ components rel |}
      | (r, rel) => {| root := r; parts := components rel |}
      end
  end.

(** [Path] applied to strings. *)
Definition Path (args : list str) : path := parse_parts (rev args).

(** [Path] applied to a path and strings. *)
Definition Path_from (p : path) (args : list str) : path :=
  Path (match root p with [] => parts p | r => r :: parts p end ++ args).

(** [str(p)] *)
Definition path_str (p : path) : str :=
  match root p ++ join [SLASH] (parts p) with
  | [] => lit "."
  | s => s
  end.

(** [p.parent], [p.name] and [p.stem]. *)
Definition parent (p : path) : path :=
  {| root := root p; parts := removelast (parts p) |}.

Definition name (p : path) : str := last (parts p) [].

Definition stem (p : path) : str :=
  let nm := name p in
  match rfind 46%N nm with
  | Some i => if (0 <? i) && (i <? length nm - 1) then firstn i nm else nm
  | None => nm
  end.

Definition path_eq_dec (p q : path) : {p = q} + {p <> q}.
Proof.
  decide equality.
  - apply (list_eq_dec (list_eq_dec N.eq_dec)).
  - apply (list_eq_dec N.eq_dec).
Defined.

(** ** The quarters and the files of a run *)

(** [range(lo, hi)] *)
Definition py_range (lo hi : Z) : list Z :=
  List.map (fun i => (lo + Z.of_nat i)%Z) (seq 0 (Z.to_nat (hi - lo))).

(** [itertools.product(range(start, end + 1), range(1, 4 + 1))] *)
Definition quarters (start end_ : Z) : list (Z * Z) :=
  list_prod (py_range start (end_ + 1)) (py_range 1 (4 + 1)).

(** [Path('output', 'filings', form_type, str(year), f'q{str(qtr)}')] *)
Definition path_filings_dir (form_type : str) (year qtr : Z) : path :=
  Path [lit "output"; lit "filings"; form_type; str_of_int year;
        lit "q" ++ str_of_int qtr].

(** [Path('output', 'filings', form_type, log)] *)
Definition path_log (form_type : str) (log : string) : path :=
  Path [lit "output"; lit "filings"; form_type; lit log].

(** [re.search(p, s)]: the first match of a scan. *)
Definition re_search (p : pattern) (s : str) : option (str * groups) :=
  hd_error (finditer p s).

(** The condition of the list comprehension of lines 118, 152 and 188:
    [not re.search('_', str(f))]. *)
Definition is_filing (f : path) : bool :=
  match re_search (compile (Cls (is_char UNDERSCORE))) (path_str f) with
  | Some _ => false
  | None => true
  end.

(** [Path(filing.parent, f'{filing.stem}_mda.txt')] and its like for
    Item 1. *)
Definition path_mda (filing : path) : path :=
  Path_from (parent filing) [stem filing ++ lit "_mda.txt"].

Definition path_item1 (filing : path) : path :=
  Path_from (parent filing) [stem filing ++ lit "_item1.txt"].

(** ** The file tree and the clock

    The tree maps the path of a regular file to the text that decoding
    its bytes as UTF-8 gives; the entry written last comes first.
    Paths name files by their components: symbolic links, [..] and
    directories that are not on the way to a file are left out. *)

Definition tree : Type := list (path * str).

Fixpoint file_at (t : tree) (p : path) : option str :=
  match t with
  | [] => None
  | (q, v) :: t' => if path_eq_dec p q then Some v else file_at t' p
  end.

Record world : Type := { files : tree; clock : nat }.

Inductive os_error : Type := FileNotFoundError | UnicodeEncodeError.

Inductive outcome (A : Type) : Type :=
| Done : A -> outcome A
| Failed : os_error -> outcome A.
Arguments Done {A} _.
Arguments Failed {A} _.

(** A command: from a world to the world it leaves and its outcome. *)
Definition io (A : Type) : Type := world -> world * outcome A.

Definition ret {A : Type} (a : A) : io A := fun w => (w, Done a).

Definition bind {A B : Type} (m : io A) (k : A -> io B) : io B :=
  fun w =>
    match m w with
    | (w', Done a) => k a w'
    | (w', Failed e) => (w', Failed e)
    end.

Notation "x <- m ;; k" := (bind m (fun x => k))
  (at level 61, m at next level, right associativity).
Notation "m ;;; k" := (bind m (fun _ => k))
  (at level 61, right associativity).

(** A [for] loop: an exception ends it. *)
Fixpoint for_each {A : Type} (l : list A) (body : A -> io unit) : io unit :=
  match l with
  | [] => ret tt
  | x :: l' => body x ;;; for_each l' body
  end.

(** Reading in text mode turns [\r\n] and [\r] into [\n]. *)
Fixpoint universal_newlines (after_cr : bool) (s : str) : str :=
  match s with
  | [] => []
  | c :: s' =>
      if is_char 13%N c then NL :: universal_newlines true s'
      else if is_char NL c && after_cr then universal_newlines false s'
      else c :: universal_newlines false s'
  end.

(** UTF-8 encodes every code point but the surrogates. *)
Definition encodable (c : char) : bool := negb (in_range 55296%N 57343%N c).

Definition put (p : path) (v : str) (w : world) : world :=
  {| files := (p, v) :: files w; clock := clock w |}.

(** [p.exists()] *)
Definition path_exists (p : path) : io bool :=
  fun w => (w, Done (match file_at (files w) p with Some _ => true | None => false end)).

(** [with p.open('r', encoding='utf-8', errors='ignore') as f: f.read()] *)
Definition read_text (p : path) : io str :=
  fun w =>
    match file_at (files w) p with
    | Some v => (w, Done (universal_newlines false v))
    | None => (w, Failed FileNotFoundError)
    end.

(** [with open(p, 'w', encoding='utf-8', errors=...) as f: f.write(v)]:
    the file is created or emptied, then written.  With
    [errors='ignore'] what cannot be encoded is left out; otherwise it
    is an error. *)
Definition write_text (ignore : bool) (p : path) (v : str) : io unit :=
  fun w =>
    if ignore then (put p (filter encodable v) w, Done tt)
    else if forallb encodable v then (put p v w, Done tt)
    else (put p [] w, Failed UnicodeEncodeError).

(** [with open(p, 'a', encoding='utf-8') as f: f.write(v)] *)
Definition append_text (p : path) (v : str) : io unit :=
  fun w =>
    let old := match file_at (files w) p with Some o => o | None => [] end in
    if forallb encodable v then (put p (old ++ v) w, Done tt)
    else (put p old w, Failed UnicodeEncodeError).

(** The lines written to the logs. *)
Definition log_line (stamp : str) (what : string) (target : path) (n : nat) : str :=
  [NL] ++ lit "[" ++ stamp ++ lit "] " ++ lit what ++ lit " Write to "
  ++ path_str target ++ [9%N] ++ lit " Length: " ++ str_of_int (Z.of_nat n)
  ++ lit " chars" ++ [NL].

Section Drivers.

Variable P : parsing_patterns.
Variable html_unescape : str -> str.

(** [d.rglob('*.txt')] on a tree: the order is the file system's. *)
Variable rglob : tree -> path -> list path.

(** [dt.datetime.now().strftime("%Y-%m-%d %H:%M:%S")] at the n-th
    reading of the clock. *)
Variable timestamp : nat -> str.

Definition rglob_txt (d : path) : io (list path) :=
  fun w => (w, Done (rglob (files w) d)).

Definition strftime_now : io str :=
  fun w => ({| files := files w; clock := S (clock w) |}, Done (timestamp (clock w))).

(** The filings of a quarter: lines 117 and 118, 151 and 152, 187 and
    188. *)
Definition filings_of (form_type : str) (year qtr : Z) : io (list path) :=
  found <- rglob_txt (path_filings_dir form_type year qtr) ;;
  ret (filter is_filing found).

(** Lines 128 to 130, 165 to 167 and 201 to 203. *)
Definition write_log (log : path) (what : string) (target : path) (n : nat)
  : io unit :=
  stamp <- strftime_now ;;
  append_text log (log_line stamp what target n).

(** The body of the loop of [clean_filings], lines 122 to 130. *)
Definition clean_filing (log : path) (filing : path) : io unit :=
  txt <- read_text filing ;;
  let txt := clean_filing_text P html_unescape txt in
  write_text true filing txt ;;;
  write_log log "Cleaning successful!" filing (length txt).

(** Standard output and the progress bar are not modelled. *)
Definition clean_filings (start end_ : Z) (form_type : str) : io unit :=
  let log := path_log form_type "log_parse.txt" in
  for_each (quarters start end_) (fun yq =>
    filings <- filings_of form_type (fst yq) (snd yq) ;;
    for_each filings (clean_filing log)).

(** The body of the loop of [extract_mda], lines 156 to 167. *)
Definition extract_one_mda (form_type : str) (log : path) (filing : path) : io unit :=
  let target := path_mda filing in
  present <- path_exists target ;;
  if negb present then
    txt <- read_text filing ;;
    let mda := clean_mda_text P txt form_type in
    write_text false target mda ;;;
    write_log log "MD&A extraction successful!" target (length mda)
  else ret tt.

Definition extract_mda (start end_ : Z) (form_type : str) : io unit :=
  let log := path_log form_type "log_extract_mda.txt" in
  for_each (quarters start end_) (fun yq =>
    filings <- filings_of form_type (fst yq) (snd yq) ;;
    for_each filings (extract_one_mda form_type log)).

(** The body of the loop of [extract_item1], lines 193 to 203. *)
Definition extract_one_item1 (log : path) (filing : path) : io unit :=
  let target := path_item1 filing in
  present <- path_exists target ;;
  if negb present then
    txt <- read_text filing ;;
    let item1 := clean_item1_text P txt in
    write_text false target item1 ;;;
    write_log log "Item 1 extraction successful!" target (length item1)
  else ret tt.

Definition extract_item1 (start end_ : Z) (form_type : str) : io unit :=
  let log := path_log form_type "log_extract_item1.txt" in
  for_each (quarters start end_) (fun yq =>
    filings <- filings_of form_type (fst yq) (snd yq) ;;
    for_each filings (extract_one_item1 log)).

End Drivers.

(** ** Vocabulary for the drivers *)

(** [l] is a prefix of [m], and shorter. *)
Fixpoint proper_prefix (l m : list str) : bool :=
  match l, m with
  | [], _ :: _ => true
  | x :: l', y :: m' => str_eqb x y && proper_prefix l' m'
  | _, [] => false
  end.

(** The file [p] is in the directory [d] or below. *)
Definition beneath (d p : path) : bool :=
  str_eqb (root d) (root p) && proper_prefix (parts d) (parts p).

(** The name of [p] matches [*.txt]. *)
Definition is_txt (p : path) : bool :=
  str_eqb (skipn (length (name p) - 4) (name p)) (lit ".txt").

(** What [rglob('*.txt')] gives, in whatever order, once each: the
    files in the directory or below whose name matches. *)
Definition lists_files (rglob : tree -> path -> list path) : Prop :=
  forall t d,
    NoDup (rglob t d)
    /\ forall p, In p (rglob t d)
                 <-> (file_at t p <> None /\ beneath d p = true /\ is_txt p = true).

(** A lister: the files in the order of the tree, last written first. *)
Definition list_tree (t : tree) (d : path) : list path :=
  filter (fun p => beneath d p && is_txt p) (nodup path_eq_dec (List.map fst t)).

(** A digit or a minus sign. *)
Definition is_numeral (c : char) : bool := is_ascii_digit c || is_char 45%N c.

(** No file is lost from one world to another. *)
Definition grows (w w' : world) : Prop :=
  forall p, file_at (files w) p <> None -> file_at (files w') p <> None.

(** ** A run of the examples *)

Definition filing_a : path := Path [lit "output/filings/10-k/1996/q1/a.txt"].
Definition filing_b : path := Path [lit "output/filings/10-k/1996/q3/sub/b.txt"].

Definition world_0 : world :=
  {| files := [ (filing_a, lit "Item 7. Sales  rose ,  costs fell. Item 8. <p>Notes</p>");
                (filing_b, lit "<p>Item 1. Business -- retail.</p> Item 2.");
                (path_mda filing_b, lit "kept") ];
     clock := 0 |}.

Definition stamp_0 (n : nat) : str := lit "1996-01-01 00:00:0" ++ str_of_int (Z.of_nat n).

(** An amended annual report: the form type 10-k/a. *)
Definition filing_c : path := Path [lit "output/filings/10-k/a/1996/q2/c.txt"].

Definition world_1 : world :=
  {| files := [ (filing_c, lit "Item 7. Sales rose. Item 8. Notes") ]; clock := 0 |}.

(** The first tree with a log of an earlier extraction. *)
Definition world_2 : world :=
  put (path_log (lit "10-k") "log_extract_mda.txt") (lit "earlier") world_0.

(** * Properties *)

(** ** Selection of the longest candidate *)

Lemma keep_longest_app (acc : str) (l1 l2 : list (str * groups)) :
  keep_longest (keep_longest acc l1) l2 = keep_longest acc (l1 ++ l2).
Proof. unfold keep_longest. now rewrite fold_left_app. Qed.

Lemma keep_longest_cons (acc : str) (m : str * groups) (l : list (str * groups)) :
  keep_longest acc (m :: l)
  = keep_longest (if length acc <? length (fst m) then fst m else acc) l.
Proof. reflexivity. Qed.

Lemma keep_longest_bounds (l : list (str * groups)) : forall acc : str,
  length acc <= length (keep_longest acc l)
  /\ forall c, In c l -> length (fst c) <= length (keep_longest acc l).
Proof.
  induction l as [|m l IH]; intros acc.
  - split; [apply Nat.le_refl | intros c []].
  - rewrite keep_longest_cons.
    destruct (IH (if length acc <? length (fst m) then fst m else acc)) as [Hacc Hall].
    destruct (Nat.ltb_spec (length acc) (length (fst m))) as [Hlt|Hge].
    + split; [lia|]. intros c [<-|Hc]; [exact Hacc | now apply Hall].
    + split; [exact Hacc|]. intros c [<-|Hc]; [lia | now apply Hall].
Qed.

Lemma keep_longest_origin (l : list (str * groups)) : forall acc : str,
  keep_longest acc l = acc \/ In (keep_longest acc l) (List.map fst l).
Proof.
  induction l as [|m l IH]; intros acc; [now left|].
  rewrite keep_longest_cons.
  destruct (IH (if length acc <? length (fst m) then fst m else acc)) as [H|H].
  - rewrite H. destruct (length acc <? length (fst m)).
    + right. now left.
    + now left.
  - right. now right.
Qed.

Lemma keep_longest_stays (l : list (str * groups)) : forall acc : str,
  (forall c, In c l -> length (fst c) <= length acc) ->
  keep_longest acc l = acc.
Proof.
  induction l as [|m l IH]; intros acc H; [reflexivity|].
  rewrite keep_longest_cons.
  assert (Hm : length (fst m) <= length acc) by (apply H; now left).
  destruct (Nat.ltb_spec (length acc) (length (fst m))); [lia|].
  apply IH. intros c Hc. apply H. now right.
Qed.

Lemma keep_longest_first_max (l1 : list (str * groups)) (m : str * groups) (l2 : list (str * groups)) :
  (forall c, In c l1 -> length (fst c) < length (fst m)) ->
  (forall c, In c l2 -> length (fst c) <= length (fst m)) ->
  keep_longest [] (l1 ++ m :: l2) = fst m.
Proof.
  intros H1 H2. rewrite <- keep_longest_app.
  destruct (keep_longest_origin l1 []) as [E|E].
  - rewrite E, keep_longest_cons. simpl length at 1.
    destruct (Nat.ltb_spec 0 (length (fst m))) as [Hpos|Hzero].
    + now apply keep_longest_stays.
    + assert (Em : fst m = []) by (destruct (fst m); [reflexivity | simpl in Hzero; lia]).
      rewrite Em in *. now apply keep_longest_stays.
  - apply in_map_iff in E. destruct E as (c & Ec & Hc).
    specialize (H1 c Hc). rewrite Ec in H1.
    rewrite keep_longest_cons.
    destruct (Nat.ltb_spec (length (keep_longest [] l1)) (length (fst m))); [|lia].
    now apply keep_longest_stays.
Qed.

Lemma keep_longest_is_longest (cands : list (str * groups)) :
  longest_of (keep_longest [] cands) cands.
Proof.
  repeat split.
  - apply (keep_longest_bounds cands []).
  - intros Hne. destruct (keep_longest_origin cands []) as [E|E]; [|exact E].
    destruct cands as [|c cands]; [now destruct Hne|].
    destruct (keep_longest_bounds (c :: cands) []) as [_ Hall].
    specialize (Hall c (or_introl eq_refl)). rewrite E in Hall.
    simpl in Hall. left. destruct (fst c); [now rewrite E | simpl in Hall; lia].
  - intros ->. reflexivity.
Qed.

Lemma clean_mda_text_10k P txt :
  clean_mda_text P txt (lit "10-k")
  = clean_excerpt P
      (keep_longest [] (finditer (PAT_10K_MDA1 P) (without_tables P txt)
                        ++ finditer (PAT_10K_MDA2 P) (without_tables P txt))).
Proof. unfold clean_mda_text. simpl. now rewrite keep_longest_app. Qed.

Lemma clean_mda_text_10q P txt :
  clean_mda_text P txt (lit "10-q")
  = clean_excerpt P
      (keep_longest [] (finditer (PAT_10Q_MDA P) (without_tables P txt))).
Proof. reflexivity. Qed.

Lemma clean_item1_text_eq P txt :
  clean_item1_text P txt
  = clean_excerpt P
      (keep_longest [] (finditer (PAT_ITEM1 P) (without_tables P txt))).
Proof. reflexivity. Qed.

(** ** Empty excerpts *)

Lemma re_sub_nil (p : pattern) (repl : str -> groups -> str) :
  p [] [] false = None -> re_sub p repl [] = [].
Proof. intros H. unfold re_sub. simpl. now rewrite H. Qed.

Lemma clean_excerpt_nil (P : parsing_patterns) :
  toc_silent P -> clean_excerpt P [] = [].
Proof.
  intros [H1 H2]. unfold clean_excerpt.
  rewrite (re_sub_nil _ _ H1), (re_sub_nil _ _ H2). reflexivity.
Qed.

Lemma str_eqb_eq (s t : str) : str_eqb s t = true <-> s = t.
Proof.
  unfold str_eqb. destruct (list_eq_dec N.eq_dec s t); split; congruence.
Qed.

Lemma str_eqb_neq (s t : str) : s <> t -> str_eqb s t = false.
Proof.
  intros H. destruct (str_eqb s t) eqn:E; [|reflexivity].
  now apply str_eqb_eq in E.
Qed.

(** ** The claims on selection, missing sections and form types *)

(** Claim C1: among all the matches of all the patterns applied for a
    form type (both annual patterns for [10-k]), the excerpt that is
    post-processed and returned is a candidate of maximum length; a
    500-character match of one pattern wins over a 480-character match
    of the other. *)
Theorem longest_candidate_selected (P : parsing_patterns) (txt : str) :
  let t := without_tables P txt in
  (exists best,
      clean_mda_text P txt (lit "10-k") = clean_excerpt P best
      /\ longest_of best (finditer (PAT_10K_MDA1 P) t ++ finditer (PAT_10K_MDA2 P) t))
  /\ (exists best,
      clean_mda_text P txt (lit "10-q") = clean_excerpt P best
      /\ longest_of best (finditer (PAT_10Q_MDA P) t))
  /\ (exists best,
      clean_item1_text P txt = clean_excerpt P best
      /\ longest_of best (finditer (PAT_ITEM1 P) t))
  /\ (forall a b,
      finditer (PAT_10K_MDA1 P) t = [a] -> finditer (PAT_10K_MDA2 P) t = [b] ->
      length (fst a) = 500 -> length (fst b) = 480 ->
      clean_mda_text P txt (lit "10-k") = clean_excerpt P (fst a))
  /\ (forall a b,
      finditer (PAT_10K_MDA1 P) t = [a] -> finditer (PAT_10K_MDA2 P) t = [b] ->
      length (fst a) = 480 -> length (fst b) = 500 ->
      clean_mda_text P txt (lit "10-k") = clean_excerpt P (fst b)).
Proof.
  intros t. repeat split.
  - eexists. split; [apply clean_mda_text_10k | apply keep_longest_is_longest].
  - eexists. split; [apply clean_mda_text_10q | apply keep_longest_is_longest].
  - eexists. split; [apply clean_item1_text_eq | apply keep_longest_is_longest].
  - intros a b Ha Hb La Lb. rewrite clean_mda_text_10k. fold t. rewrite Ha, Hb.
    f_equal. apply (keep_longest_first_max [] a [b]).
    + intros c [].
    + intros c [<-|[]]. lia.
  - intros a b Ha Hb La Lb. rewrite clean_mda_text_10k. fold t. rewrite Ha, Hb.
    f_equal. apply (keep_longest_first_max [a] b []).
    + intros c [<-|[]]. lia.
    + intros c [].
Qed.

(** Claim C3: on equal lengths the candidate found first is kept: the
    first candidate of maximum length, in the order first pattern then
    second pattern and by position within a pattern, is the one
    selected, whatever follows it with the same length. *)
Theorem tie_keeps_first_found (P : parsing_patterns) (txt : str)
    (l1 : list (str * groups)) (m : str * groups) (l2 : list (str * groups)) :
  (forall c, In c l1 -> length (fst c) < length (fst m)) ->
  (forall c, In c l2 -> length (fst c) <= length (fst m)) ->
  let t := without_tables P txt in
  (finditer (PAT_10K_MDA1 P) t ++ finditer (PAT_10K_MDA2 P) t = l1 ++ m :: l2 ->
   clean_mda_text P txt (lit "10-k") = clean_excerpt P (fst m))
  /\ (finditer (PAT_10Q_MDA P) t = l1 ++ m :: l2 ->
      clean_mda_text P txt (lit "10-q") = clean_excerpt P (fst m))
  /\ (finditer (PAT_ITEM1 P) t = l1 ++ m :: l2 ->
      clean_item1_text P txt = clean_excerpt P (fst m)).
Proof.
  intros H1 H2 t. split; [|split]; intros E.
  - rewrite clean_mda_text_10k. fold t. rewrite E.
    now rewrite keep_longest_first_max.
  - rewrite clean_mda_text_10q. fold t. rewrite E.
    now rewrite keep_longest_first_max.
  - rewrite clean_item1_text_eq. fold t. rewrite E.
    now rewrite keep_longest_first_max.
Qed.

Lemma tie_keeps_first_found_witness :
  let first := finditer (PAT_10K_MDA1 spec_patterns) tie_text in
  let second := finditer (PAT_10K_MDA2 spec_patterns) tie_text in
  List.map (fun c => length (fst c)) (first ++ second) = [77; 77]
  /\ clean_mda_text spec_patterns tie_text (lit "10-k")
     = clean_excerpt spec_patterns (fst (hd ([], []) first)).
Proof.
  split; [vm_compute; reflexivity|].
  apply (tie_keeps_first_found spec_patterns tie_text []
           (hd ([], []) (finditer (PAT_10K_MDA1 spec_patterns) tie_text))
           (finditer (PAT_10K_MDA2 spec_patterns) tie_text)).
  - intros c [].
  - intros c Hc. vm_compute in Hc. destruct Hc as [<-|[]]. vm_compute. lia.
  - vm_compute; reflexivity.
Defined.

(** Claim C6: when no applicable section pattern matches, the
    extractors return the empty string; the empty excerpt goes through
    post-processing unchanged, the table-of-contents patterns finding
    nothing in an empty text. *)
Theorem no_match_gives_empty (P : parsing_patterns) (txt : str) :
  toc_silent P ->
  let t := without_tables P txt in
  (finditer (PAT_10K_MDA1 P) t = [] -> finditer (PAT_10K_MDA2 P) t = [] ->
   clean_mda_text P txt (lit "10-k") = [])
  /\ (finditer (PAT_10Q_MDA P) t = [] -> clean_mda_text P txt (lit "10-q") = [])
  /\ (finditer (PAT_ITEM1 P) t = [] -> clean_item1_text P txt = []).
Proof.
  intros Htoc t. repeat split.
  - intros E1 E2. rewrite clean_mda_text_10k. fold t. rewrite E1, E2.
    now apply clean_excerpt_nil.
  - intros E. rewrite clean_mda_text_10q. fold t. rewrite E.
    now apply clean_excerpt_nil.
  - intros E. rewrite clean_item1_text_eq. fold t. rewrite E.
    now apply clean_excerpt_nil.
Qed.

Lemma no_match_gives_empty_witness :
  clean_mda_text spec_patterns plain_text (lit "10-k") = []
  /\ clean_mda_text spec_patterns plain_text (lit "10-q") = []
  /\ clean_item1_text spec_patterns plain_text = [].
Proof.
  assert (Htoc : toc_silent spec_patterns) by (split; vm_compute; reflexivity).
  destruct (no_match_gives_empty spec_patterns plain_text Htoc) as (H1 & H2 & H3).
  split; [|split].
  - apply H1; vm_compute; reflexivity.
  - apply H2; vm_compute; reflexivity.
  - apply H3; vm_compute; reflexivity.
Defined.

(** Claim C7: for a form type other than exactly [10-k] or [10-q]
    (such as [8-k], [10-k/a], [10-q/a] or [10-K]) [clean_mda_text]
    returns the empty string: no pattern is applied and the empty
    excerpt goes through post-processing unchanged. *)
Theorem other_form_type_gives_empty (P : parsing_patterns) (txt form_type : str) :
  toc_silent P ->
  form_type <> lit "10-k" -> form_type <> lit "10-q" ->
  clean_mda_text P txt form_type = [].
Proof.
  intros Htoc Hk Hq. unfold clean_mda_text.
  rewrite (str_eqb_neq _ _ Hk), (str_eqb_neq _ _ Hq). now apply clean_excerpt_nil.
Qed.

Lemma other_form_type_gives_empty_witness :
  clean_mda_text spec_patterns mda_text (lit "10-k") <> []
  /\ Forall (fun form_type => clean_mda_text spec_patterns mda_text form_type = [])
       [lit "8-k"; lit "10-k/a"; lit "10-q/a"; lit "10-K"; lit "10-Q"; []].
Proof.
  assert (Htoc : toc_silent spec_patterns) by (split; vm_compute; reflexivity).
  split; [vm_compute; discriminate|].
  repeat (apply Forall_cons;
          [apply (other_form_type_gives_empty spec_patterns mda_text _ Htoc);
           vm_compute; discriminate|]).
  apply Forall_nil.
Defined.

(** ** The claims on [tab_replace] that do not depend on the ratio *)

(** Claim C5: a table span with no counted letter and no counted digit
    makes the division raise [ZeroDivisionError]; the handler returns
    the empty string, so the span is dropped. *)
Theorem zero_denominator_drops (P : parsing_patterns) (match0 : str)
    (tab_ratio : spec_float) :
  letter_count (tab_content P match0) = 0 ->
  digit_count (tab_content P match0) = 0 ->
  tab_replace_try P match0 tab_ratio = Raise ZeroDivisionError
  /\ tab_replace P match0 tab_ratio = [].
Proof.
  intros Hc Hd. unfold tab_replace, tab_replace_try. rewrite Hc, Hd. simpl.
  split; reflexivity.
Qed.

Lemma zero_denominator_drops_witness :
  tab_replace_try spec_patterns empty_table tab_ratio_default = Raise ZeroDivisionError
  /\ tab_replace spec_patterns empty_table tab_ratio_default = [].
Proof.
  apply (zero_denominator_drops spec_patterns empty_table tab_ratio_default);
    vm_compute; reflexivity.
Defined.

(** Claim C10: [tab_replace] returns a string for every match.  The
    [try] block raises exactly when no letter and no digit is counted,
    and then [ZeroDivisionError]; when one is counted the handler is
    not entered and the result is the span between the table markers
    or the empty string. *)
Theorem tab_replace_total (P : parsing_patterns) (match0 : str)
    (tab_ratio : spec_float) :
  let c := letter_count (tab_content P match0) in
  let d := digit_count (tab_content P match0) in
  (exists out, tab_replace P match0 tab_ratio = out)
  /\ (forall e, tab_replace_try P match0 tab_ratio = Raise e ->
                e = ZeroDivisionError /\ c + d = 0)
  /\ (c + d = 0 -> tab_replace_try P match0 tab_ratio = Raise ZeroDivisionError)
  /\ (0 < c + d ->
      tab_replace_try P match0 tab_ratio = Ok (tab_replace P match0 tab_ratio)
      /\ (tab_replace P match0 tab_ratio = TABLE_OPEN ++ match0 ++ TABLE_CLOSE
          \/ tab_replace P match0 tab_ratio = [])).
Proof.
  intros c d. unfold tab_replace, tab_replace_try. fold c d. unfold truediv.
  destruct (Z.eqb_spec (Z.of_nat c + Z.of_nat d) 0) as [E|E].
  - repeat split.
    + now eexists.
    + now destruct e.
    + lia.
    + lia.
    + lia.
  - destruct (SFltb _ _); repeat split; eauto; try discriminate; try lia.
Qed.

(** ** The fuel of the quantifier loop is never used up *)

Lemma rep_loop_respects {R : Type} (body : matcher R) (greedy : bool) (mn : nat)
    (mx : option nat) :
  respects body ->
  forall fuel count b n s g (k1 k2 : cont R),
    (forall b' n' s' g',
        length s' <= length s -> n' + length s' = n + length s ->
        k1 b' n' s' g' = k2 b' n' s' g') ->
    rep_loop body greedy mn mx k1 fuel count b n s g
    = rep_loop body greedy mn mx k2 fuel count b n s g.
Proof.
  intros Hbody. induction fuel as [|fuel IH]; intros count b n s g k1 k2 Hk;
    [reflexivity|].
  cbn [rep_loop].
  rewrite (Hk b n s g (Nat.le_refl _) eq_refl).
  rewrite (Hbody b n s g _
             (fun b' n' s' g' =>
                if (mn <=? count) && (n' =? n) then None
                else rep_loop body greedy mn mx k2 fuel (S count) b' n' s' g'));
    [reflexivity|].
  intros b' n' s' g' Hlen Hn. destruct ((mn <=? count) && (n' =? n)); [reflexivity|].
  apply IH. intros b'' n'' s'' g'' Hlen' Hn'. apply Hk; lia.
Qed.

Lemma rmatch_respects {R : Type} (r : regex) : respects (@rmatch R r).
Proof.
  induction r as [|f| | |r1 IH1 r2 IH2|r1 IH1 r2 IH2|greedy mn mx r1 IH1|i r1 IH1];
    intros b n s g k1 k2 Hk; cbn [rmatch].
  - apply Hk; lia.
  - destruct s as [|c s']; [reflexivity|]. destruct (f c); [|reflexivity].
    apply Hk; simpl; lia.
  - destruct b; [apply Hk; lia | reflexivity].
  - destruct s; [apply Hk; lia | reflexivity].
  - apply IH1. intros b' n' s' g' Hlen Hn. apply IH2.
    intros b'' n'' s'' g'' Hlen' Hn'. apply Hk; lia.
  - now rewrite (IH1 b n s g k1 k2 Hk), (IH2 b n s g k1 k2 Hk).
  - now apply rep_loop_respects.
  - apply IH1. intros b' n' s' g' Hlen Hn. apply Hk; lia.
Qed.

Lemma rep_loop_step {R : Type} (body : matcher R) (greedy : bool) (mn : nat)
    (mx : option nat) (k : cont R) (fuel count : nat) (b : str) (n : nat) (s : str)
    (g : groups) :
  rep_loop body greedy mn mx k (S fuel) count b n s g
  = let again :=
      body b n s g (fun b' n' s' g' =>
        if (mn <=? count) && (n' =? n) then None
        else rep_loop body greedy mn mx k fuel (S count) b' n' s' g') in
    if count <? mn then again
    else if reached mx count then k b n s g
    else if greedy then orelse again (k b n s g)
    else orelse (k b n s g) again.
Proof. reflexivity. Qed.

(** One more unit of fuel changes nothing: the bound
    [mn + length s + 1] set by [rmatch] is enough for every pattern. *)
Theorem rep_loop_fuel {R : Type} (body : matcher R) (greedy : bool) (mn : nat)
    (mx : option nat) (k : cont R) :
  respects body ->
  forall fuel count b n s g,
    (mn - count) + length s + 1 <= fuel ->
    rep_loop body greedy mn mx k fuel count b n s g
    = rep_loop body greedy mn mx k (S fuel) count b n s g.
Proof.
  intros Hbody. induction fuel as [|fuel IH]; intros count b n s g Hfuel; [lia|].
  rewrite (rep_loop_step body greedy mn mx k fuel count b n s g).
  rewrite (rep_loop_step body greedy mn mx k (S fuel) count b n s g).
  rewrite (Hbody b n s g _
             (fun b' n' s' g' =>
                if (mn <=? count) && (n' =? n) then None
                else rep_loop body greedy mn mx k (S fuel) (S count) b' n' s' g'));
    [reflexivity|].
  intros b' n' s' g' Hlen Hn.
  destruct (Nat.leb_spec mn count) as [Hc|Hc]; cbn [andb].
  - destruct (Nat.eqb_spec n' n) as [E|E]; [reflexivity|]. apply IH. lia.
  - apply IH. lia.
Qed.

(** ** The matcher on the patterns of the source *)

Lemma orelse_none_r {A : Type} (x : option A) : orelse x None = x.
Proof. now destruct x. Qed.

Lemma orelse_some_l {A : Type} (x y : option A) : x <> None -> orelse x y = x.
Proof. now destruct x. Qed.

Lemma need_zero (mn count : nat) : (mn - count =? 0) = negb (count <? mn).
Proof.
  destruct (Nat.ltb_spec count mn); simpl.
  - apply Nat.eqb_neq. lia.
  - apply Nat.eqb_eq. lia.
Qed.

Lemma succ_neqb (n : nat) : (S n =? n) = false.
Proof. apply Nat.eqb_neq. lia. Qed.

Lemma rep_loop_one_char {R : Type} (f : char -> bool) (body : matcher R) (mn : nat)
    (k : cont R) :
  one_char f body ->
  forall (s : str) (fuel count : nat) (b : str) (n : nat) (g : groups),
    length s < fuel ->
    rep_loop body true mn None k fuel count b n s g
    = greedy_run f k (mn - count) b n s g.
Proof.
  intros Hbody.
  induction s as [|c s IH]; intros fuel count b n g Hfuel;
    (destruct fuel as [|fuel]; [simpl in Hfuel; lia|]);
    cbn [rep_loop greedy_run reached]; cbv zeta; rewrite need_zero;
    rewrite (Hbody b n _ g _).
  - now destruct (count <? mn).
  - simpl in Hfuel. rewrite succ_neqb, andb_false_r.
    replace (pred (mn - count)) with (mn - S count) by lia.
    destruct (f c).
    + rewrite (IH fuel (S count) (c :: b) (S n) g) by lia.
      destruct (count <? mn); simpl; [now rewrite orelse_none_r | reflexivity].
    + now destruct (count <? mn).
Qed.

Lemma rmatch_rep_cls {R : Type} (f : char -> bool) (mn : nat) (b : str) (n : nat)
    (s : str) (g : groups) (k : cont R) :
  rmatch (Rep true mn None (Cls f)) b n s g k = greedy_run f k mn b n s g.
Proof.
  cbn [rmatch]. rewrite (rep_loop_one_char f); [now rewrite Nat.sub_0_r | | lia].
  intros b' n' s' g' k'. reflexivity.
Qed.

Lemma rmatch_grp {R : Type} (i : nat) (r : regex) (b : str) (n : nat) (s : str)
    (g : groups) (k : cont R) :
  rmatch (Grp i r) b n s g k
  = rmatch r b n s g (fun b' n' s' g' => k b' n' s' ((i, firstn (n' - n) s) :: g')).
Proof. reflexivity. Qed.

Lemma rmatch_cat {R : Type} (r1 r2 : regex) (b : str) (n : nat) (s : str)
    (g : groups) (k : cont R) :
  rmatch (Cat r1 r2) b n s g k
  = rmatch r1 b n s g (fun b' n' s' g' => rmatch r2 b' n' s' g' k).
Proof. reflexivity. Qed.

(** With nothing more required and a continuation that cannot fail
    once a character is consumed, a greedy run stops after the longest
    prefix in the class. *)
Lemma greedy_run_max {R : Type} (f : char -> bool) (k : cont R) (g : groups) :
  forall (s b : str) (n : nat),
    (forall b' n' s', n <= n' -> k b' n' s' g <> None) ->
    greedy_run f k 0 b n s g
    = k (rev (firstn (span f s) s) ++ b) (n + span f s) (skipn (span f s) s) g.
Proof.
  induction s as [|c s IH]; intros b n Hk;
    cbn [greedy_run span Nat.eqb pred].
  - now rewrite Nat.add_0_r.
  - destruct (f c); [|now rewrite Nat.add_0_r].
    assert (Hk' : forall b' n' s', S n <= n' -> k b' n' s' g <> None)
      by (intros b' n' s' Hn; apply Hk; lia).
    rewrite (IH (c :: b) (S n) Hk'). cbn [firstn skipn rev].
    rewrite <- app_assoc. cbn [app].
    replace (n + S (span f s)) with (S n + span f s) by lia.
    apply orelse_some_l. apply Hk'. lia.
Qed.

(** What the pattern of line 82 matches at a position: the whole run
    of whitespace that starts there. *)
Lemma compile_RE_SPACES (b s : str) (must_advance : bool) :
  compile RE_SPACES b s must_advance
  = match s with
    | c :: s' =>
        if is_space c
        then Some (S (span is_space s'), [(1, firstn (S (span is_space s')) s)])
        else None
    | [] => None
    end.
Proof.
  unfold compile, final, RE_SPACES, at_least. rewrite rmatch_grp, rmatch_rep_cls.
  destruct s as [|c s']; [reflexivity|].
  cbn [greedy_run Nat.eqb pred]. destruct (is_space c); [|reflexivity].
  rewrite orelse_none_r, greedy_run_max.
  - cbn [Nat.add Nat.eqb Nat.sub]. now rewrite andb_false_r.
  - intros b' n' s'' Hn. destruct n' as [|n']; [lia|].
    cbn [Nat.eqb]. rewrite andb_false_r. discriminate.
Qed.

(** ** Whitespace collapsing (line 82) *)

Lemma tidy_cons (c : char) (s : str) :
  tidy (c :: s)
  = (if is_space c then is_char SP c && no_leading_space s else true) && tidy s.
Proof. reflexivity. Qed.

Lemma pieces_text_hit (repl : str -> groups -> str) (t : str) (g : groups)
    (l : list piece) :
  pieces_text repl (Hit t g :: l) = repl t g ++ pieces_text repl l.
Proof. reflexivity. Qed.

Lemma pieces_text_keep (repl : str -> groups -> str) (c : char) (l : list piece) :
  pieces_text repl (Keep c :: l) = c :: pieces_text repl l.
Proof. reflexivity. Qed.



(** ** Spacing before marks (line 83) *)

Lemma compile_RE_MARK (b s : str) (must_advance : bool) :
  compile RE_MARK b s must_advance
  = match s with
    | c1 :: c2 :: c3 :: _ =>
        if is_char SP c1 && is_mark c2 && is_char SP c3
        then Some (3, [(1, [c2])])
        else None
    | _ => None
    end.
Proof.
  unfold compile, final, RE_MARK, is_mark.
  destruct s as [|c1 [|c2 [|c3 s]]]; cbn [rmatch].
  - reflexivity.
  - now destruct (is_char SP c1).
  - destruct (is_char SP c1); [|reflexivity].
    now destruct (is_char 44%N c2), (is_char 59%N c2), (is_char 46%N c2),
      (is_char 8217%N c2), (is_char 174%N c2).
  - destruct (is_char SP c1); [|reflexivity].
    destruct (is_char 44%N c2), (is_char 59%N c2), (is_char 46%N c2),
      (is_char 8217%N c2), (is_char 174%N c2), (is_char SP c3);
      cbn; now rewrite ?andb_false_r.
Qed.


Lemma is_char_eq (a c : char) : is_char a c = true -> c = a.
Proof. apply N.eqb_eq. Qed.






(** ** Removal of a leading comment fragment (line 84) *)

(** A pattern that starts with [^] matches at the start of the text only. *)
Lemma compile_bos_later (r : regex) (c : char) (b s : str) (must_advance : bool) :
  compile (Cat Bos r) (c :: b) s must_advance = None.
Proof. reflexivity. Qed.

Lemma scan_bos_later (r : regex) (repl : str -> groups -> str) :
  forall (s : str) (c : char) (b : str) (skip : nat),
    pieces_text repl (scan (compile (Cat Bos r)) (c :: b) s skip) = skipn skip s.
Proof.
  induction s as [|c' s IH]; intros c b skip.
  - destruct skip; reflexivity.
  - destruct skip as [|skip]; cbn [scan].
    + rewrite compile_bos_later, pieces_text_keep, IH. reflexivity.
    + rewrite IH. reflexivity.
Qed.

Lemma re_sub_pieces (p : pattern) (repl : str -> groups -> str) (s : str) :
  re_sub p repl s = pieces_text repl (scan p [] s 0).
Proof. reflexivity. Qed.


(** ** The excerpt is tidy *)

Lemma clean_excerpt_steps (P : parsing_patterns) (mda : str) :
  clean_excerpt P mda
  = re_sub (compile RE_COMMENT) (const []) (repair_marks (collapsed P mda)).
Proof. reflexivity. Qed.





(** ** Spacing before marks *)

Lemma scan_marks_eq : forall (s b : str) (skip : nat),
  pieces_text mark_repl (scan (compile RE_MARK) b s skip) = marks s skip.
Proof.
  induction s as [|c1 s1 IH]; intros b skip.
  - destruct skip; cbn [scan marks]; [now rewrite compile_RE_MARK | reflexivity].
  - destruct skip as [|k]; cbn [scan marks]; [|apply IH].
    rewrite compile_RE_MARK.
    destruct s1 as [|c2 [|c3 s3]];
      try (rewrite pieces_text_keep, IH; reflexivity).
    destruct (is_char SP c1 && is_mark c2 && is_char SP c3).
    + rewrite pieces_text_hit, IH. reflexivity.
    + rewrite pieces_text_keep, IH. reflexivity.
Qed.

Lemma repair_marks_eq (s : str) : repair_marks s = marks s 0.
Proof. apply scan_marks_eq. Qed.

Lemma ends_with_spaced_mark_tail (c : char) (u : str) :
  ends_with_spaced_mark (c :: u) = false -> ends_with_spaced_mark u = false.
Proof.
  destruct u as [|q [|x u]]; try reflexivity.
  cbn [ends_with_spaced_mark]. now intros H.
Qed.

Lemma marks_app (rest : str) : forall (u : str) (skip : nat),
  skip <= length u ->
  ends_with_spaced_mark u = false ->
  marks (u ++ SP :: rest) skip = marks u skip ++ marks (SP :: rest) 0.
Proof.
  induction u as [|c1 u1 IH]; intros skip Hskip Hu.
  - destruct skip; [reflexivity | simpl in Hskip; lia].
  - pose proof (ends_with_spaced_mark_tail _ _ Hu) as Hu1.
    destruct skip as [|k].
    + destruct u1 as [|c2 [|c3 u3]].
      * destruct rest as [|c3 r]; [reflexivity|].
        change (marks ([c1] ++ SP :: c3 :: r) 0)
          with (if is_char SP c1 && is_mark SP && is_char SP c3
                then SP :: SP :: marks (SP :: c3 :: r) 2
                else c1 :: marks (SP :: c3 :: r) 0).
        change (is_mark SP) with false. now rewrite andb_false_r.
      * cbn [ends_with_spaced_mark] in Hu.
        change (marks ([c1; c2] ++ SP :: rest) 0)
          with (if is_char SP c1 && is_mark c2 && is_char SP SP
                then c2 :: SP :: marks ([c2] ++ SP :: rest) 2
                else c1 :: marks ([c2] ++ SP :: rest) 0).
        rewrite Hu. cbn [andb]. rewrite (IH 0); [reflexivity | simpl; lia | exact Hu1].
      * change (marks ((c1 :: c2 :: c3 :: u3) ++ SP :: rest) 0)
          with (if is_char SP c1 && is_mark c2 && is_char SP c3
                then c2 :: SP :: marks ((c2 :: c3 :: u3) ++ SP :: rest) 2
                else c1 :: marks ((c2 :: c3 :: u3) ++ SP :: rest) 0).
        change (marks (c1 :: c2 :: c3 :: u3) 0)
          with (if is_char SP c1 && is_mark c2 && is_char SP c3
                then c2 :: SP :: marks (c2 :: c3 :: u3) 2
                else c1 :: marks (c2 :: c3 :: u3) 0).
        destruct (is_char SP c1 && is_mark c2 && is_char SP c3).
        -- rewrite (IH 2); [reflexivity | simpl; lia | exact Hu1].
        -- rewrite (IH 0); [reflexivity | simpl; lia | exact Hu1].
    + cbn [app marks]. apply IH; [simpl in Hskip; lia | exact Hu1].
Qed.

Lemma repair_marks_in_place (u v : str) (p : char) :
  is_mark p = true ->
  ends_with_spaced_mark u = false ->
  repair_marks (u ++ SP :: p :: SP :: v)
  = repair_marks u ++ p :: SP :: repair_marks v.
Proof.
  intros Hp Hu. rewrite !repair_marks_eq, marks_app; [|lia|exact Hu].
  f_equal. cbn [marks]. rewrite Hp. reflexivity.
Qed.

(** Claim C9, as stated, fails: in [a , , b] the second comma stands
    between single spaces and keeps its leading space, because that
    space is the trailing space of the first replaced occurrence.  The
    claim would give [a,, b]. *)
Lemma repair_marks_skips_overlap :
  repair_marks spaced_twice = lit "a, , b"
  /\ repair_marks spaced_twice <> lit "a,, b"
  /\ clean_mda_text spec_patterns spaced_twice_text (lit "10-k")
     = lit "Item 7. a, , b Item 8.".
Proof. split; [|split]; vm_compute; [reflexivity | discriminate | reflexivity]. Qed.

(** Claim C9, amended: line 83 rewrites, from left to right, each
    occurrence of a space, a mark and a space whose leading space is
    not the trailing space of a preceding occurrence (the text before
    it does not end with a space and a mark): the leading space goes,
    the mark and the trailing space stay, and the text on either side
    is repaired on its own.  The returned excerpt is that text after
    line 84. *)
Theorem mark_spacing_repaired (P : parsing_patterns) (mda u v : str) (p : char) :
  is_mark p = true ->
  ends_with_spaced_mark u = false ->
  collapsed P mda = u ++ SP :: p :: SP :: v ->
  repair_marks (collapsed P mda) = repair_marks u ++ p :: SP :: repair_marks v
  /\ clean_excerpt P mda
     = re_sub (compile RE_COMMENT) (const [])
         (repair_marks u ++ p :: SP :: repair_marks v).
Proof.
  intros Hp Hu E. rewrite clean_excerpt_steps, E.
  now rewrite repair_marks_in_place.
Qed.

Lemma mark_spacing_repaired_witness :
  collapsed spec_patterns spaced_word = lit "word" ++ SP :: 44%N :: SP :: lit "next"
  /\ repair_marks (collapsed spec_patterns spaced_word) = lit "word, next"
  /\ clean_excerpt spec_patterns spaced_word = lit "word, next".
Proof.
  assert (E : collapsed spec_patterns spaced_word
              = lit "word" ++ SP :: 44%N :: SP :: lit "next")
    by (vm_compute; reflexivity).
  destruct (mark_spacing_repaired spec_patterns spaced_word (lit "word") (lit "next")
              44%N eq_refl eq_refl E) as [H1 H2].
  split; [exact E|]. split.
  - rewrite H1. vm_compute. reflexivity.
  - rewrite H2. vm_compute. reflexivity.
Defined.

(** ** Binary64 division of two string lengths *)

Section Binary64.

Local Open Scope Z_scope.

Lemma digits2_pos_bounds (p : positive) :
  2 ^ (Zpos (digits2_pos p) - 1) <= Zpos p < 2 ^ Zpos (digits2_pos p).
Proof.
  induction p as [p IH|p IH|]; cbn [digits2_pos].
  - rewrite Pos2Z.inj_succ, Z.pow_succ_r by lia.
    replace (Z.succ (Zpos (digits2_pos p)) - 1) with (Z.succ (Zpos (digits2_pos p) - 1)) by lia.
    rewrite Z.pow_succ_r by lia. lia.
  - rewrite Pos2Z.inj_succ, Z.pow_succ_r by lia.
    replace (Z.succ (Zpos (digits2_pos p)) - 1) with (Z.succ (Zpos (digits2_pos p) - 1)) by lia.
    rewrite Z.pow_succ_r by lia. lia.
  - cbn. lia.
Qed.

Lemma digits2_pos_unique (p : positive) (k : Z) :
  2 ^ (k - 1) <= Zpos p < 2 ^ k -> Zpos (digits2_pos p) = k.
Proof.
  intros [Hlo Hhi]. pose proof (digits2_pos_bounds p) as [Blo Bhi].
  assert (Hk : 0 < k).
  { destruct (Z.ltb_spec 0 k); [assumption|].
    assert (2 ^ k <= 1); [|lia].
    destruct (Z.eqb_spec k 0) as [->|]; [cbn; lia|].
    rewrite Z.pow_neg_r by lia. lia. }
  destruct (Z.lt_trichotomy (Zpos (digits2_pos p)) k) as [H|[H|H]]; [|exact H|].
  - assert (2 ^ Zpos (digits2_pos p) <= 2 ^ (k - 1)) by (apply Z.pow_le_mono_r; lia).
    lia.
  - assert (2 ^ k <= 2 ^ (Zpos (digits2_pos p) - 1)) by (apply Z.pow_le_mono_r; lia).
    lia.
Qed.

Lemma iter_xO_value (d m : positive) :
  Zpos (Pos.iter xO m d) = Zpos m * 2 ^ Zpos d.
Proof.
  revert m. induction d as [|d IH] using Pos.peano_ind; intros m.
  - cbn [Pos.iter]. rewrite Z.pow_1_r. lia.
  - rewrite Pos.iter_succ, Pos2Z.inj_succ, Z.pow_succ_r by lia.
    rewrite Pos2Z.inj_xO, IH. lia.
Qed.

(** A 53-bit mantissa with an exponent in range is its own rounding. *)
Lemma binary_round_aux_exact (m : positive) (e : Z) :
  Zpos (digits2_pos m) = 53 -> -1074 <= e <= 971 ->
  binary_round_aux prec emax false (Zpos m) e loc_Exact = S754_finite false m e.
Proof.
  intros Hd He. unfold binary_round_aux, shr_fexp, shr_record_of_loc.
  cbn [Zdigits2]. rewrite Hd.
  replace (fexp prec emax (53 + e) - e) with 0
    by (unfold fexp, emin, prec, emax; lia).
  cbn [shr shr_m loc_of_shr_record round_nearest_even Zdigits2].
  rewrite Hd.
  replace (fexp prec emax (53 + e) - e) with 0
    by (unfold fexp, emin, prec, emax; lia).
  cbn [shr shr_m].
  replace (e <=? emax - prec) with true; [reflexivity|].
  symmetry. apply Z.leb_le. unfold emax, prec. lia.
Qed.

(** The conversion of a positive integer below [2^53]: the integer
    itself, shifted to 53 bits. *)
Lemma float_of_int_pos (x : positive) :
  Zpos x < 2 ^ 53 ->
  exists m : positive,
    float_of_int (Zpos x) = S754_finite false m (Zpos (digits2_pos x) - 53)
    /\ Zpos m = Zpos x * 2 ^ (53 - Zpos (digits2_pos x))
    /\ 2 ^ 52 <= Zpos m < 2 ^ 53
    /\ 1 <= Zpos (digits2_pos x) <= 53.
Proof.
  intros Hx. pose proof (digits2_pos_bounds x) as [Blo Bhi].
  set (D := Zpos (digits2_pos x)) in *.
  assert (HD : 1 <= D <= 53).
  { split; [subst D; lia|].
    destruct (Z.leb_spec D 53); [assumption|].
    assert (2 ^ 53 <= 2 ^ (D - 1)) by (apply Z.pow_le_mono_r; lia). lia. }
  unfold float_of_int, binary_normalize, binary_round.
  fold D. replace (fexp prec emax (D + 0)) with (D - 53)
    by (unfold fexp, emin, prec, emax; lia).
  unfold shl_align. replace (D - 53 - 0) with (D - 53) by lia.
  destruct (D - 53) as [|q|q] eqn:Eq; [| lia |].
  - exists x. replace (53 - D) with 0 by lia. rewrite Z.mul_1_r.
    assert (D = 53) by lia.
    split; [apply binary_round_aux_exact; [assumption | lia]|].
    split; [reflexivity|]. split; [|lia].
    replace (D - 1) with 52 in Blo by lia. lia.
  - exists (Pos.iter xO x q).
    assert (Hv : Zpos (Pos.iter xO x q) = Zpos x * 2 ^ (53 - D)).
    { rewrite iter_xO_value. f_equal. f_equal. lia. }
    assert (Hm : 2 ^ 52 <= Zpos (Pos.iter xO x q) < 2 ^ 53).
    { rewrite Hv. split.
      - replace 52 with ((D - 1) + (53 - D)) by lia.
        rewrite Z.pow_add_r by lia. apply Z.mul_le_mono_nonneg_r; [|assumption].
        apply Z.pow_nonneg. lia.
      - replace 53 with (D + (53 - D)) at 2 by lia.
        rewrite Z.pow_add_r by lia. apply Z.mul_lt_mono_pos_r; [|assumption].
        apply Z.pow_pos_nonneg; lia. }
    split; [|split; [exact Hv | split; [exact Hm | exact HD]]].
    apply binary_round_aux_exact; [|lia].
    apply digits2_pos_unique. exact Hm.
Qed.

Lemma shr_record_of_loc_m (q : Z) (l : location) :
  shr_m (shr_record_of_loc q l) = q.
Proof. destruct l as [|[| |]]; reflexivity. Qed.

Lemma loc_of_shr_record_of_loc (q : Z) (l : location) :
  loc_of_shr_record (shr_record_of_loc q l) = l.
Proof. destruct l as [|[| |]]; reflexivity. Qed.

Lemma round_nearest_even_bounds (q : Z) (l : location) :
  q <= round_nearest_even q l <= q + 1.
Proof. destruct l as [|[| |]]; cbn; try lia. destruct (Z.even q); lia. Qed.

Lemma shr_fexp_normal (m : Z) (e : Z) (l : location) :
  2 ^ 52 <= m < 2 ^ 53 -> -1074 <= e ->
  shr_fexp prec emax m e l = (shr_record_of_loc m l, e).
Proof.
  intros Hm He. unfold shr_fexp.
  destruct m as [|p|p]; try lia.
  cbn [Zdigits2]. rewrite (digits2_pos_unique p 53) by exact Hm.
  replace (fexp prec emax (53 + e) - e) with 0
    by (unfold fexp, emin, prec, emax; lia).
  reflexivity.
Qed.

(** Rounding a 53-bit quotient. *)
Lemma div_round_small (q e : Z) (l : location) :
  2 ^ 52 <= q < 2 ^ 53 - 1 -> -1074 <= e <= 971 ->
  exists m : positive,
    binary_round_aux prec emax false q e l = S754_finite false m e
    /\ q <= Zpos m <= q + 1
    /\ (l = loc_Inexact Gt -> Zpos m = q + 1).
Proof.
  intros Hq He. unfold binary_round_aux.
  rewrite shr_fexp_normal by lia.
  rewrite shr_record_of_loc_m, loc_of_shr_record_of_loc.
  pose proof (round_nearest_even_bounds q l) as Hr.
  rewrite shr_fexp_normal by lia.
  rewrite shr_record_of_loc_m.
  destruct (round_nearest_even q l) as [|m|m] eqn:Em; try lia.
  exists m. replace (e <=? emax - prec) with true
    by (symmetry; apply Z.leb_le; unfold emax, prec; lia).
  split; [reflexivity|]. split; [lia|].
  intros ->. cbn in Em. lia.
Qed.

(** Rounding a 54-bit quotient: one bit is shifted out first. *)
Lemma div_round_large (q e : Z) (l : location) :
  2 ^ 53 <= q < 2 ^ 54 ->
  (q / 2 = 2 ^ 53 - 1 -> Z.even q = true /\ l = loc_Exact) ->
  -1075 <= e <= 970 ->
  exists m : positive,
    binary_round_aux prec emax false q e l = S754_finite false m (e + 1)
    /\ q / 2 <= Zpos m <= q / 2 + 1
    /\ (Z.odd q = true -> l <> loc_Exact -> Zpos m = q / 2 + 1).
Proof.
  intros Hq Hover He. unfold binary_round_aux.
  destruct q as [|p|p]; try lia.
  unfold shr_fexp at 1. cbn [Zdigits2].
  rewrite (digits2_pos_unique p 54) by exact Hq.
  replace (fexp prec emax (54 + e) - e) with 1
    by (unfold fexp, emin, prec, emax; lia).
  cbn [shr iter_pos].
  set (h := Zpos p / 2) in *.
  assert (Hh : 2 ^ 52 <= h < 2 ^ 53) by (subst h; split;
    [apply Z.div_le_lower_bound; lia | apply Z.div_lt_upper_bound; lia]).
  assert (Hshr : shr_1 (shr_record_of_loc (Zpos p) l)
                 = Build_shr_record h (Z.odd (Zpos p))
                     (match l with loc_Exact => false | _ => true end)).
  { subst h. destruct p as [p|p|]; [| |cbn in Hq; lia].
    - replace (Zpos p~1 / 2) with (Zpos p)
        by (apply Z.div_unique with (r := 1); lia).
      destruct l as [|[| |]]; reflexivity.
    - replace (Zpos p~0 / 2) with (Zpos p)
        by (apply Z.div_unique with (r := 0); lia).
      destruct l as [|[| |]]; reflexivity. }
  rewrite Hshr. cbn [shr_m].
  set (l' := loc_of_shr_record _).
  pose proof (round_nearest_even_bounds h l') as Hr.
  assert (Hno : round_nearest_even h l' < 2 ^ 53).
  { destruct (Z.eqb_spec h (2 ^ 53 - 1)) as [Eh|Eh]; [|lia].
    destruct (Hover Eh) as [Hev ->]. subst l'.
    rewrite <- Z.negb_even, Hev.
    cbn [negb loc_of_shr_record round_nearest_even]. lia. }
  rewrite shr_fexp_normal by lia. cbn [shr_record_of_loc shr_m].
  destruct (round_nearest_even h l') as [|m|m] eqn:Em; try lia.
  exists m. replace (e + 1 <=? emax - prec) with true
    by (symmetry; apply Z.leb_le; unfold emax, prec; lia).
  split; [reflexivity|]. split; [lia|].
  intros Hodd Hl. subst l'. rewrite Hodd in Em.
  destruct l as [|[| |]]; [exfalso; apply Hl; reflexivity| | |];
    cbn [loc_of_shr_record round_nearest_even] in Em; lia.
Qed.

Lemma new_location_inexact (b r : Z) :
  r <> 0 -> new_location b r <> loc_Exact.
Proof.
  intros Hr. unfold new_location.
  destruct (Z.even b); unfold new_location_even, new_location_odd;
    destruct (Z.eqb_spec r 0); try contradiction; discriminate.
Qed.

Lemma new_location_above_half (b r : Z) :
  r <> 0 -> b < 2 * r -> new_location b r = loc_Inexact Gt.
Proof.
  intros Hr Hb. unfold new_location.
  destruct (Z.even b); unfold new_location_even, new_location_odd;
    (destruct (Z.eqb_spec r 0); [contradiction|]).
  - replace (2 * r ?= b) with Gt; [reflexivity|].
    symmetry. apply Z.compare_gt_iff. lia.
  - replace (2 * r + 1 ?= b) with Gt; [reflexivity|].
    symmetry. apply Z.compare_gt_iff. lia.
Qed.

Lemma new_location_zero (b : Z) : new_location b 0 = loc_Exact.
Proof. unfold new_location. now destruct (Z.even b). Qed.

Lemma SFdiv_core_53 (a b : positive) (e1 e2 : Z) :
  2 ^ 52 <= Zpos a < 2 ^ 53 -> 2 ^ 52 <= Zpos b < 2 ^ 53 ->
  -52 <= e1 - e2 <= 0 ->
  SFdiv_core_binary prec emax (Zpos a) e1 (Zpos b) e2
  = ((Zpos a * 2 ^ 53) / Zpos b, e1 - e2 - 53,
     new_location (Zpos b) ((Zpos a * 2 ^ 53) mod Zpos b)).
Proof.
  intros Ha Hb He. unfold SFdiv_core_binary. cbn [Zdigits2].
  rewrite (digits2_pos_unique a 53), (digits2_pos_unique b 53) by assumption.
  replace (Z.min (fexp prec emax (53 + e1 - (53 + e2))) (e1 - e2))
    with (e1 - e2 - 53) by (unfold fexp, emin, prec, emax; lia).
  replace (e1 - e2 - (e1 - e2 - 53)) with 53 by lia.
  cbv iota beta. rewrite Z.shiftl_mul_pow2 by lia.
  unfold Z.div, Z.modulo.
  now destruct (Z.div_eucl (Zpos a * 2 ^ 53) (Zpos b)).
Qed.

Lemma SFltb_tenth (m : positive) (e : Z) :
  SFltb (S754_finite false m e) tab_ratio_default
  = match e ?= -56 with
    | Lt => true
    | Gt => false
    | Eq => Zpos m <? 7205759403792794
    end.
Proof.
  unfold SFltb, SFcompare, tab_ratio_default, Z.ltb.
  cbn [Z.compare]. unfold Pos.compare.
  destruct (e ?= -56); reflexivity.
Qed.

Lemma digits_mono (x y : positive) :
  Zpos x <= Zpos y -> Zpos (digits2_pos x) <= Zpos (digits2_pos y).
Proof.
  intros H. pose proof (digits2_pos_bounds x) as [Xlo _].
  pose proof (digits2_pos_bounds y) as [_ Yhi].
  destruct (Z.leb_spec (Zpos (digits2_pos x)) (Zpos (digits2_pos y))); [assumption|].
  assert (2 ^ Zpos (digits2_pos y) <= 2 ^ (Zpos (digits2_pos x) - 1))
    by (apply Z.pow_le_mono_r; lia).
  lia.
Qed.

(** The quotient of two aligned 53-bit mantissas [a < b]. *)
Lemma quotient_small (a b : Z) :
  2 ^ 52 <= a < 2 ^ 53 -> 2 ^ 52 <= b < 2 ^ 53 -> a < b ->
  2 ^ 52 <= a * 2 ^ 53 / b < 2 ^ 53 - 1.
Proof.
  intros Ha Hb Hab. split.
  - apply Z.div_le_lower_bound; lia.
  - apply Z.div_lt_upper_bound; lia.
Qed.

Lemma quotient_large (a b : Z) :
  2 ^ 52 <= a < 2 ^ 53 -> 2 ^ 52 <= b < 2 ^ 53 -> b <= a ->
  2 ^ 53 <= a * 2 ^ 53 / b < 2 ^ 54.
Proof.
  intros Ha Hb Hab. split.
  - apply Z.div_le_lower_bound; lia.
  - apply Z.div_lt_upper_bound; lia.
Qed.

(** Division of two aligned mantissas compared with [0.1].  [N] is
    the scale of the divisor: the divisor is [n * N] for an integer
    [n < 2^53], and the dividend a multiple of [N * 2^j]. *)
Lemma div_lt_tenth (a b : positive) (e1 e2 N : Z) :
  2 ^ 52 <= Zpos a < 2 ^ 53 -> 2 ^ 52 <= Zpos b < 2 ^ 53 ->
  0 <= e2 - e1 <= 52 ->
  1 <= N -> Zpos b < 2 ^ 53 * N ->
  (10 * Zpos a < Zpos b * 2 ^ (e2 - e1) ->
   10 * Zpos a + N * 2 ^ (e2 - e1) <= Zpos b * 2 ^ (e2 - e1)) ->
  SFltb (SFdiv prec emax (S754_finite false a e1) (S754_finite false b e2))
        tab_ratio_default = true
  <-> 10 * Zpos a < Zpos b * 2 ^ (e2 - e1).
Proof.
  intros Ha Hb Hj HN HbN Hstrong.
  unfold SFdiv. rewrite SFdiv_core_53 by (try assumption; lia).
  cbn [xorb].
  set (j := e2 - e1) in *. set (T := 2 ^ j) in *.
  assert (HT : 1 <= T) by (subst T; apply (Z.pow_le_mono_r 2 0 j); lia).
  pose proof (Z.div_mod (Zpos a * 2 ^ 53) (Zpos b) ltac:(lia)) as Hdm.
  pose proof (Z.mod_pos_bound (Zpos a * 2 ^ 53) (Zpos b) ltac:(lia)) as Hr.
  set (q := Zpos a * 2 ^ 53 / Zpos b) in *.
  set (r := (Zpos a * 2 ^ 53) mod Zpos b) in *.
  destruct (Z.lt_ge_cases (Zpos a) (Zpos b)) as [Hab|Hab].
  - (* a 53-bit quotient *)
    pose proof (quotient_small (Zpos a) (Zpos b) Ha Hb Hab) as Hq. fold q in Hq.
    destruct (div_round_small q (e1 - e2 - 53) (new_location (Zpos b) r) Hq
                ltac:(lia)) as (m & -> & Hm & Hup).
    rewrite SFltb_tenth.
    destruct (Z.compare_spec (e1 - e2 - 53) (-56)) as [He|He|He].
    + assert (Ej : j = 3) by lia. assert (ET : T = 8) by (subst T; now rewrite Ej).
      rewrite ET in *. rewrite Z.ltb_lt. split.
      * intros Hlt.
        destruct (Z.lt_ge_cases (10 * Zpos a) (Zpos b * 8)) as [|Hge]; [assumption|].
        exfalso.
        assert (Hqb : q * Zpos b <= 7205759403792793 * Zpos b).
        { apply Z.mul_le_mono_nonneg_r; lia. }
        assert (Hq1 : q = 7205759403792793) by nia.
        assert (Hhalf : Zpos b < 2 * r) by lia.
        assert (Hr0 : r <> 0) by lia.
        rewrite (Hup (new_location_above_half _ _ Hr0 Hhalf)) in Hlt. lia.
      * intros Hlt. specialize (Hstrong Hlt).
        destruct (Z.lt_ge_cases q 7205759403792793) as [|Hge]; [lia|].
        exfalso.
        assert (Hqb : 7205759403792793 * Zpos b <= q * Zpos b).
        { apply Z.mul_le_mono_nonneg_r; lia. }
        lia.
    + split; [intros _|reflexivity].
      assert (2 ^ 4 <= T) by (subst T; apply Z.pow_le_mono_r; lia).
      assert (Zpos b * 16 <= Zpos b * T) by (apply Z.mul_le_mono_nonneg_l; lia).
      lia.
    + split; [discriminate|]. intros Hlt. exfalso.
      assert (T <= 2 ^ 2) by (subst T; apply Z.pow_le_mono_r; lia).
      assert (Zpos b * T <= Zpos b * 4) by (apply Z.mul_le_mono_nonneg_l; lia).
      lia.
  - (* a 54-bit quotient *)
    pose proof (quotient_large (Zpos a) (Zpos b) Ha Hb Hab) as Hq. fold q in Hq.
    assert (Hover : q / 2 = 2 ^ 53 - 1 ->
                    Z.even q = true /\ new_location (Zpos b) r = loc_Exact).
    { intros Hh.
      assert (Hq2 : 2 ^ 54 - 2 <= q).
      { pose proof (Z.div_mod q 2 ltac:(lia)).
        pose proof (Z.mod_pos_bound q 2 ltac:(lia)). lia. }
      assert (Hqb : (2 ^ 54 - 2) * Zpos b <= q * Zpos b).
      { apply Z.mul_le_mono_nonneg_r; lia. }
      assert (Er : r = 0) by lia.
      assert (Eq2 : q = 2 ^ 54 - 2).
      { destruct (Z.eq_dec q (2 ^ 54 - 2)); [assumption|]. exfalso.
        assert ((2 ^ 54 - 1) * Zpos b <= q * Zpos b)
          by (apply Z.mul_le_mono_nonneg_r; lia).
        lia. }
      rewrite Er, Eq2. split; [reflexivity | apply new_location_zero]. }
    destruct (div_round_large q (e1 - e2 - 53) (new_location (Zpos b) r) Hq Hover
                ltac:(lia)) as (m & -> & Hm & Hup).
    rewrite SFltb_tenth.
    pose proof (Z.div_mod q 2 ltac:(lia)) as Hq2.
    pose proof (Z.mod_pos_bound q 2 ltac:(lia)) as Hq2r.
    destruct (Z.compare_spec (e1 - e2 - 53 + 1) (-56)) as [He|He|He].
    + assert (Ej : j = 4) by lia. assert (ET : T = 16) by (subst T; now rewrite Ej).
      rewrite ET in *. rewrite Z.ltb_lt. split.
      * intros Hlt.
        destruct (Z.lt_ge_cases (10 * Zpos a) (Zpos b * 16)) as [|Hge]; [assumption|].
        exfalso.
        assert (Hqb : q * Zpos b <= 14411518807585587 * Zpos b).
        { apply Z.mul_le_mono_nonneg_r; lia. }
        assert (Hq1 : q = 14411518807585587) by nia.
        assert (Hr0 : r <> 0) by lia.
        assert (Hodd : Z.odd q = true) by (rewrite Hq1; reflexivity).
        rewrite (Hup Hodd (new_location_inexact _ _ Hr0)) in Hlt. lia.
      * intros Hlt. specialize (Hstrong Hlt).
        destruct (Z.lt_ge_cases q 14411518807585586) as [|Hge]; [lia|].
        exfalso.
        assert (Hqb : 14411518807585586 * Zpos b <= q * Zpos b).
        { apply Z.mul_le_mono_nonneg_r; lia. }
        lia.
    + split; [intros _|reflexivity].
      assert (2 ^ 5 <= T) by (subst T; apply Z.pow_le_mono_r; lia).
      assert (Zpos b * 32 <= Zpos b * T) by (apply Z.mul_le_mono_nonneg_l; lia).
      lia.
    + split; [discriminate|]. intros Hlt. exfalso.
      assert (T <= 2 ^ 3) by (subst T; apply Z.pow_le_mono_r; lia).
      assert (Zpos b * T <= Zpos b * 8) by (apply Z.mul_le_mono_nonneg_l; lia).
      lia.
Qed.

(** For lengths below [2^53] the test [d / n < 0.1] in binary64 is the
    exact test [10 * d < n]. *)
Lemma ratio_lt_tenth (d n : Z) :
  0 <= d <= n -> 0 < n < 2 ^ 53 ->
  SFltb (SFdiv prec emax (float_of_int d) (float_of_int n)) tab_ratio_default = true
  <-> 10 * d < n.
Proof.
  intros Hd Hn. destruct n as [|np|np]; try lia.
  destruct (float_of_int_pos np (proj2 Hn)) as (b & -> & Vb & Rb & Db).
  destruct d as [|dp|dp]; try lia.
  - split; [lia | reflexivity].
  - assert (Hdp : Zpos dp < 2 ^ 53) by lia.
    destruct (float_of_int_pos dp Hdp) as (a & -> & Va & Ra & Da).
    pose proof (digits_mono dp np (proj2 Hd)) as Hmono.
    set (Dd := Zpos (digits2_pos dp)) in *. set (Dn := Zpos (digits2_pos np)) in *.
    set (N := 2 ^ (53 - Dn)). set (T := 2 ^ (Dn - Dd)).
    assert (HN : 1 <= N) by (subst N; apply (Z.pow_le_mono_r 2 0); lia).
    assert (HT : 1 <= T) by (subst T; apply (Z.pow_le_mono_r 2 0); lia).
    assert (ENT : 2 ^ (53 - Dd) = N * T).
    { subst N T. rewrite <- Z.pow_add_r by lia. f_equal. lia. }
    rewrite ENT in Va. fold N in Vb.
    assert (HNT : 0 < N * T) by (apply Z.mul_pos_pos; lia).
    assert (Eleft : 10 * Zpos a = (10 * Zpos dp) * (N * T)) by (rewrite Va; ring).
    assert (Eright : Zpos b * T = Zpos np * (N * T)) by (rewrite Vb; ring).
    etransitivity.
    + apply (div_lt_tenth a b (Dd - 53) (Dn - 53) N); try assumption.
      * lia.
      * rewrite Vb. apply Z.mul_lt_mono_pos_r; lia.
      * replace (Dn - 53 - (Dd - 53)) with (Dn - Dd) by lia. fold T.
        rewrite Eleft, Eright. intros Hlt.
        apply Z.mul_lt_mono_pos_r in Hlt; [|assumption].
        replace (10 * Zpos dp * (N * T) + N * T)
          with ((10 * Zpos dp + 1) * (N * T)) by ring.
        apply Z.mul_le_mono_nonneg_r; lia.
    + replace (Dn - 53 - (Dd - 53)) with (Dn - Dd) by lia. fold T.
      rewrite Eleft, Eright. symmetry. apply Z.mul_lt_mono_pos_r. assumption.
Qed.

End Binary64.

(** ** Counting letters and digits (lines 39 and 40) *)

Lemma word_nbsp :
  word (lit "nbsp")
  = Cat (Cls (is_char 110%N))
      (Cat (Cls (is_char 98%N)) (Cat (Cls (is_char 115%N)) (Cls (is_char 112%N)))).
Proof. reflexivity. Qed.

Lemma compile_nbsp (b s : str) (must_advance : bool) :
  compile (word (lit "nbsp")) b s must_advance
  = if is_nbsp_at s then Some (4, []) else None.
Proof.
  rewrite word_nbsp. unfold compile, final, is_nbsp_at.
  destruct s as [|c1 [|c2 [|c3 [|c4 s]]]]; cbn [rmatch].
  - reflexivity.
  - now destruct (is_char 110%N c1).
  - now destruct (is_char 110%N c1), (is_char 98%N c2).
  - now destruct (is_char 110%N c1), (is_char 98%N c2), (is_char 115%N c3).
  - destruct (is_char 110%N c1), (is_char 98%N c2), (is_char 115%N c3),
      (is_char 112%N c4); try reflexivity.
    cbn. now rewrite andb_false_r.
Qed.

Lemma compile_alt_class (f : char -> bool) (r : regex) (b s : str)
    (must_advance : bool) :
  compile (Alt (Cls f) r) b s must_advance
  = match s with
    | c :: _ => if f c then Some (1, []) else compile r b s must_advance
    | [] => compile r b s must_advance
    end.
Proof.
  unfold compile, final. cbn [rmatch]. destruct s as [|c s]; [reflexivity|].
  destruct (f c); [|reflexivity].
  cbn. now rewrite andb_false_r.
Qed.

Lemma compile_RE_NOT_LETTER (b s : str) (must_advance : bool) :
  compile RE_NOT_LETTER b s must_advance
  = match s with
    | c :: _ =>
        if is_ascii_letter c
        then (if is_nbsp_at s then Some (4, []) else None)
        else Some (1, [])
    | [] => None
    end.
Proof.
  unfold RE_NOT_LETTER. rewrite compile_alt_class, compile_nbsp.
  destruct s as [|c s]; [reflexivity|]. now destruct (is_ascii_letter c).
Qed.

Lemma is_nbsp_at_head (c : char) (s : str) :
  is_char 110%N c = false -> is_nbsp_at (c :: s) = false.
Proof. intros H. destruct s as [|c2 [|c3 [|c4 s]]]; cbn; now rewrite ?H. Qed.

Lemma is_nbsp_at_inv (s : str) :
  is_nbsp_at s = true -> exists s4, s = 110%N :: 98%N :: 115%N :: 112%N :: s4.
Proof.
  destruct s as [|c1 [|c2 [|c3 [|c4 s]]]]; try discriminate.
  cbn [is_nbsp_at]. intros H.
  apply andb_true_iff in H. destruct H as [H H4].
  apply andb_true_iff in H. destruct H as [H H3].
  apply andb_true_iff in H. destruct H as [H1 H2].
  apply N.eqb_eq in H1, H2, H3, H4. subst. now exists s.
Qed.

Lemma digit_not_n (c : char) : is_ascii_digit c = true -> is_char 110%N c = false.
Proof.
  unfold is_ascii_digit, in_range, is_char. intros H.
  apply andb_true_iff in H. destruct H as [_ H]. apply N.leb_le in H.
  apply N.eqb_neq. lia.
Qed.

Lemma not_letter_not_n (c : char) :
  is_ascii_letter c = false -> is_char 110%N c = false.
Proof.
  unfold is_char. intros H. apply N.eqb_neq. intros ->. discriminate H.
Qed.

Lemma compile_RE_NOT_DIGIT (b s : str) (must_advance : bool) :
  compile RE_NOT_DIGIT b s must_advance
  = match s with
    | c :: _ => if is_ascii_digit c then None else Some (1, [])
    | [] => None
    end.
Proof.
  unfold RE_NOT_DIGIT. rewrite compile_alt_class, compile_nbsp.
  destruct s as [|c s]; [reflexivity|].
  destruct (is_ascii_digit c) eqn:E; [|reflexivity]. cbn [negb].
  now rewrite (is_nbsp_at_head c s (digit_not_n c E)).
Qed.

Lemma count_cons (f : char -> bool) (c : char) (s : str) :
  count f (c :: s) = (if f c then 1 else 0) + count f s.
Proof. unfold count. cbn [filter]. now destruct (f c). Qed.

Lemma scan_not_digit : forall (s b : str),
  length (pieces_text (const []) (scan (compile RE_NOT_DIGIT) b s 0))
  = count is_ascii_digit s.
Proof.
  induction s as [|c s IH]; intros b; cbn [scan]; rewrite compile_RE_NOT_DIGIT.
  - reflexivity.
  - rewrite count_cons. destruct (is_ascii_digit c).
    + rewrite pieces_text_keep. cbn [length]. now rewrite IH.
    + rewrite pieces_text_hit. unfold const at 1. cbn [app]. now rewrite IH.
Qed.

Lemma digit_count_eq (s : str) : digit_count s = count is_ascii_digit s.
Proof. apply scan_not_digit. Qed.

Lemma scan_not_letter : forall (n : nat) (s b : str),
  length s <= n ->
  length (pieces_text (const []) (scan (compile RE_NOT_LETTER) b s 0))
  + 4 * nbsp_occurrences s
  = count is_ascii_letter s.
Proof.
  induction n as [|n IH]; intros s b Hlen.
  - destruct s; [|simpl in Hlen; lia]. cbn [scan].
    now rewrite compile_RE_NOT_LETTER.
  - destruct s as [|c s]; [cbn [scan]; now rewrite compile_RE_NOT_LETTER|].
    cbn [scan]. rewrite compile_RE_NOT_LETTER.
    destruct (is_ascii_letter c) eqn:Ec.
    + destruct (is_nbsp_at (c :: s)) eqn:En.
      * destruct (is_nbsp_at_inv _ En) as [s4 E]. injection E as -> ->.
        cbn [scan]. rewrite pieces_text_hit. unfold const at 1. cbn [app].
        rewrite !count_cons. cbn [nbsp_occurrences]. rewrite En.
        rewrite !is_nbsp_at_head by reflexivity.
        change (is_ascii_letter 110%N) with true.
        change (is_ascii_letter 98%N) with true.
        change (is_ascii_letter 115%N) with true.
        change (is_ascii_letter 112%N) with true.
        simpl in Hlen.
        match goal with
        | |- context [scan _ ?b' s4 0] => specialize (IH s4 b' ltac:(lia))
        end.
        cbv iota. lia.
      * rewrite pieces_text_keep, count_cons, Ec. cbn [nbsp_occurrences length].
        rewrite En. simpl in Hlen. specialize (IH s (c :: b) ltac:(lia)). lia.
    + rewrite pieces_text_hit. unfold const at 1. cbn [app].
      rewrite count_cons, Ec. cbn [nbsp_occurrences].
      rewrite (is_nbsp_at_head c s (not_letter_not_n c Ec)).
      simpl in Hlen. specialize (IH s (c :: b) ltac:(lia)). lia.
Qed.

Lemma letter_count_eq (s : str) :
  letter_count s = count is_ascii_letter s - 4 * nbsp_occurrences s.
Proof.
  pose proof (scan_not_letter (length s) s [] (Nat.le_refl _)) as H.
  unfold letter_count. rewrite re_sub_pieces. lia.
Qed.

(** ** The table heuristic *)

Lemma tab_replace_cases (P : parsing_patterns) (match0 : str) :
  let c := letter_count (tab_content P match0) in
  let d := digit_count (tab_content P match0) in
  (Z.of_nat (c + d) < 2 ^ 53)%Z ->
  tab_replace P match0 tab_ratio_default
  = if 10 * d <? c + d then TABLE_OPEN ++ match0 ++ TABLE_CLOSE else [].
Proof.
  intros c d Hsize. unfold tab_replace, tab_replace_try. fold c d.
  unfold truediv.
  destruct (Z.eqb_spec (Z.of_nat c + Z.of_nat d) 0) as [E|E].
  - replace (10 * d <? c + d) with false; [reflexivity|].
    symmetry. apply Nat.ltb_ge. lia.
  - pose proof (ratio_lt_tenth (Z.of_nat d) (Z.of_nat c + Z.of_nat d)
                  ltac:(lia) ltac:(lia)) as H.
    destruct (SFltb _ _); destruct (Nat.ltb_spec (10 * d) (c + d)) as [L|L];
      try reflexivity; exfalso.
    + assert (10 * Z.of_nat d < Z.of_nat c + Z.of_nat d)%Z by (now apply H). lia.
    + assert (false = true) by (apply H; lia). discriminate.
Qed.

(** Claim C2, as stated, fails.  The letter count is not the number
    of letters: in [nbspnbspab1] it is 2, the eight letters of the two
    [nbsp] being left out.  Between the table tags of [nbsp_table]
    there are forty letters and two digits, a digit share of 2/42,
    below 0.1, yet the span is dropped: no letter is counted and the
    ratio computed is 2/2. *)
Lemma table_with_nbsp_dropped :
  let content := tab_content spec_patterns nbsp_table in
  letter_count (lit "nbspnbspab1") = 2
  /\ count is_ascii_letter (lit "nbspnbspab1") = 10
  /\ count is_ascii_letter content = 40
  /\ count is_ascii_digit content = 2
  /\ letter_count content = 0
  /\ tab_replace spec_patterns nbsp_table tab_ratio_default = []
  /\ ~ (tab_replace spec_patterns nbsp_table tab_ratio_default
          = TABLE_OPEN ++ nbsp_table ++ TABLE_CLOSE
        <-> 10 * count is_ascii_digit content
            < count is_ascii_letter content + count is_ascii_digit content).
Proof.
  assert (E : tab_replace spec_patterns nbsp_table tab_ratio_default = [])
    by (vm_compute; reflexivity).
  cbv zeta. do 5 (split; [vm_compute; reflexivity|]).
  split; [exact E|].
  rewrite E. intros [_ H].
  assert (L : 10 * count is_ascii_digit (tab_content spec_patterns nbsp_table)
              < count is_ascii_letter (tab_content spec_patterns nbsp_table)
                + count is_ascii_digit (tab_content spec_patterns nbsp_table))
    by (vm_compute; lia).
  specialize (H L). discriminate H.
Qed.

(** Claim C2, amended: a table span shorter than [2^53] characters is
    kept between the table markers exactly when
    digit-count / (letter-count + digit-count) < 0.1, that is when
    10 * digit-count < letter-count + digit-count, and is replaced by
    the empty string otherwise.  After the inner tags are turned into
    newlines, the letter count is the number of letters [A-Z], [a-z]
    that are not part of an occurrence of [nbsp], and the digit count
    the number of digits [0-9].  With 1 digit and 9 counted letters the
    span is dropped. *)
Theorem table_kept_iff (P : parsing_patterns) (match0 : str) :
  let content := tab_content P match0 in
  let c := count is_ascii_letter content - 4 * nbsp_occurrences content in
  let d := count is_ascii_digit content in
  (Z.of_nat (c + d) < 2 ^ 53)%Z ->
  letter_count content = c
  /\ digit_count content = d
  /\ (tab_replace P match0 tab_ratio_default = TABLE_OPEN ++ match0 ++ TABLE_CLOSE
      <-> 10 * d < c + d)
  /\ (~ 10 * d < c + d -> tab_replace P match0 tab_ratio_default = [])
  /\ (c = 9 -> d = 1 -> tab_replace P match0 tab_ratio_default = []).
Proof.
  intros content c d Hsize.
  assert (Ec : letter_count content = c) by apply letter_count_eq.
  assert (Ed : digit_count content = d) by apply digit_count_eq.
  split; [exact Ec|]. split; [exact Ed|].
  assert (H : tab_replace P match0 tab_ratio_default
              = if 10 * d <? c + d then TABLE_OPEN ++ match0 ++ TABLE_CLOSE else []).
  { rewrite <- Ec, <- Ed. apply tab_replace_cases.
    fold content. rewrite Ec, Ed. exact Hsize. }
  rewrite H. destruct (Nat.ltb_spec (10 * d) (c + d)) as [L|L].
  - split; [tauto|]. split; [intros HL; now destruct HL|]. intros -> ->. lia.
  - split; [|tauto]. split; [discriminate | lia].
Qed.

Lemma table_kept_iff_witness :
  tab_replace spec_patterns boundary_table tab_ratio_default = []
  /\ tab_replace spec_patterns prose_table tab_ratio_default
     = TABLE_OPEN ++ prose_table ++ TABLE_CLOSE.
Proof.
  split.
  - apply (table_kept_iff spec_patterns boundary_table);
      vm_compute; reflexivity.
  - apply (table_kept_iff spec_patterns prose_table);
      [vm_compute; reflexivity | vm_compute; lia].
Defined.

(** ** The blank-line rule (line 60) *)

Lemma compile_final (r : regex) (b s : str) (must_advance : bool) :
  compile r b s must_advance = rmatch r b 0 s [] (final must_advance).
Proof. reflexivity. Qed.

Lemma rep_loop_greedy_step {R : Type} (body : matcher R) (mn : nat) (k : cont R)
    (fuel count : nat) (b : str) (n : nat) (s : str) (g : groups) :
  rep_loop body true mn None k (S fuel) count b n s g
  = if count <? mn
    then body b n s g (fun b' n' s' g' =>
           if (mn <=? count) && (n' =? n) then None
           else rep_loop body true mn None k fuel (S count) b' n' s' g')
    else orelse
           (body b n s g (fun b' n' s' g' =>
              if (mn <=? count) && (n' =? n) then None
              else rep_loop body true mn None k fuel (S count) b' n' s' g'))
           (k b n s g).
Proof. reflexivity. Qed.

Lemma rmatch_cls {R : Type} (f : char -> bool) (b : str) (n : nat) (s : str)
    (g : groups) (k : cont R) :
  rmatch (Cls f) b n s g k
  = match s with
    | c :: s' => if f c then k (c :: b) (S n) s' g else None
    | [] => None
    end.
Proof. reflexivity. Qed.

Lemma blank_body_eq {R : Type} (b : str) (n : nat) (s : str) (g : groups)
    (k : cont R) :
  rmatch blank_body b n s g k
  = match s with
    | c :: s' =>
        if is_char NL c
        then greedy_run is_space
               (fun b' n' s'' g' => k b' n' s'' ((1, firstn (n' - n) s) :: g'))
               0 (c :: b) (S n) s' g
        else None
    | [] => None
    end.
Proof.
  unfold blank_body, star. rewrite rmatch_grp, rmatch_cat, rmatch_cls.
  destruct s as [|c s']; [reflexivity|].
  destruct (is_char NL c); [|reflexivity].
  now rewrite rmatch_rep_cls.
Qed.

(** A greedy run whose continuation can fail: the matching end is the
    same wherever the continuation succeeds. *)
Lemma greedy_run_any (f : char -> bool) (k : cont (nat * groups))
    (ok : str -> bool) (g : groups) :
  forall (s b : str) (n : nat),
    (forall b' n' t, n <= n' ->
       option_map fst (k b' n' t g)
       = if ok t then Some (n' + span f t) else None) ->
    option_map fst (greedy_run f k 0 b n s g)
    = if exists_suffix f ok s then Some (n + span f s) else None.
Proof.
  induction s as [|c s IH]; intros b n Hk;
    cbn [greedy_run exists_suffix Nat.eqb pred].
  - now rewrite Hk.
  - destruct (f c) eqn:Ec; cbn [andb orb].
    + assert (Hk' : forall b' n' t, S n <= n' ->
               option_map fst (k b' n' t g)
               = if ok t then Some (n' + span f t) else None)
        by (intros b' n' t Hn; apply Hk; lia).
      specialize (IH (c :: b) (S n) Hk').
      assert (Es : span f (c :: s) = S (span f s)) by (cbn [span]; now rewrite Ec).
      destruct (greedy_run f k 0 (c :: b) (S n) s g) as [x|].
      * cbn [orelse]. rewrite IH.
        destruct (exists_suffix f ok s); [|discriminate].
        cbn [orb]. f_equal. cbn [span]. rewrite Ec. lia.
      * cbn [orelse]. destruct (exists_suffix f ok s); [discriminate|].
        cbn [orb]. now rewrite Hk.
    + now rewrite Hk.
Qed.

Lemma newline_is_space (c : char) : is_char NL c = true -> is_space c = true.
Proof. intros H. apply N.eqb_eq in H. now subst c. Qed.

Lemma span_skipn_head (f : char -> bool) (s : str) :
  match skipn (span f s) s with
  | c :: _ => f c = false
  | [] => True
  end.
Proof.
  induction s as [|c s IH]; [exact I|]. cbn [span]. destruct (f c) eqn:E.
  - exact IH.
  - exact E.
Qed.

Lemma span_blank_end (s : str) :
  starts_with_newline (skipn (span is_space s) s) = false.
Proof.
  pose proof (span_skipn_head is_space s) as H.
  destruct (skipn (span is_space s) s) as [|c t]; [reflexivity|].
  cbn [starts_with_newline]. destruct (is_char NL c) eqn:E; [|reflexivity].
  apply newline_is_space in E. congruence.
Qed.

Lemma final_some (must_advance : bool) (b : str) (n : nat) (s : str) (g : groups) :
  0 < n -> final must_advance b n s g = Some (n, g).
Proof.
  intros Hn. unfold final. destruct n; [lia|]. cbn [Nat.eqb].
  now rewrite andb_false_r.
Qed.

Lemma blank_run_cons (need : nat) (c : char) (s : str) :
  is_char NL c = true ->
  blank_run (S need) (c :: s) = (need <=? newlines_ahead s).
Proof.
  intros Hc. unfold blank_run. cbn [starts_with_newline newlines_ahead].
  now rewrite Hc, (newline_is_space c Hc).
Qed.

Lemma blank_run_other (need : nat) (c : char) (s : str) :
  is_char NL c = false -> blank_run need (c :: s) = false.
Proof. intros Hc. unfold blank_run. cbn [starts_with_newline]. now rewrite Hc. Qed.

Lemma blank_run_one (s : str) : blank_run 1 s = starts_with_newline s.
Proof.
  destruct s as [|c s]; [reflexivity|].
  destruct (is_char NL c) eqn:Hc.
  - rewrite blank_run_cons by assumption. cbn. now rewrite Hc.
  - rewrite blank_run_other by assumption. cbn. now rewrite Hc.
Qed.

Lemma exists_blank_run (need : nat) : forall s : str,
  exists_suffix is_space (blank_run (S need)) s = (S need <=? newlines_ahead s).
Proof.
  induction s as [|c s IH]; [reflexivity|].
  cbn [exists_suffix newlines_ahead]. rewrite IH.
  destruct (is_char NL c) eqn:Hc.
  - rewrite (newline_is_space c Hc), blank_run_cons by assumption.
    cbn [andb]. destruct (Nat.leb_spec (S need) (newlines_ahead s));
      destruct (Nat.leb_spec need (newlines_ahead s));
      destruct (Nat.leb_spec (S need) (1 + newlines_ahead s)); try reflexivity; lia.
  - rewrite blank_run_other by assumption. rewrite orb_false_r.
    destruct (is_space c); [now rewrite Nat.add_0_l | reflexivity].
Qed.

Section BlankLoop.

Variable must_advance : bool.

Let loop := rep_loop (rmatch blank_body) true 3 None (final must_advance).

Lemma loop_blank_stop (fuel count : nat) (b : str) (n : nat) (s : str) (g : groups) :
  3 <= count -> 0 < n -> starts_with_newline s = false ->
  loop (S fuel) count b n s g = Some (n, g).
Proof.
  intros Hc Hn Hs. unfold loop. rewrite rep_loop_greedy_step.
  replace (count <? 3) with false by (symmetry; apply Nat.ltb_ge; lia).
  rewrite blank_body_eq. destruct s as [|c s].
  - cbn [orelse]. now apply final_some.
  - cbn [starts_with_newline] in Hs. rewrite Hs. cbn [orelse].
    now apply final_some.
Qed.

Lemma loop_blank_some (fuel count : nat) (b : str) (n : nat) (s : str) (g : groups) :
  3 <= count -> 0 < n -> loop (S fuel) count b n s g <> None.
Proof.
  intros Hc Hn. unfold loop. rewrite rep_loop_greedy_step.
  replace (count <? 3) with false by (symmetry; apply Nat.ltb_ge; lia).
  rewrite (final_some must_advance b n s g Hn).
  now destruct (rmatch blank_body b n s g _).
Qed.

(** After a newline, with the third iteration reached or passed, the
    rest of the whitespace run is taken and the match ends there. *)
Lemma blank_tail (fuel count : nat) (c : char) (b : str) (n : nat) (s : str)
    (g : groups) (t : str) :
  2 <= count ->
  option_map fst
    (greedy_run is_space
       (fun b' n' s'' g' =>
          if (3 <=? count) && (n' =? n) then None
          else loop (S fuel) (S count) b' n' s'' ((1, firstn (n' - n) t) :: g'))
       0 (c :: b) (S n) s g)
  = Some (S n + span is_space s).
Proof.
  intros Hc. rewrite greedy_run_max.
  - replace (S n + span is_space s =? n) with false
      by (symmetry; apply Nat.eqb_neq; lia).
    rewrite andb_false_r.
    rewrite loop_blank_stop; [reflexivity | lia | lia | apply span_blank_end].
  - intros b' n' s' Hn.
    replace (n' =? n) with false by (symmetry; apply Nat.eqb_neq; lia).
    rewrite andb_false_r. apply loop_blank_some; lia.
Qed.

Lemma loop_blank_2 (fuel : nat) (b : str) (n : nat) (s : str) (g : groups) :
  option_map fst (loop (S (S fuel)) 2 b n s g)
  = if blank_run 1 s then Some (n + span is_space s) else None.
Proof.
  rewrite blank_run_one. unfold loop. rewrite rep_loop_greedy_step.
  change (2 <? 3) with true. cbv iota. rewrite blank_body_eq.
  destruct s as [|c s]; [reflexivity|].
  cbn [starts_with_newline]. destruct (is_char NL c) eqn:Ec; [|reflexivity].
  fold loop. rewrite (blank_tail fuel 2 c b n s g (c :: s) ltac:(lia)).
  cbn [span]. rewrite (newline_is_space c Ec). f_equal. lia.
Qed.

Lemma loop_blank_step (need fuel count : nat) :
  count < 2 ->
  (forall b' n' t g', 0 < n' ->
     option_map fst (loop fuel (S count) b' n' t g')
     = if blank_run (S need) t then Some (n' + span is_space t) else None) ->
  forall (b : str) (n : nat) (s : str) (g : groups),
    option_map fst (loop (S fuel) count b n s g)
    = if blank_run (S (S need)) s then Some (n + span is_space s) else None.
Proof.
  intros Hc Hnext b n s g. unfold loop. rewrite rep_loop_greedy_step.
  replace (count <? 3) with true by (symmetry; apply Nat.ltb_lt; lia).
  rewrite blank_body_eq. destruct s as [|c s]; [reflexivity|].
  destruct (is_char NL c) eqn:Ec;
    [|now rewrite blank_run_other by assumption].
  rewrite blank_run_cons by assumption. fold loop.
  rewrite (greedy_run_any is_space _ (blank_run (S need))).
  - rewrite exists_blank_run. cbn [span]. rewrite (newline_is_space c Ec).
    destruct (S need <=? newlines_ahead s); [f_equal; lia | reflexivity].
  - intros b' n' t Hn.
    replace (3 <=? count) with false by (symmetry; apply Nat.leb_gt; lia).
    cbn [andb]. apply Hnext. lia.
Qed.

Lemma loop_blank_0 (fuel : nat) (b : str) (n : nat) (s : str) (g : groups) :
  option_map fst (loop (S (S (S (S fuel)))) 0 b n s g)
  = if blank_run 3 s then Some (n + span is_space s) else None.
Proof.
  apply loop_blank_step; [lia|]. intros b1 n1 t1 g1 _.
  apply loop_blank_step; [lia|]. intros b2 n2 t2 g2 _.
  apply loop_blank_2.
Qed.

End BlankLoop.

(** Where line 60 matches and how far: at a newline whose run of
    whitespace holds three newlines or more, to the end of the run. *)
Lemma compile_RE_BLANK_LINES (b s : str) (must_advance : bool) :
  option_map fst (compile RE_BLANK_LINES b s must_advance) = blank_at s.
Proof.
  rewrite compile_final. unfold blank_at.
  change RE_BLANK_LINES with (Rep true 3 None blank_body). cbn [rmatch].
  destruct s as [|c s]; [reflexivity|].
  replace (3 + length (c :: s) + 1) with (S (S (S (S (S (length s))))))
    by (cbn [length]; lia).
  now rewrite loop_blank_0.
Qed.

Lemma blank_at_some (s : str) (n : nat) :
  blank_at s = Some n -> exists n', n = S n'.
Proof.
  unfold blank_at, blank_run. destruct s as [|c s]; [discriminate|].
  cbn [starts_with_newline]. destruct (is_char NL c) eqn:Ec; [|discriminate].
  destruct (3 <=? _); [|discriminate].
  intros [= <-]. cbn [span]. rewrite (newline_is_space c Ec). now eexists.
Qed.

Lemma scan_blank_eq : forall (s b : str) (skip : nat),
  pieces_text (const [NL; NL]) (scan (compile RE_BLANK_LINES) b s skip)
  = blank_out s skip.
Proof.
  induction s as [|c s IH]; intros b skip.
  - destruct skip; [|reflexivity]. cbn [scan blank_out].
    pose proof (compile_RE_BLANK_LINES b [] false) as H.
    now destruct (compile RE_BLANK_LINES b [] false).
  - destruct skip as [|k]; cbn [scan blank_out]; [|apply IH].
    pose proof (compile_RE_BLANK_LINES b (c :: s) false) as H.
    destruct (compile RE_BLANK_LINES b (c :: s) false) as [[n g]|];
      cbn [option_map fst] in H; rewrite <- H.
    + destruct (blank_at_some _ _ (eq_sym H)) as [n' ->].
      rewrite pieces_text_hit, IH. reflexivity.
    + rewrite pieces_text_keep, IH. reflexivity.
Qed.

Lemma blank_lines_eq (s : str) :
  re_sub (compile RE_BLANK_LINES) (const [NL; NL]) s = blank_out s 0.
Proof. rewrite re_sub_pieces. apply scan_blank_eq. Qed.

Lemma blank_out_skip : forall (s : str) (k : nat),
  blank_out s k = blank_out (skipn k s) 0.
Proof.
  induction s as [|c s IH]; intros [|k]; try reflexivity.
  cbn [blank_out skipn]. apply IH.
Qed.

Lemma calm_fixed : forall s : str, calm s = true -> blank_out s 0 = s.
Proof.
  induction s as [|c s IH]; [reflexivity|].
  cbn [calm blank_out]. intros H. apply andb_true_iff in H. destruct H as [H1 H2].
  unfold blank_at. apply negb_true_iff in H1. rewrite H1. now rewrite IH.
Qed.

Lemma newlines_ahead_no_space (s : str) :
  no_leading_space s = true -> newlines_ahead s = 0.
Proof.
  destruct s as [|c s]; [reflexivity|]. cbn [no_leading_space newlines_ahead].
  intros H. apply negb_true_iff in H. now rewrite H.
Qed.

Lemma blank_out_head (s : str) :
  no_leading_space s = true -> no_leading_space (blank_out s 0) = true.
Proof.
  destruct s as [|c s]; [reflexivity|]. cbn [no_leading_space blank_out].
  intros H. unfold blank_at, blank_run. cbn [starts_with_newline].
  destruct (is_char NL c) eqn:Ec.
  - apply newline_is_space in Ec. rewrite Ec in H. discriminate.
  - cbn [andb no_leading_space]. exact H.
Qed.

Lemma skipn_span_head (s : str) :
  no_leading_space (skipn (span is_space s) s) = true.
Proof.
  pose proof (span_skipn_head is_space s) as H.
  destruct (skipn (span is_space s) s) as [|c t]; [reflexivity|].
  cbn [no_leading_space]. now rewrite H.
Qed.

(** The result of line 60 is not matched by line 60 again, and holds
    no more newlines at the start than the text had. *)
Lemma blank_out_calm : forall (n : nat) (s : str),
  length s <= n ->
  calm (blank_out s 0) = true
  /\ newlines_ahead (blank_out s 0) <= newlines_ahead s.
Proof.
  induction n as [|n IH]; intros s Hlen.
  - destruct s; [now split | simpl in Hlen; lia].
  - destruct s as [|c s]; [now split|]. cbn [blank_out].
    destruct (blank_at (c :: s)) as [[|k]|] eqn:E.
    + apply blank_at_some in E. destruct E as [? E]. discriminate E.
    + (* a match: two newlines, then the text after the run *)
      unfold blank_at in E. destruct (blank_run 3 (c :: s)) eqn:Er; [|discriminate].
      injection E as E. unfold blank_run in Er.
      apply andb_true_iff in Er. destruct Er as [Ec En].
      cbn [starts_with_newline] in Ec. apply Nat.leb_le in En.
      cbn [span] in E. rewrite (newline_is_space c Ec) in E. injection E as E.
      rewrite blank_out_skip. rewrite <- E.
      set (rest := skipn (span is_space s) s).
      assert (Hrest : length rest <= n).
      { subst rest. rewrite length_skipn. simpl in Hlen. lia. }
      destruct (IH rest Hrest) as [IHc _].
      pose proof (blank_out_head rest (skipn_span_head s)) as Hh.
      pose proof (newlines_ahead_no_space _ Hh) as Hz.
      split.
      * cbn [calm]. unfold blank_run at 1 2. cbn [starts_with_newline newlines_ahead].
        change (is_char NL NL) with true. change (is_space NL) with true.
        cbv iota. rewrite Hz, IHc. reflexivity.
      * apply Nat.le_trans with 2; [|clear -En; lia].
        cbn [newlines_ahead]. change (is_char NL NL) with true.
        change (is_space NL) with true. cbv iota. rewrite Hz. lia.
    + (* no match: the character is kept *)
      destruct (IH s ltac:(simpl in Hlen; lia)) as [IHc IHn].
      unfold blank_at in E. destruct (blank_run 3 (c :: s)) eqn:Er; [discriminate|].
      split.
      * cbn [calm]. rewrite IHc, andb_true_r. apply negb_true_iff.
        destruct (is_char NL c) eqn:Ec; [|now apply blank_run_other].
        rewrite blank_run_cons in * by assumption.
        apply Nat.leb_gt in Er. apply Nat.leb_gt. lia.
      * cbn [newlines_ahead]. destruct (is_space c); [|lia].
        destruct (is_char NL c); lia.
Qed.

(** ** [strip] *)

Lemma lstrip_suffix (s : str) : exists pre, s = pre ++ lstrip s.
Proof.
  induction s as [|c s [pre IH]]; [now exists []|]. cbn [lstrip].
  destruct (is_space c).
  - exists (c :: pre). cbn [app]. now f_equal.
  - now exists [].
Qed.

Lemma lstrip_head (s : str) : no_leading_space (lstrip s) = true.
Proof.
  induction s as [|c s IH]; [reflexivity|]. cbn [lstrip].
  destruct (is_space c) eqn:E; [exact IH|]. cbn. now rewrite E.
Qed.

Lemma lstrip_fixed (s : str) : no_leading_space s = true -> lstrip s = s.
Proof.
  destruct s as [|c s]; [reflexivity|]. cbn [no_leading_space lstrip].
  intros H. apply negb_true_iff in H. now rewrite H.
Qed.

Lemma rstrip_prefix (s : str) : exists trail, s = rstrip s ++ trail.
Proof.
  unfold rstrip. destruct (lstrip_suffix (rev s)) as [pre E].
  exists (rev pre). rewrite <- rev_app_distr, <- E. now rewrite rev_involutive.
Qed.

Lemma rstrip_idem (s : str) : rstrip (rstrip s) = rstrip s.
Proof.
  unfold rstrip. rewrite rev_involutive.
  now rewrite (lstrip_fixed _ (lstrip_head (rev s))).
Qed.

Lemma rstrip_head (s : str) :
  no_leading_space s = true -> no_leading_space (rstrip s) = true.
Proof.
  intros H. destruct (rstrip_prefix s) as [trail E].
  destruct (rstrip s) as [|c t]; [reflexivity|].
  rewrite E in H. exact H.
Qed.

Lemma strip_fixed (s : str) : strip (strip s) = strip s.
Proof.
  unfold strip.
  rewrite (lstrip_fixed _ (rstrip_head _ (lstrip_head s))).
  apply rstrip_idem.
Qed.

(** ** Texts that line 60 leaves alone *)

Lemma calm_suffix (pre s : str) : calm (pre ++ s) = true -> calm s = true.
Proof.
  induction pre as [|c pre IH]; [trivial|]. cbn [app calm]. intros H.
  apply andb_true_iff in H. now apply IH.
Qed.

Lemma newlines_ahead_app (s x : str) :
  newlines_ahead s <= newlines_ahead (s ++ x).
Proof.
  induction s as [|c s IH]; [cbn; lia|]. cbn [app newlines_ahead].
  destruct (is_space c); lia.
Qed.

Lemma blank_run_app (need : nat) (s x : str) :
  blank_run need s = true -> blank_run need (s ++ x) = true.
Proof.
  unfold blank_run. intros H. apply andb_true_iff in H. destruct H as [H1 H2].
  destruct s as [|c s]; [discriminate|]. cbn [app starts_with_newline] in *.
  rewrite H1. cbn [andb]. apply Nat.leb_le in H2. apply Nat.leb_le.
  pose proof (newlines_ahead_app (c :: s) x) as H. cbn [app] in H. lia.
Qed.

Lemma calm_prefix (s x : str) : calm (s ++ x) = true -> calm s = true.
Proof.
  induction s as [|c s IH]; [reflexivity|]. cbn [app calm]. intros H.
  apply andb_true_iff in H. destruct H as [H1 H2].
  rewrite (IH H2), andb_true_r. apply negb_true_iff in H1. apply negb_true_iff.
  destruct (blank_run 3 (c :: s)) eqn:E; [|reflexivity].
  apply (blank_run_app 3 (c :: s) x) in E. cbn [app] in E. congruence.
Qed.

Lemma calm_strip (s : str) : calm s = true -> calm (strip s) = true.
Proof.
  intros H. unfold strip.
  destruct (lstrip_suffix s) as [pre E]. rewrite E in H. apply calm_suffix in H.
  destruct (rstrip_prefix (lstrip s)) as [trail E']. rewrite E' in H.
  now apply calm_prefix in H.
Qed.

(** ** Line 59 *)

Lemma compile_RE_NBSP (b s : str) (must_advance : bool) :
  compile RE_NBSP b s must_advance
  = match s with
    | c :: _ => if is_nbsp_char c then Some (1, []) else None
    | [] => None
    end.
Proof.
  unfold RE_NBSP, compile, final, is_nbsp_char. cbn [rmatch].
  destruct s as [|c s]; [reflexivity|].
  destruct (is_char 160%N c), (is_char 8203%N c); cbn;
    now rewrite ?andb_false_r.
Qed.

Lemma scan_nbsp : forall (s b : str),
  pieces_text (const [NL]) (scan (compile RE_NBSP) b s 0)
  = List.map (fun c => if is_nbsp_char c then NL else c) s.
Proof.
  induction s as [|c s IH]; intros b; cbn [scan List.map];
    rewrite compile_RE_NBSP; [reflexivity|].
  destruct (is_nbsp_char c).
  - rewrite pieces_text_hit, IH. reflexivity.
  - rewrite pieces_text_keep, IH. reflexivity.
Qed.

Lemma nbsp_plain (s : str) :
  plain (re_sub (compile RE_NBSP) (const [NL]) s) = true.
Proof.
  rewrite re_sub_pieces, scan_nbsp. unfold plain.
  induction s as [|c s IH]; [reflexivity|]. cbn [List.map forallb].
  rewrite IH, andb_true_r. now destruct (is_nbsp_char c) eqn:E; [|rewrite E].
Qed.

Lemma nbsp_fixed (s : str) :
  plain s = true -> re_sub (compile RE_NBSP) (const [NL]) s = s.
Proof.
  rewrite re_sub_pieces, scan_nbsp. unfold plain.
  induction s as [|c s IH]; [reflexivity|]. cbn [List.map forallb]. intros H.
  apply andb_true_iff in H. destruct H as [H1 H2].
  apply negb_true_iff in H1. now rewrite H1, IH.
Qed.

Lemma plain_app (s t : str) : plain (s ++ t) = plain s && plain t.
Proof. apply forallb_app. Qed.

Lemma plain_strip (s : str) : plain s = true -> plain (strip s) = true.
Proof.
  intros H. unfold strip.
  destruct (lstrip_suffix s) as [pre E]. rewrite E, plain_app in H.
  apply andb_true_iff in H. destruct H as [_ H].
  destruct (rstrip_prefix (lstrip s)) as [trail E']. rewrite E', plain_app in H.
  now apply andb_true_iff in H.
Qed.

Lemma plain_blank_out : forall (s : str) (k : nat),
  plain s = true -> plain (blank_out s k) = true.
Proof.
  induction s as [|c s IH]; intros k H; [reflexivity|].
  cbn [plain forallb] in H. apply andb_true_iff in H. destruct H as [H1 H2].
  cbn [blank_out]. destruct k as [|k]; [|now apply IH].
  destruct (blank_at (c :: s)) as [[|n]|].
  - cbn [plain forallb]. rewrite H1. now apply IH.
  - cbn [plain forallb]. change (negb (is_nbsp_char NL)) with true.
    cbn [andb]. now apply IH.
  - cbn [plain forallb]. rewrite H1. now apply IH.
Qed.

(** ** Lines 59 and 60 together are idempotent *)

Lemma clean_filing_text_steps (P : parsing_patterns) (decode : str -> str)
    (txt : str) :
  clean_filing_text P decode txt = blank_steps (unwrap_steps P decode txt).
Proof. reflexivity. Qed.

Lemma blank_steps_fixed (s : str) :
  plain s = true -> calm s = true -> strip s = s -> blank_steps s = s.
Proof.
  intros Hp Hc Hs. unfold blank_steps.
  rewrite (nbsp_fixed s Hp), Hs, blank_lines_eq, (calm_fixed s Hc). exact Hs.
Qed.

Lemma blank_steps_idem (s : str) : blank_steps (blank_steps s) = blank_steps s.
Proof.
  apply blank_steps_fixed; unfold blank_steps; rewrite blank_lines_eq.
  - apply plain_strip, plain_blank_out, plain_strip, nbsp_plain.
  - apply calm_strip. eapply blank_out_calm. apply Nat.le_refl.
  - apply strip_fixed.
Qed.

(** * Further properties *)

(** ** Rules and the comment fragment (lines 81 and 84) *)

Lemma greedy_run_need {R : Type} (f : char -> bool) (k : cont R) (g : groups) :
  forall (s b : str) (n need : nat),
    (forall b' n' s', n + need <= n' -> k b' n' s' g <> None) ->
    greedy_run f k need b n s g
    = if need <=? span f s
      then k (rev (firstn (span f s) s) ++ b) (n + span f s) (skipn (span f s) s) g
      else None.
Proof.
  induction s as [|c s IH]; intros b n need Hk; cbn [greedy_run span].
  - destruct need; cbn; [now rewrite Nat.add_0_r | reflexivity].
  - destruct (f c).
    + rewrite (IH (c :: b) (S n) (pred need)) by (intros; apply Hk; lia).
      cbn [firstn skipn rev]. rewrite <- app_assoc. cbn [app].
      replace (n + S (span f s)) with (S n + span f s) by lia.
      destruct need as [|need]; cbn [pred Nat.leb Nat.eqb].
      * apply orelse_some_l. apply Hk. lia.
      * destruct (need <=? span f s) eqn:E; [|reflexivity].
        apply orelse_some_l. apply Hk. apply Nat.leb_le in E. lia.
    + destruct need; cbn; [now rewrite Nat.add_0_r | reflexivity].
Qed.

Lemma rule_alternative (a : char) (b s : str) (must_advance : bool) :
  rmatch (at_least 2 (Cls (is_char a))) b 0 s []
    (fun b' n' s' g' => final must_advance b' n' s' ((1, firstn (n' - 0) s) :: g'))
  = if 2 <=? span (is_char a) s
    then Some (span (is_char a) s, [(1, firstn (span (is_char a) s) s)])
    else None.
Proof.
  unfold at_least. rewrite rmatch_rep_cls, greedy_run_need.
  - destruct (Nat.leb_spec 2 (span (is_char a) s)) as [H|H]; [|reflexivity].
    unfold final. cbn [Nat.add]. rewrite Nat.sub_0_r.
    destruct (span (is_char a) s) as [|n]; [lia|].
    cbn [Nat.eqb]. now rewrite andb_false_r.
  - intros b' n' s' Hn. unfold final. destruct n' as [|n']; [lia|].
    cbn [Nat.eqb]. rewrite andb_false_r. discriminate.
Qed.

Lemma rmatch_alt {R : Type} (r1 r2 : regex) (b : str) (n : nat) (s : str)
    (g : groups) (k : cont R) :
  rmatch (Alt r1 r2) b n s g k = orelse (rmatch r1 b n s g k) (rmatch r2 b n s g k).
Proof. reflexivity. Qed.

(** What the pattern of line 81 matches at a position. *)
Lemma compile_RE_RULES (b s : str) (must_advance : bool) :
  compile RE_RULES b s must_advance
  = match rule_at s with
    | Some n => Some (n, [(1, firstn n s)])
    | None => None
    end.
Proof.
  unfold compile, RE_RULES, rule_at. rewrite rmatch_grp, !rmatch_alt.
  rewrite !rule_alternative.
  destruct (2 <=? span (is_char 95%N) s); [reflexivity|].
  destruct (2 <=? span (is_char 45%N) s); [reflexivity|].
  destruct (2 <=? span (is_char 61%N) s); reflexivity.
Qed.

Lemma rule_at_some (s : str) (n : nat) : rule_at s = Some n -> exists n', n = S (S n').
Proof.
  unfold rule_at. intros H.
  destruct (Nat.leb_spec 2 (span (is_char 95%N) s)) as [H1|H1];
    [injection H as <-; exists (span (is_char 95%N) s - 2); lia|].
  destruct (Nat.leb_spec 2 (span (is_char 45%N) s)) as [H2|H2];
    [injection H as <-; exists (span (is_char 45%N) s - 2); lia|].
  destruct (Nat.leb_spec 2 (span (is_char 61%N) s)) as [H3|H3];
    [injection H as <-; exists (span (is_char 61%N) s - 2); lia|].
  discriminate.
Qed.

(** Two rule characters side by side are the start of a match. *)
Lemma rule_at_pair (a c : char) (s : str) :
  is_rule_char a = true -> is_char a c = true -> starts_with a s = true ->
  rule_at (c :: s) <> None.
Proof.
  intros Ha Hc Hs. destruct s as [|c' s]; [discriminate|]. cbn [starts_with] in Hs.
  apply is_char_eq in Hc. apply is_char_eq in Hs. subst c c'.
  unfold is_rule_char in Ha. unfold rule_at.
  destruct (is_char 95%N a) eqn:E1; [apply is_char_eq in E1; subst a; discriminate|].
  destruct (is_char 45%N a) eqn:E2; [apply is_char_eq in E2; subst a; discriminate|].
  destruct (is_char 61%N a) eqn:E3; [apply is_char_eq in E3; subst a; discriminate|].
  discriminate.
Qed.

Lemma doubled_cons (a c : char) (s : str) :
  doubled a (c :: s) = (is_char a c && starts_with a s) || doubled a s.
Proof. reflexivity. Qed.

(** Line 81 leaves no two rule characters side by side. *)
Lemma scan_rules_single (a : char) : is_rule_char a = true ->
  forall (s b : str),
    (forall skip,
        doubled a (pieces_text (const [SP]) (scan (compile RE_RULES) b s skip)) = false)
    /\ (starts_with a (pieces_text (const [SP]) (scan (compile RE_RULES) b s 0)) = true ->
        starts_with a s = true).
Proof.
  intros Ha.
  assert (Hsp : is_char a SP = false).
  { unfold is_rule_char in Ha. destruct (is_char a SP) eqn:E; [|reflexivity].
    apply is_char_eq in E. subst a. discriminate. }
  induction s as [|c s IH]; intros b.
  - split; [intros [|k]|]; cbn [scan]; rewrite ?compile_RE_RULES; cbn; trivial.
  - destruct (IH (c :: b)) as [IH1 IH2].
    assert (H0 : doubled a (pieces_text (const [SP])
                              (scan (compile RE_RULES) b (c :: s) 0)) = false
                 /\ (starts_with a (pieces_text (const [SP])
                        (scan (compile RE_RULES) b (c :: s) 0)) = true ->
                     starts_with a (c :: s) = true)).
    { cbn [scan]. rewrite compile_RE_RULES.
      destruct (rule_at (c :: s)) as [n|] eqn:E.
      - destruct (rule_at_some _ _ E) as [n' ->].
        rewrite pieces_text_hit. unfold const at 1 3. cbn [app].
        rewrite doubled_cons. cbn [starts_with]. rewrite Hsp, IH1.
        split; [reflexivity | discriminate].
      - rewrite pieces_text_keep, doubled_cons. cbn [starts_with].
        rewrite IH1, orb_false_r. split; [|trivial].
        destruct (is_char a c) eqn:Ec; [|reflexivity]. cbn [andb].
        destruct (starts_with a (pieces_text (const [SP])
                     (scan (compile RE_RULES) (c :: b) s 0))) eqn:Es; [|reflexivity].
        exfalso. apply (rule_at_pair a c s Ha Ec (IH2 eq_refl)). exact E. }
    destruct H0 as [H0 H0'].
    split; [|exact H0'].
    intros [|k]; [exact H0|]. cbn [scan]. apply IH1.
Qed.

Lemma rule_char_not_space (a : char) : is_rule_char a = true -> is_space a = false.
Proof.
  unfold is_rule_char. intros H.
  destruct (is_char 95%N a) eqn:E1; [apply is_char_eq in E1; now subst a|].
  destruct (is_char 45%N a) eqn:E2; [apply is_char_eq in E2; now subst a|].
  destruct (is_char 61%N a) eqn:E3; [apply is_char_eq in E3; now subst a|].
  discriminate.
Qed.

Lemma rule_char_not_mark (a : char) : is_rule_char a = true -> is_mark a = false.
Proof.
  unfold is_rule_char. intros H.
  destruct (is_char 95%N a) eqn:E1; [apply is_char_eq in E1; now subst a|].
  destruct (is_char 45%N a) eqn:E2; [apply is_char_eq in E2; now subst a|].
  destruct (is_char 61%N a) eqn:E3; [apply is_char_eq in E3; now subst a|].
  discriminate.
Qed.

Lemma is_char_sym (a c : char) : is_char a c = is_char c a.
Proof. unfold is_char. apply N.eqb_sym. Qed.

Lemma doubled_tail (a c : char) (s : str) :
  doubled a (c :: s) = false -> doubled a s = false.
Proof. rewrite doubled_cons. intros H. now apply orb_false_iff in H. Qed.

(** Line 82 brings no two rule characters side by side. *)
Lemma scan_spaces_single (a : char) : is_space a = false ->
  forall (s b : str),
    doubled a s = false ->
    (forall skip,
        doubled a (pieces_text (const [SP]) (scan (compile RE_SPACES) b s skip)) = false)
    /\ (starts_with a (pieces_text (const [SP]) (scan (compile RE_SPACES) b s 0)) = true ->
        starts_with a s = true).
Proof.
  intros Ha.
  assert (Hsp : is_char a SP = false).
  { destruct (is_char a SP) eqn:E; [|reflexivity].
    apply is_char_eq in E. subst a. discriminate. }
  induction s as [|c s IH]; intros b Hd.
  - split; [intros [|k]|]; cbn [scan]; rewrite ?compile_RE_SPACES; cbn; trivial.
  - destruct (IH (c :: b) (doubled_tail a c s Hd)) as [IH1 IH2].
    assert (H0 : doubled a (pieces_text (const [SP])
                              (scan (compile RE_SPACES) b (c :: s) 0)) = false
                 /\ (starts_with a (pieces_text (const [SP])
                        (scan (compile RE_SPACES) b (c :: s) 0)) = true ->
                     starts_with a (c :: s) = true)).
    { cbn [scan]. rewrite compile_RE_SPACES.
      destruct (is_space c) eqn:E.
      - rewrite pieces_text_hit. unfold const at 1 3. cbn [app].
        rewrite doubled_cons. cbn [starts_with]. rewrite Hsp, IH1.
        split; [reflexivity | discriminate].
      - rewrite pieces_text_keep, doubled_cons. cbn [starts_with].
        rewrite IH1, orb_false_r. split; [|trivial].
        destruct (is_char a c) eqn:Ec; [|reflexivity]. cbn [andb].
        destruct (starts_with a (pieces_text (const [SP])
                     (scan (compile RE_SPACES) (c :: b) s 0))) eqn:Es; [|reflexivity].
        rewrite doubled_cons, Ec, (IH2 eq_refl) in Hd. discriminate. }
    destruct H0 as [H0 H0'].
    split; [|exact H0'].
    intros [|k]; [exact H0|]. cbn [scan]. apply IH1.
Qed.

(** Line 83 brings no two rule characters side by side. *)
Lemma marks_single (a : char) : is_space a = false -> is_mark a = false ->
  forall (s : str),
    doubled a s = false ->
    (forall skip, doubled a (marks s skip) = false)
    /\ (starts_with a (marks s 0) = true -> starts_with a s = true).
Proof.
  intros Ha Hm.
  assert (Hsp : is_char a SP = false).
  { destruct (is_char a SP) eqn:E; [|reflexivity].
    apply is_char_eq in E. subst a. discriminate. }
  induction s as [|c s IH]; intros Hd.
  - split; [intros [|k]|]; trivial.
  - destruct (IH (doubled_tail a c s Hd)) as [IH1 IH2].
    assert (Hkeep : doubled a (c :: marks s 0) = false).
    { rewrite doubled_cons, IH1, orb_false_r.
      destruct (is_char a c) eqn:Ec; [|reflexivity]. cbn [andb].
      destruct (starts_with a (marks s 0)) eqn:Es; [|reflexivity].
      rewrite doubled_cons, Ec, (IH2 eq_refl) in Hd. discriminate. }
    assert (H0 : doubled a (marks (c :: s) 0) = false
                 /\ (starts_with a (marks (c :: s) 0) = true ->
                     starts_with a (c :: s) = true)).
    { cbn [marks]. destruct s as [|c2 [|c3 s3]]; [now split | now split |].
      destruct (is_char SP c && is_mark c2 && is_char SP c3) eqn:E; [|now split].
      apply andb_true_iff in E. destruct E as [E _].
      apply andb_true_iff in E. destruct E as [_ E2].
      assert (Hc2 : is_char a c2 = false).
      { destruct (is_char a c2) eqn:Ec2; [|reflexivity].
        apply is_char_eq in Ec2. subst c2. congruence. }
      rewrite !doubled_cons. cbn [starts_with]. rewrite Hc2, Hsp, IH1.
      split; [reflexivity | discriminate]. }
    destruct H0 as [H0 H0'].
    split; [|exact H0'].
    intros [|k]; [exact H0|]. cbn [marks]. apply IH1.
Qed.

(** After lines 81 to 83 no two rule characters stand side by side. *)
Lemma repaired_single (P : parsing_patterns) (mda : str) (a : char) :
  is_rule_char a = true -> doubled a (repair_marks (collapsed P mda)) = false.
Proof.
  intros Ha. rewrite repair_marks_eq.
  apply (marks_single a (rule_char_not_space a Ha) (rule_char_not_mark a Ha)).
  unfold collapsed. rewrite (re_sub_pieces (compile RE_SPACES)).
  apply (scan_spaces_single a (rule_char_not_space a Ha)).
  rewrite re_sub_pieces. apply (scan_rules_single a Ha).
Qed.

(** A lazy unbounded quantifier around one character class succeeds
    only where its continuation does, some characters further on. *)
Lemma lazy_loop_reaches {R : Type} (f : char -> bool) (body : matcher R) (k : cont R) :
  one_char f body ->
  forall (fuel count : nat) (b : str) (n : nat) (s : str) (g : groups),
    rep_loop body false 0 None k fuel count b n s g <> None ->
    exists j b', k b' (n + j) (skipn j s) g <> None.
Proof.
  intros Hbody. induction fuel as [|fuel IH]; intros count b n s g H; [now elim H|].
  rewrite rep_loop_step in H. cbv zeta in H. cbn [Nat.ltb Nat.leb reached] in H.
  destruct (k b n s g) eqn:Ek.
  - exists 0, b. rewrite Nat.add_0_r. cbn [skipn]. congruence.
  - cbn [orelse] in H. rewrite (Hbody b n s g _) in H.
    destruct s as [|c s]; [now elim H|].
    destruct (f c); [|now elim H].
    rewrite succ_neqb in H. cbn [andb] in H.
    destruct (IH _ _ _ _ _ H) as (j & b' & Hj).
    exists (S j), b'. cbn [skipn]. now rewrite Nat.add_succ_r.
Qed.

(** A literal matches only a text that begins with it. *)
Lemma word_prefix {R : Type} (t : str) :
  forall (b : str) (n : nat) (s : str) (g : groups) (k : cont R),
    rmatch (word t) b n s g k <> None -> exists rest, s = t ++ rest.
Proof.
  induction t as [|c t IH]; intros b n s g k H; [now exists s|].
  destruct t as [|c' t].
  - cbn [word] in H. rewrite rmatch_cls in H.
    destruct s as [|c0 s]; [now elim H|].
    destruct (is_char c c0) eqn:E; [|now elim H].
    apply is_char_eq in E. subst c0. now exists s.
  - change (word (c :: c' :: t)) with (Cat (Cls (is_char c)) (word (c' :: t))) in H.
    rewrite rmatch_cat, rmatch_cls in H.
    destruct s as [|c0 s]; [now elim H|].
    destruct (is_char c c0) eqn:E; [|now elim H].
    apply is_char_eq in E. subst c0.
    destruct (IH _ _ _ _ _ H) as [rest ->]. now exists rest.
Qed.

Lemma doubled_skipn (a : char) (j : nat) :
  forall s : str, doubled a (skipn j s) = true -> doubled a s = true.
Proof.
  induction j as [|j IH]; intros s H; [exact H|].
  destruct s as [|c s]; [discriminate|]. cbn [skipn] in H.
  rewrite doubled_cons, (IH s H). apply orb_true_r.
Qed.

(** The pattern of line 84 needs two hyphens side by side. *)
Lemma compile_RE_COMMENT (b s : str) (must_advance : bool) :
  doubled 45%N s = false -> compile RE_COMMENT b s must_advance = None.
Proof.
  intros Hd. destruct (compile RE_COMMENT b s must_advance) as [r|] eqn:E;
    [exfalso | reflexivity].
  unfold compile, RE_COMMENT in E. rewrite rmatch_cat in E.
  destruct b as [|c b]; [|discriminate].
  assert (H : rep_loop (rmatch any_but_newline) false 0 None
                (fun b' n' s' g' =>
                   rmatch (word COMMENT_END) b' n' s'
                     ((1, firstn (n' - 0) s) :: g') (final must_advance))
                (0 + length s + 1) 0 [] 0 s [] <> None).
  { intros Hn.
    assert (E' : rep_loop (rmatch any_but_newline) false 0 None
                   (fun b' n' s' g' =>
                      rmatch (word COMMENT_END) b' n' s'
                        ((1, firstn (n' - 0) s) :: g') (final must_advance))
                   (0 + length s + 1) 0 [] 0 s [] = Some r) by exact E.
    congruence. }
  apply (lazy_loop_reaches (fun c => negb (c =? NL)%N)) in H;
    [|intros b' n' s' g' k'; reflexivity].
  destruct H as (j & b' & H). apply word_prefix in H. destruct H as [rest H].
  assert (Hj : doubled 45%N (skipn j s) = true) by (rewrite H; reflexivity).
  apply doubled_skipn in Hj. congruence.
Qed.

(** Line 84 leaves a text without two hyphens side by side as it is. *)
Lemma comment_fixed (s : str) :
  doubled 45%N s = false -> re_sub (compile RE_COMMENT) (const []) s = s.
Proof.
  intros Hd. rewrite re_sub_pieces. destruct s as [|c s]; cbn [scan];
    rewrite (compile_RE_COMMENT [] _ false Hd); [reflexivity|].
  rewrite pieces_text_keep. unfold RE_COMMENT. now rewrite scan_bos_later.
Qed.

(** A pattern that matches at no position of a text finds nothing in
    it, and a substitution with it leaves the text as it is. *)
Lemma scan_silent (p : pattern) : forall (s b : str),
  (forall j b' must_advance, p b' (skipn j s) must_advance = None) ->
  scan p b s 0 = List.map Keep s.
Proof.
  induction s as [|c s IH]; intros b H; cbn [scan List.map];
    pose proof (H 0 b false) as H0; cbn [skipn] in H0; rewrite H0; [reflexivity|].
  f_equal. apply IH. intros j b' must_advance. apply (H (S j)).
Qed.

Lemma finditer_silent (p : pattern) (s : str) :
  (forall j b' must_advance, p b' (skipn j s) must_advance = None) ->
  finditer p s = [].
Proof.
  intros H. unfold finditer. rewrite (scan_silent p s [] H).
  induction s as [|c s IH]; [reflexivity|]. cbn [List.map flat_map app].
  apply IH. intros j b' must_advance. apply (H (S j)).
Qed.

Lemma doubled_skipn_false (a : char) (j : nat) (s : str) :
  doubled a s = false -> doubled a (skipn j s) = false.
Proof.
  intros H. destruct (doubled a (skipn j s)) eqn:E; [|reflexivity].
  apply doubled_skipn in E. congruence.
Qed.

Lemma doubled_app (a : char) (u v : str) :
  doubled a (u ++ a :: a :: v) = true.
Proof.
  induction u as [|c u IH].
  - cbn [app doubled starts_with]. unfold is_char. now rewrite N.eqb_refl.
  - cbn [app]. rewrite doubled_cons, IH. apply orb_true_r.
Qed.

Lemma clean_excerpt_repaired (P : parsing_patterns) (mda : str) :
  clean_excerpt P mda = repair_marks (collapsed P mda).
Proof.
  rewrite clean_excerpt_steps. apply comment_fixed, repaired_single. reflexivity.
Qed.

(** Property X1: line 84 (and line 99): the pattern of the last substitution needs
    two hyphens side by side, and line 81 has replaced every run of
    hyphens by a space.  The substitution finds nothing and the
    excerpt is the text the first five substitutions give. *)
Theorem comment_removal_never_applies (P : parsing_patterns) (mda : str) :
  finditer (compile RE_COMMENT) (repair_marks (collapsed P mda)) = []
  /\ clean_excerpt P mda = repair_marks (collapsed P mda).
Proof.
  split; [|apply clean_excerpt_repaired].
  apply finditer_silent. intros j b' must_advance.
  apply compile_RE_COMMENT, doubled_skipn_false, repaired_single. reflexivity.
Qed.

(** Property X2: the excerpts hold no two underscores, no two hyphens and no two
    equals signs side by side. *)
Theorem excerpt_has_no_rule (P : parsing_patterns) (txt form_type : str) :
  Forall (fun out : str =>
            forall a, is_rule_char a = true ->
              forall u v, out <> u ++ a :: a :: v)
         [clean_mda_text P txt form_type; clean_item1_text P txt].
Proof.
  assert (H : forall mda a, is_rule_char a = true ->
            forall u v, clean_excerpt P mda <> u ++ a :: a :: v).
  { intros mda a Ha u v E.
    pose proof (repaired_single P mda a Ha) as Hd.
    rewrite <- clean_excerpt_repaired, E, doubled_app in Hd. discriminate. }
  apply Forall_cons; [apply H|]. apply Forall_cons; [apply H|]. apply Forall_nil.
Qed.

(** ** The shape of the normalised text *)

Lemma clean_filing_text_strip (P : parsing_patterns) (decode : str -> str) (x : str) :
  clean_filing_text P decode x
  = strip (blank_out
             (strip (re_sub (compile RE_NBSP) (const [NL]) (unwrap_steps P decode x)))
             0).
Proof. rewrite clean_filing_text_steps. unfold blank_steps. now rewrite blank_lines_eq. Qed.

Lemma strip_tail (s pre : str) (c : char) :
  strip s = pre ++ [c] -> is_space c = false.
Proof.
  unfold strip, rstrip. intros H. apply (f_equal (@rev char)) in H.
  rewrite rev_involutive, rev_app_distr in H. cbn [rev app] in H.
  pose proof (lstrip_head (rev (lstrip s))) as Hh. rewrite H in Hh.
  cbn [no_leading_space] in Hh. now apply negb_true_iff in Hh.
Qed.

Lemma strip_head (s rest : str) (c : char) :
  strip s = c :: rest -> is_space c = false.
Proof.
  intros H. pose proof (rstrip_head _ (lstrip_head s)) as Hh.
  fold (strip s) in Hh. rewrite H in Hh.
  cbn [no_leading_space] in Hh. now apply negb_true_iff in Hh.
Qed.

Lemma clean_filing_text_plain (P : parsing_patterns) (decode : str -> str) (x : str) :
  plain (clean_filing_text P decode x) = true.
Proof.
  rewrite clean_filing_text_strip.
  apply plain_strip, plain_blank_out, plain_strip, nbsp_plain.
Qed.

Lemma clean_filing_text_calm (P : parsing_patterns) (decode : str -> str) (x : str) :
  calm (clean_filing_text P decode x) = true.
Proof.
  rewrite clean_filing_text_strip. apply calm_strip.
  eapply blank_out_calm. apply Nat.le_refl.
Qed.

Lemma calm_skipn (j : nat) : forall s : str, calm s = true -> calm (skipn j s) = true.
Proof.
  induction j as [|j IH]; intros s H; [exact H|].
  destruct s as [|c s]; [reflexivity|]. cbn [skipn]. apply IH.
  cbn [calm] in H. now apply andb_true_iff in H.
Qed.

Lemma calm_blank_at (s : str) : calm s = true -> blank_at s = None.
Proof.
  destruct s as [|c s]; [reflexivity|]. cbn [calm]. intros H.
  apply andb_true_iff in H. destruct H as [H _]. apply negb_true_iff in H.
  unfold blank_at. now rewrite H.
Qed.

Lemma normalised_head (P : parsing_patterns) (decode : str -> str) (x : str)
    (c : char) (rest : str) :
  clean_filing_text P decode x = c :: rest -> is_space c = false.
Proof. rewrite clean_filing_text_strip. apply strip_head. Qed.

(** Property X5: the normalised text neither begins nor ends with a whitespace
    character. *)
Theorem normalised_text_is_stripped (P : parsing_patterns) (decode : str -> str)
    (x : str) :
  (forall c rest, clean_filing_text P decode x = c :: rest -> is_space c = false)
  /\ (forall pre c, clean_filing_text P decode x = pre ++ [c] -> is_space c = false).
Proof.
  rewrite clean_filing_text_strip. split.
  - intros c rest H. now apply strip_head in H.
  - intros pre c H. now apply strip_tail in H.
Qed.

(** Property X6: the normalised text holds no U+00A0 and no U+200B. *)
Theorem normalised_text_has_no_nbsp (P : parsing_patterns) (decode : str -> str)
    (x : str) :
  ~ In 160%N (clean_filing_text P decode x)
  /\ ~ In 8203%N (clean_filing_text P decode x).
Proof.
  pose proof (clean_filing_text_plain P decode x) as H. unfold plain in H.
  rewrite forallb_forall in H.
  split; intros Hin; apply H in Hin; discriminate.
Qed.

(** Property X7: the pattern of line 60 matches nowhere in the normalised text: no
    newline opens a run of whitespace that holds three newlines, and
    in particular no three newlines stand side by side. *)
Theorem normalised_text_blank_lines (P : parsing_patterns) (decode : str -> str)
    (x : str) :
  finditer (compile RE_BLANK_LINES) (clean_filing_text P decode x) = []
  /\ (forall u v, clean_filing_text P decode x = u ++ v -> blank_run 3 v = false)
  /\ (forall u v, clean_filing_text P decode x <> u ++ NL :: NL :: NL :: v).
Proof.
  pose proof (clean_filing_text_calm P decode x) as Hc.
  assert (Hrun : forall u v, clean_filing_text P decode x = u ++ v ->
                             blank_run 3 v = false).
  { intros u v E. rewrite E in Hc. apply calm_suffix in Hc.
    destruct v as [|c v]; [reflexivity|]. cbn [calm] in Hc.
    apply andb_true_iff in Hc. destruct Hc as [Hc _]. now apply negb_true_iff in Hc. }
  split; [|split; [exact Hrun|]].
  - apply finditer_silent. intros j b' must_advance.
    pose proof (compile_RE_BLANK_LINES b' (skipn j (clean_filing_text P decode x))
                  must_advance) as H.
    rewrite (calm_blank_at _ (calm_skipn j _ Hc)) in H.
    now destruct (compile RE_BLANK_LINES b' _ must_advance).
  - intros u v E. apply Hrun in E. discriminate E.
Qed.

(** Property X8: lines 59 and 60 change nothing when they are run again: on their
    own result, and on the normalised text. *)
Theorem closing_steps_idempotent (P : parsing_patterns) (decode : str -> str)
    (x : str) :
  (forall s, blank_steps (blank_steps s) = blank_steps s)
  /\ blank_steps (clean_filing_text P decode x) = clean_filing_text P decode x.
Proof.
  split; [exact blank_steps_idem|].
  rewrite clean_filing_text_steps. apply blank_steps_idem.
Qed.

(** ** Lines 59 and 60 touch whitespace only *)

Lemma visible_nbsp (s : str) :
  filter visible (List.map (fun c => if is_nbsp_char c then NL else c) s)
  = filter visible s.
Proof.
  induction s as [|c s IH]; [reflexivity|]. cbn [List.map filter]. rewrite IH.
  destruct (is_nbsp_char c) eqn:E; [|reflexivity].
  change (visible NL) with false. unfold visible. now rewrite E, orb_true_r.
Qed.

Lemma visible_lstrip (s : str) : filter visible (lstrip s) = filter visible s.
Proof.
  induction s as [|c s IH]; [reflexivity|]. cbn [lstrip].
  destruct (is_space c) eqn:E; [|reflexivity].
  rewrite IH. cbn [filter]. unfold visible at 2. now rewrite E.
Qed.

Lemma visible_strip (s : str) : filter visible (strip s) = filter visible s.
Proof.
  unfold strip, rstrip.
  now rewrite filter_rev, visible_lstrip, filter_rev, rev_involutive, visible_lstrip.
Qed.

Lemma visible_skip_span (s : str) :
  filter visible (skipn (span is_space s) s) = filter visible s.
Proof.
  induction s as [|c s IH]; [reflexivity|]. cbn [span].
  destruct (is_space c) eqn:E; [|reflexivity].
  cbn [skipn filter]. unfold visible at 2. now rewrite E.
Qed.

Lemma visible_blank_out : forall (s : str) (k : nat),
  filter visible (blank_out s k) = filter visible (skipn k s).
Proof.
  induction s as [|c s IH]; intros k; [now destruct k|].
  destruct k as [|k]; cbn [blank_out skipn]; [|apply IH].
  unfold blank_at. destruct (blank_run 3 (c :: s)) eqn:Er; [|cbn [filter]; now rewrite IH].
  unfold blank_run in Er. apply andb_true_iff in Er. destruct Er as [Er _].
  cbn [starts_with_newline] in Er. apply newline_is_space in Er.
  cbn [span]. rewrite Er. cbn [filter]. change (visible NL) with false. cbv iota.
  rewrite IH, visible_skip_span. unfold visible. now rewrite Er.
Qed.

Lemma clean_filing_text_visible (P : parsing_patterns) (decode : str -> str) (x : str) :
  filter visible (clean_filing_text P decode x)
  = filter visible (unwrap_steps P decode x).
Proof.
  rewrite clean_filing_text_strip, visible_strip, visible_blank_out. cbn [skipn].
  rewrite visible_strip, re_sub_pieces, scan_nbsp. apply visible_nbsp.
Qed.

(** Property X9: lines 59 and 60 add and remove whitespace, U+00A0 and U+200B only:
    every other character of the text that line 58 gives is in the
    normalised text, in the same order. *)
Theorem closing_steps_keep_visible_text (P : parsing_patterns)
    (decode : str -> str) (x : str) :
  filter visible (clean_filing_text P decode x)
  = filter visible (unwrap_steps P decode x).
Proof. apply clean_filing_text_visible. Qed.

(** Property X10: the normalised text is empty exactly when the text that line 58
    gives holds nothing but whitespace, U+00A0 and U+200B. *)
Theorem normalised_text_empty_iff (P : parsing_patterns) (decode : str -> str)
    (x : str) :
  clean_filing_text P decode x = []
  <-> forallb (fun c => is_space c || is_nbsp_char c) (unwrap_steps P decode x) = true.
Proof.
  assert (Hf : forall s : str,
            filter visible s = []
            <-> forallb (fun c => is_space c || is_nbsp_char c) s = true).
  { induction s as [|c s IH]; [now split|]. cbn [filter forallb]. unfold visible at 1.
    destruct (is_space c || is_nbsp_char c); cbn [negb andb]; [exact IH|].
    split; discriminate. }
  rewrite <- Hf, <- clean_filing_text_visible. split; [now intros ->|].
  intros Hv. destruct (clean_filing_text P decode x) as [|c rest] eqn:E; [reflexivity|].
  exfalso.
  pose proof (clean_filing_text_plain P decode x) as Hp.
  pose proof (normalised_head P decode x c rest E) as Hs.
  rewrite E in Hp. cbn [plain forallb] in Hp. apply andb_true_iff in Hp.
  destruct Hp as [Hp _]. apply negb_true_iff in Hp.
  cbn [filter] in Hv. unfold visible in Hv. rewrite Hs, Hp in Hv. discriminate.
Qed.

(** ** The words of the excerpt *)

Lemma filter_skip_span (f g : char -> bool) :
  (forall c, f c = true -> g c = false) ->
  forall s : str, filter g (skipn (span f s) s) = filter g s.
Proof.
  intros H. induction s as [|c s IH]; [reflexivity|]. cbn [span].
  destruct (f c) eqn:E; [|reflexivity].
  cbn [skipn filter]. now rewrite (H c E).
Qed.

Lemma rule_at_wordy (s : str) (n : nat) :
  rule_at s = Some n -> filter wordy (skipn n s) = filter wordy s.
Proof.
  assert (H : forall a, is_rule_char a = true ->
            forall c, is_char a c = true -> wordy c = false).
  { intros a Ha c Hc. apply is_char_eq in Hc. subst c. unfold wordy.
    now rewrite Ha, orb_true_r. }
  unfold rule_at.
  destruct (2 <=? span (is_char 95%N) s);
    [intros [= <-]; now apply filter_skip_span, H|].
  destruct (2 <=? span (is_char 45%N) s);
    [intros [= <-]; now apply filter_skip_span, H|].
  destruct (2 <=? span (is_char 61%N) s);
    [intros [= <-]; now apply filter_skip_span, H|].
  discriminate.
Qed.

Lemma wordy_rules : forall (s b : str) (k : nat),
  filter wordy (pieces_text (const [SP]) (scan (compile RE_RULES) b s k))
  = filter wordy (skipn k s).
Proof.
  induction s as [|c s IH]; intros b k.
  - destruct k; cbn [scan]; rewrite ?compile_RE_RULES; reflexivity.
  - destruct k as [|k]; cbn [scan skipn]; [|apply IH].
    rewrite compile_RE_RULES. destruct (rule_at (c :: s)) as [n|] eqn:E.
    + destruct (rule_at_some _ _ E) as [n' ->].
      rewrite <- (rule_at_wordy _ _ E). cbn [skipn].
      rewrite pieces_text_hit. unfold const at 1. cbn [app filter].
      change (wordy SP) with false. cbv iota. apply IH.
    + rewrite pieces_text_keep. cbn [filter]. now rewrite IH.
Qed.

Lemma wordy_spaces : forall (s b : str) (k : nat),
  filter wordy (pieces_text (const [SP]) (scan (compile RE_SPACES) b s k))
  = filter wordy (skipn k s).
Proof.
  assert (H : forall c, is_space c = true -> wordy c = false)
    by (intros c Hc; unfold wordy; now rewrite Hc).
  induction s as [|c s IH]; intros b k.
  - destruct k; cbn [scan]; rewrite ?compile_RE_SPACES; reflexivity.
  - destruct k as [|k]; cbn [scan skipn]; [|apply IH].
    rewrite compile_RE_SPACES. destruct (is_space c) eqn:E.
    + rewrite pieces_text_hit. unfold const at 1. cbn [app].
      change (filter wordy (SP :: ?x)) with (filter wordy x).
      rewrite IH, (filter_skip_span is_space wordy H). cbn [filter].
      now rewrite (H c E).
    + rewrite pieces_text_keep. cbn [filter]. now rewrite IH.
Qed.

Lemma wordy_marks : forall (s : str) (k : nat),
  filter wordy (marks s k) = filter wordy (skipn k s).
Proof.
  induction s as [|c s IH]; intros k; [now destruct k|].
  destruct k as [|k]; cbn [marks skipn]; [|apply IH].
  destruct s as [|c2 [|c3 s3]]; try (cbn [filter]; now rewrite IH).
  destruct (is_char SP c && is_mark c2 && is_char SP c3) eqn:E;
    [|cbn [filter]; now rewrite IH].
  apply andb_true_iff in E. destruct E as [E E3].
  apply andb_true_iff in E. destruct E as [E1 _].
  apply is_char_eq in E1. apply is_char_eq in E3. subst c c3.
  cbn [filter]. change (wordy SP) with false. cbv iota.
  now rewrite IH.
Qed.

Lemma collapsed_steps (P : parsing_patterns) (mda : str) :
  collapsed P mda
  = re_sub (compile RE_SPACES) (const [SP])
      (re_sub (compile RE_RULES) (const [SP]) (without_toc P mda)).
Proof. reflexivity. Qed.

(** Property X3: lines 81 to 84 add and remove whitespace and rule characters only:
    every other character of the text that line 80 gives is in the
    excerpt, in the same order. *)
Theorem excerpt_keeps_words (P : parsing_patterns) (mda : str) :
  filter wordy (clean_excerpt P mda) = filter wordy (without_toc P mda).
Proof.
  rewrite clean_excerpt_repaired, repair_marks_eq, wordy_marks. cbn [skipn].
  rewrite collapsed_steps, re_sub_pieces, wordy_spaces. cbn [skipn].
  rewrite re_sub_pieces, wordy_rules. reflexivity.
Qed.

(** ** Excerpts that are clean already *)

Lemma scan_no_hit (p : pattern) (repl : str -> groups -> str) : forall (s b : str),
  flat_map (fun x => match x with Keep _ => [] | Hit t g => [(t, g)] end)
           (scan p b s 0) = [] ->
  pieces_text repl (scan p b s 0) = s.
Proof.
  induction s as [|c s IH]; intros b; cbn [scan].
  - destruct (p b [] false) as [[n g]|]; [discriminate | reflexivity].
  - destruct (p b (c :: s) false) as [[[|n] g]|]; [discriminate | discriminate |].
    cbn [flat_map app]. intros H. rewrite pieces_text_keep. now rewrite IH.
Qed.

Lemma re_sub_no_hit (p : pattern) (repl : str -> groups -> str) (s : str) :
  finditer p s = [] -> re_sub p repl s = s.
Proof. rewrite re_sub_pieces. apply scan_no_hit. Qed.

Lemma rule_at_none (s : str) :
  doubled 95%N s = false -> doubled 45%N s = false -> doubled 61%N s = false ->
  rule_at s = None.
Proof.
  intros H1 H2 H3. destruct (rule_at s) as [n|] eqn:E; [exfalso | reflexivity].
  destruct s as [|c [|c' s]]; [discriminate | |].
  - unfold rule_at in E. cbn [span] in E.
    destruct (is_char 95%N c), (is_char 45%N c), (is_char 61%N c); discriminate.
  - unfold rule_at in E. cbn [span] in E.
    rewrite doubled_cons in H1, H2, H3. cbn [starts_with] in H1, H2, H3.
    apply orb_false_iff in H1, H2, H3.
    destruct H1 as [H1 _], H2 as [H2 _], H3 as [H3 _].
    destruct (is_char 95%N c), (is_char 95%N c'), (is_char 45%N c),
      (is_char 45%N c'), (is_char 61%N c), (is_char 61%N c');
      cbn [andb Nat.leb] in *; discriminate.
Qed.

Lemma rules_fixed (s : str) :
  doubled 95%N s = false -> doubled 45%N s = false -> doubled 61%N s = false ->
  re_sub (compile RE_RULES) (const [SP]) s = s.
Proof.
  intros H1 H2 H3. apply re_sub_no_hit, finditer_silent.
  intros j b' must_advance. rewrite compile_RE_RULES.
  now rewrite rule_at_none by now apply doubled_skipn_false.
Qed.

Lemma spaces_fixed : forall (s b : str),
  tidy s = true -> pieces_text (const [SP]) (scan (compile RE_SPACES) b s 0) = s.
Proof.
  induction s as [|c s IH]; intros b H; cbn [scan]; rewrite compile_RE_SPACES;
    [reflexivity|].
  rewrite tidy_cons in H. apply andb_true_iff in H. destruct H as [Hc Ht].
  destruct (is_space c) eqn:E.
  - apply andb_true_iff in Hc. destruct Hc as [Hc Hn].
    apply is_char_eq in Hc. subst c.
    assert (Hs : span is_space s = 0).
    { destruct s as [|c' s']; [reflexivity|]. cbn [no_leading_space] in Hn.
      apply negb_true_iff in Hn. cbn [span]. now rewrite Hn. }
    rewrite Hs, pieces_text_hit. unfold const at 1. cbn [app]. now rewrite IH.
  - rewrite pieces_text_keep. now rewrite IH.
Qed.

Lemma marks_fixed : forall s : str, spaced_mark s = false -> marks s 0 = s.
Proof.
  induction s as [|c s IH]; [reflexivity|]. cbn [spaced_mark]. intros H.
  apply orb_false_iff in H. destruct H as [H1 H2]. cbn [marks].
  destruct s as [|c2 [|c3 s3]]; try now rewrite IH.
  rewrite H1. now rewrite IH.
Qed.

(** Property X4: an excerpt that is clean already is returned as it is: one in
    which the table-of-contents patterns find nothing, with single
    spaces as its only whitespace, no two rule characters side by side
    and no mark between two spaces. *)
Theorem clean_excerpt_fixed (P : parsing_patterns) (mda : str) :
  finditer (PAT_TOC1 P) mda = [] -> finditer (PAT_TOC2 P) mda = [] ->
  tidy mda = true ->
  doubled 95%N mda = false -> doubled 45%N mda = false -> doubled 61%N mda = false ->
  spaced_mark mda = false ->
  clean_excerpt P mda = mda.
Proof.
  intros Ht1 Ht2 Hs H1 H2 H3 Hm.
  rewrite clean_excerpt_repaired, repair_marks_eq, collapsed_steps.
  unfold without_toc.
  rewrite (re_sub_no_hit _ _ _ Ht1), (re_sub_no_hit _ _ _ Ht2).
  rewrite (rules_fixed _ H1 H2 H3), re_sub_pieces, (spaces_fixed _ _ Hs).
  now apply marks_fixed.
Qed.

Lemma clean_excerpt_fixed_witness :
  clean_excerpt spec_patterns clean_sentence = clean_sentence.
Proof.
  apply (clean_excerpt_fixed spec_patterns clean_sentence); vm_compute; reflexivity.
Defined.

(** * A second normalisation *)

(** ** Matches reach into the text ahead *)

Lemma orelse_none {A : Type} (x y : option A) :
  orelse x y <> None -> x <> None \/ y <> None.
Proof. destruct x; [left; discriminate | now right]. Qed.

Lemma skipn_skipn_add {A : Type} (i j : nat) (l : list A) :
  skipn i (skipn j l) = skipn (j + i) l.
Proof.
  revert l. induction j as [|j IH]; intros l; [reflexivity|].
  destruct l as [|x l]; [now rewrite !skipn_nil|]. cbn [skipn Nat.add]. apply IH.
Qed.

Lemma rep_loop_reaches {R : Type} (body : matcher R) (greedy : bool) (mn : nat)
    (mx : option nat) (k : cont R) :
  reaches body ->
  forall (fuel count : nat) (b : str) (n : nat) (s : str) (g : groups),
    rep_loop body greedy mn mx k fuel count b n s g <> None ->
    exists b' n' j g', k b' n' (skipn j s) g' <> None.
Proof.
  intros Hbody. induction fuel as [|fuel IH]; intros count b n s g H; [now elim H|].
  rewrite rep_loop_step in H. cbv zeta in H.
  assert (Hstop : k b n s g <> None -> exists b' n' j g', k b' n' (skipn j s) g' <> None)
    by (intros Hk; now exists b, n, 0, g).
  assert (Hagain :
            body b n s g
              (fun b' n' s' g' =>
                 if (mn <=? count) && (n' =? n) then None
                 else rep_loop body greedy mn mx k fuel (S count) b' n' s' g')
            <> None ->
            exists b' n' j g', k b' n' (skipn j s) g' <> None).
  { intros Ha. apply Hbody in Ha. destruct Ha as (b1 & n1 & j & g1 & Ha).
    destruct ((mn <=? count) && (n1 =? n)); [now elim Ha|].
    apply IH in Ha. destruct Ha as (b2 & n2 & i & g2 & Ha).
    rewrite skipn_skipn_add in Ha. now exists b2, n2, (j + i), g2. }
  destruct (count <? mn); [now apply Hagain|].
  destruct (reached mx count); [now apply Hstop|].
  destruct greedy; apply orelse_none in H; destruct H as [H|H]; auto.
Qed.

Lemma rmatch_reaches {R : Type} (r : regex) : reaches (@rmatch R r).
Proof.
  induction r as [|f| | |r1 IH1 r2 IH2|r1 IH1 r2 IH2|greedy mn mx r1 IH1|i r1 IH1];
    intros b n s g k H; cbn [rmatch] in H.
  - now exists b, n, 0, g.
  - destruct s as [|c s]; [now elim H|]. destruct (f c); [|now elim H].
    now exists (c :: b), (S n), 1, g.
  - destruct b; [now exists [], n, 0, g | now elim H].
  - destruct s; [now exists b, n, 0, g | now elim H].
  - apply IH1 in H. destruct H as (b1 & n1 & j & g1 & H).
    apply IH2 in H. destruct H as (b2 & n2 & i & g2 & H).
    rewrite skipn_skipn_add in H. now exists b2, n2, (j + i), g2.
  - apply orelse_none in H.
    destruct H as [H|H]; [exact (IH1 _ _ _ _ _ H) | exact (IH2 _ _ _ _ _ H)].
  - now apply (rep_loop_reaches _ _ _ _ _ IH1) in H.
  - apply IH1 in H. destruct H as (b1 & n1 & j & g1 & H). 
    now exists b1, n1, j, ((i, firstn (n1 - n) s) :: g1).
Qed.

Lemma existsb_skipn (f : char -> bool) (j : nat) :
  forall s : str, existsb f (skipn j s) = true -> existsb f s = true.
Proof.
  induction j as [|j IH]; intros s H; [exact H|].
  destruct s as [|c s]; [discriminate|]. cbn [skipn] in H. cbn [existsb].
  rewrite (IH s H). apply orb_true_r.
Qed.

Lemma needs_cls (f : char -> bool) : needs f (Cls f).
Proof.
  intros R b n s g k H. cbn [rmatch] in H. destruct s as [|c s]; [now elim H|].
  cbn [existsb]. destruct (f c); [reflexivity | now elim H].
Qed.

Lemma needs_cat_l (f : char -> bool) (r1 r2 : regex) :
  needs f r1 -> needs f (Cat r1 r2).
Proof. intros H1 R b n s g k H. rewrite rmatch_cat in H. now apply H1 in H. Qed.

Lemma needs_cat_r (f : char -> bool) (r1 r2 : regex) :
  needs f r2 -> needs f (Cat r1 r2).
Proof.
  intros H2 R b n s g k H. rewrite rmatch_cat in H. apply rmatch_reaches in H.
  destruct H as (b1 & n1 & j & g1 & H). apply H2 in H. now apply existsb_skipn in H.
Qed.

Lemma tagless_tail (c : char) (s : str) : tagless (c :: s) = true -> tagless s = true.
Proof.
  cbn [tagless]. destruct (is_char 60%N c); [|trivial].
  intros H. apply negb_true_iff in H. revert H. clear.
  induction s as [|d s IH]; [reflexivity|]. cbn [existsb tagless]. intros H.
  apply orb_false_iff in H. destruct H as [_ H].
  destruct (is_char 60%N d); [now rewrite H | now apply IH].
Qed.

Lemma tagless_skipn (j : nat) : forall s : str,
  tagless s = true -> tagless (skipn j s) = true.
Proof.
  induction j as [|j IH]; intros s H; [exact H|].
  destruct s as [|c s]; [reflexivity|]. cbn [skipn]. apply IH.
  now apply tagless_tail in H.
Qed.

(** A pattern for a tag, from its [<] to a [>], finds nothing in a
    text that holds no tag. *)
Lemma tag_pattern_silent (r : regex) (s : str) :
  needs (is_char 62%N) r -> tagless s = true ->
  finditer (compile (Cat (Cls (is_char 60%N)) r)) s = [].
Proof.
  intros Hr Hs. apply finditer_silent. intros j b must_advance.
  apply (tagless_skipn j) in Hs.
  destruct (compile _ b (skipn j s) must_advance) eqn:E; [exfalso | reflexivity].
  unfold compile in E. rewrite rmatch_cat, rmatch_cls in E.
  destruct (skipn j s) as [|c t]; [discriminate|].
  cbn [tagless] in Hs. destruct (is_char 60%N c); [|discriminate].
  apply negb_true_iff in Hs.
  assert (H : rmatch r (c :: b) 1 t [] (final must_advance) <> None) by congruence.
  apply Hr in H. congruence.
Qed.

Lemma needs_tag (name : string) :
  exists r, tag name = Cat (Cls (is_char 60%N)) r /\ needs (is_char 62%N) r.
Proof.
  eexists. split; [reflexivity|]. repeat apply needs_cat_r. apply needs_cls.
Qed.

Lemma needs_table_span :
  exists r, table_span = Cat (Cls (is_char 60%N)) r /\ needs (is_char 62%N) r.
Proof.
  eexists. split; [reflexivity|]. do 2 apply needs_cat_r. apply needs_cat_l.
  apply needs_cls.
Qed.

(** A greedy run of the characters outside a class, then one of the
    class: up to the first of them. *)
Lemma greedy_until (f : char -> bool) (must_advance : bool) (g : groups) :
  forall (s b : str) (n : nat),
    greedy_run (fun c => negb (f c))
      (fun b' n' s' g' => rmatch (Cls f) b' n' s' g' (final must_advance))
      0 b n s g
    = if existsb f s
      then Some (S (n + span (fun c => negb (f c)) s), g)
      else None.
Proof.
  induction s as [|c s IH]; intros b n; cbn [greedy_run Nat.eqb pred]; [reflexivity|].
  rewrite rmatch_cls. cbn [existsb span]. destruct (f c); cbn [negb orb].
  - unfold final. cbn [Nat.eqb]. now rewrite andb_false_r, Nat.add_0_r.
  - rewrite orelse_none_r, IH. now rewrite Nat.add_succ_r.
Qed.

(** The second-pass rule of the examples at a position: from a [<]
    to the first [>] after it. *)
Lemma compile_any_tag (b s : str) (must_advance : bool) :
  compile any_tag b s must_advance
  = match s with
    | c :: s' =>
        if is_char 60%N c && existsb (is_char 62%N) s'
        then Some (S (S (span (fun c => negb (is_char 62%N c)) s')), [])
        else None
    | [] => None
    end.
Proof.
  unfold compile, any_tag. rewrite rmatch_cat, rmatch_cls.
  destruct s as [|c s]; [reflexivity|]. destruct (is_char 60%N c); [|reflexivity].
  rewrite rmatch_cat. unfold star, not_char. rewrite rmatch_rep_cls.
  rewrite (greedy_until (is_char 62%N)). cbn [andb].
  now destruct (existsb (is_char 62%N) s).
Qed.

(** A substitution that puts newlines brings no [>] into a text. *)
Lemma scan_no_gt (p : pattern) : forall (s b : str) (skip : nat),
  existsb (is_char 62%N) s = false ->
  existsb (is_char 62%N) (pieces_text (const [NL]) (scan p b s skip)) = false.
Proof.
  induction s as [|c s IH]; intros b skip H; cbn [scan].
  - destruct skip; [|reflexivity]. now destruct (p b [] false) as [[n g]|].
  - cbn [existsb] in H. apply orb_false_iff in H. destruct H as [Hc H].
    destruct skip as [|k]; [|now apply IH].
    assert (Hkeep : forall k, existsb (is_char 62%N)
                      (pieces_text (const [NL]) (Keep c :: scan p (c :: b) s k)) = false).
    { intros k. rewrite pieces_text_keep. cbn [existsb]. rewrite Hc. now apply IH. }
    assert (Hhit : forall t g' k, existsb (is_char 62%N)
                     (pieces_text (const [NL]) (Hit t g' :: scan p (c :: b) s k)) = false).
    { intros t g' k. rewrite pieces_text_hit. unfold const. cbn [app existsb].
      change (is_char 62%N NL) with false. now apply IH. }
    destruct (p b (c :: s) false) as [[[|n] g]|]; [|apply Hhit | apply Hkeep].
    rewrite pieces_text_hit. unfold const at 1. cbn [app existsb].
    change (is_char 62%N NL) with false. cbn [orb].
    destruct (p b (c :: s) true) as [[[|n] g']|]; [apply Hkeep | apply Hhit | apply Hkeep].
Qed.

Lemma scan_any_tag_tagless : forall (s b : str) (skip : nat),
  tagless (pieces_text (const [NL]) (scan (compile any_tag) b s skip)) = true.
Proof.
  induction s as [|c s IH]; intros b skip; cbn [scan].
  - destruct skip; [|reflexivity]. now rewrite compile_any_tag.
  - destruct skip as [|k]; [|apply IH]. rewrite compile_any_tag.
    destruct (is_char 60%N c) eqn:Ec; cbn [andb].
    + destruct (existsb (is_char 62%N) s) eqn:Es.
      * rewrite pieces_text_hit. unfold const at 1. cbn [app tagless].
        change (is_char 60%N NL) with false. apply IH.
      * rewrite pieces_text_keep. cbn [tagless]. rewrite Ec.
        now rewrite scan_no_gt.
    + rewrite pieces_text_keep. cbn [tagless]. rewrite Ec. apply IH.
Qed.

Lemma spec_patterns_tags_only : tags_only spec_patterns.
Proof.
  split.
  - intros s Hs. split; [|split].
    + cbn [PAT_MU1 spec_patterns List.map snd].
      repeat constructor;
        match goal with
        | |- finditer (compile (tag ?name)) s = [] =>
            destruct (needs_tag name) as (r & -> & Hr); now apply tag_pattern_silent
        end.
    + cbn [PAT_TAB1 spec_patterns].
      destruct needs_table_span as (r & -> & Hr). now apply tag_pattern_silent.
    + cbn [PAT_MU2 spec_patterns]. apply tag_pattern_silent; [|exact Hs].
      apply needs_cat_r, needs_cls.
  - intros s. change (PAT_MU2 spec_patterns) with (compile any_tag).
    rewrite re_sub_pieces. apply scan_any_tag_tagless.
Qed.

(** Lines 59 and 60 neither bring a tag into a text nor take one out. *)
Lemma existsb_filter (f keep : char -> bool) (s : str) :
  (forall c, f c = true -> keep c = true) ->
  existsb f (filter keep s) = existsb f s.
Proof.
  intros H. induction s as [|c s IH]; [reflexivity|]. cbn [filter existsb].
  destruct (keep c) eqn:Ek; cbn [existsb]; rewrite IH; [reflexivity|].
  destruct (f c) eqn:Ef; [|reflexivity]. apply H in Ef. congruence.
Qed.

Lemma tagless_filter (keep : char -> bool) (s : str) :
  keep 60%N = true -> keep 62%N = true ->
  tagless (filter keep s) = tagless s.
Proof.
  intros H60 H62. induction s as [|c s IH]; [reflexivity|]. cbn [filter tagless].
  destruct (is_char 60%N c) eqn:Ec.
  - apply is_char_eq in Ec. subst c. rewrite H60. cbn [tagless].
    change (is_char 60%N 60%N) with true. cbv iota. f_equal.
    apply existsb_filter. intros c Hc. apply is_char_eq in Hc. now subst c.
  - destruct (keep c); [|exact IH]. cbn [tagless]. now rewrite Ec.
Qed.

Lemma clean_filing_text_tagless (P : parsing_patterns) (decode : str -> str) (x : str) :
  tags_only P -> tagless (clean_filing_text P decode x) = true.
Proof.
  intros [_ H].
  rewrite <- (tagless_filter visible) by reflexivity.
  rewrite clean_filing_text_visible, (tagless_filter visible) by reflexivity.
  apply H.
Qed.

Lemma unwrap_rules_fixed (l : list pattern) (s : str) :
  Forall (fun v => finditer v s = []) l ->
  fold_left (fun t v => re_sub v (const [NL]) t) l s = s.
Proof.
  induction 1 as [|v l Hv Hl IH]; [reflexivity|]. cbn [fold_left].
  now rewrite (re_sub_no_hit v _ s Hv).
Qed.

(** ** Idempotence *)

(** Claim C4, as stated, fails: [html.unescape] decodes one level of
    character references per run, so a doubly escaped ampersand is
    normalised to [&amp;] and that to [&]. *)
Lemma clean_filing_text_not_idempotent :
  clean_filing_text spec_patterns py_unescape escaped_twice = lit "&amp;"
  /\ clean_filing_text spec_patterns py_unescape
       (clean_filing_text spec_patterns py_unescape escaped_twice) = lit "&"
  /\ clean_filing_text spec_patterns py_unescape
       (clean_filing_text spec_patterns py_unescape escaped_twice)
     <> clean_filing_text spec_patterns py_unescape escaped_twice.
Proof.
  split; [vm_compute; reflexivity|]. split; [vm_compute; reflexivity|].
  vm_compute. discriminate.
Qed.

(** Claim C4, amended: when the patterns of the normaliser recognise
    tags only, normalising twice gives the same text as normalising
    once for every input whose normalised text [html.unescape] leaves
    as it is: a second run can only decode what the first has left. *)
Theorem clean_filing_text_idempotent (P : parsing_patterns)
    (decode : str -> str) (x : str) :
  tags_only P ->
  decode (clean_filing_text P decode x) = clean_filing_text P decode x ->
  clean_filing_text P decode (clean_filing_text P decode x)
  = clean_filing_text P decode x.
Proof.
  intros HP Hd.
  pose proof (clean_filing_text_tagless P decode x HP) as Ht.
  destruct HP as [HP _]. destruct (HP _ Ht) as (H1 & H2 & H3).
  rewrite (clean_filing_text_steps P decode (clean_filing_text P decode x)).
  unfold unwrap_steps at 1.
  rewrite (unwrap_rules_fixed _ _ H1), Hd, (re_sub_no_hit _ _ _ H2),
    (re_sub_no_hit _ _ _ H3).
  rewrite clean_filing_text_steps. apply blank_steps_idem.
Qed.

Lemma clean_filing_text_idempotent_witness :
  clean_filing_text spec_patterns py_unescape sample_filing
  = lit "Results" ++ [NL; NL] ++ lit "Sales & costs"
  /\ clean_filing_text spec_patterns py_unescape
       (clean_filing_text spec_patterns py_unescape sample_filing)
     = clean_filing_text spec_patterns py_unescape sample_filing.
Proof.
  split; [vm_compute; reflexivity|].
  refine (clean_filing_text_idempotent spec_patterns py_unescape sample_filing
            spec_patterns_tags_only _).
  vm_compute. reflexivity.
Defined.

(** * The drivers *)

(** ** The quarters of a run *)

Lemma in_py_range (lo hi i : Z) : In i (py_range lo hi) <-> (lo <= i < hi)%Z.
Proof.
  unfold py_range. rewrite in_map_iff. split.
  - intros (k & <- & Hk). apply in_seq in Hk. lia.
  - intros H. exists (Z.to_nat (i - lo)). split; [lia|]. apply in_seq. lia.
Qed.

Lemma NoDup_map_inj {A B : Type} (f : A -> B) (l : list A) :
  (forall x y, f x = f y -> x = y) -> NoDup l -> NoDup (List.map f l).
Proof.
  intros Hf. induction 1 as [|x l Hx Hl IH]; cbn [List.map]; constructor; [|exact IH].
  intros Hin. apply in_map_iff in Hin. destruct Hin as (y & E & Hy).
  apply Hf in E. now subst y.
Qed.

Lemma NoDup_py_range (lo hi : Z) : NoDup (py_range lo hi).
Proof.
  unfold py_range. apply NoDup_map_inj; [intros x y; lia | apply seq_NoDup].
Qed.

Lemma NoDup_list_prod {A B : Type} (l : list A) (l' : list B) :
  NoDup l -> NoDup l' -> NoDup (list_prod l l').
Proof.
  intros Hl Hl'. induction Hl as [|x l Hx Hl IH]; cbn [list_prod]; [constructor|].
  apply NoDup_app; [|exact IH|].
  - apply NoDup_map_inj; [now intros y z [= ->] | exact Hl'].
  - intros [a b] Hin Hin'. apply in_map_iff in Hin. destruct Hin as (y & [= <- <-] & _).
    apply in_prod_iff in Hin'. now destruct Hin'.
Qed.

(** The quarters of a run: the quarters 1 to 4 of the years from
    [start] to [end], both included, once each. *)
Lemma in_quarters (start end_ year qtr : Z) :
  In (year, qtr) (quarters start end_)
  <-> (start <= year <= end_ /\ 1 <= qtr <= 4)%Z.
Proof. unfold quarters. rewrite in_prod_iff, !in_py_range. lia. Qed.

Lemma NoDup_quarters (start end_ : Z) : NoDup (quarters start end_).
Proof. unfold quarters. apply NoDup_list_prod; apply NoDup_py_range. Qed.

Lemma quarters_empty (start end_ : Z) :
  (end_ < start)%Z -> quarters start end_ = [].
Proof.
  intros H. unfold quarters. unfold py_range at 1.
  replace (Z.to_nat (end_ + 1 - start)) with 0 by lia. reflexivity.
Qed.

(** ** Which files are filings *)

Lemma compile_cls (f : char -> bool) (b s : str) (must_advance : bool) :
  compile (Cls f) b s must_advance
  = match s with
    | c :: _ => if f c then Some (1, []) else None
    | [] => None
    end.
Proof.
  unfold compile, final. cbn [rmatch]. destruct s as [|c s]; [reflexivity|].
  destruct (f c); [|reflexivity]. cbn [Nat.eqb]. now rewrite andb_false_r.
Qed.

Lemma search_cls (f : char -> bool) : forall (s b : str),
  hd_error (flat_map (fun x => match x with Keep _ => [] | Hit t g => [(t, g)] end)
                     (scan (compile (Cls f)) b s 0))
  = if existsb f s then hd_error [(firstn 1 (skipn (span (fun c => negb (f c)) s) s),
                                    @nil (nat * str))]
    else None.
Proof.
  induction s as [|c s IH]; intros b; cbn [scan]; rewrite compile_cls; [reflexivity|].
  cbn [existsb span]. destruct (f c); [reflexivity|].
  cbn [flat_map app orb negb skipn]. apply IH.
Qed.

Lemma is_filing_eq (f : path) :
  is_filing f = negb (existsb (is_char UNDERSCORE) (path_str f)).
Proof.
  unfold is_filing, re_search, finditer. rewrite search_cls.
  now destruct (existsb (is_char UNDERSCORE) (path_str f)).
Qed.

Lemma split_on_none (a : char) (t : str) :
  forallb (fun c => negb (is_char a c)) t = true -> split_on a t = [t].
Proof.
  induction t as [|c t IH]; [reflexivity|]. cbn [forallb split_on]. intros H.
  apply andb_true_iff in H. destruct H as [H1 H2]. apply negb_true_iff in H1.
  now rewrite H1, (IH H2).
Qed.

Lemma split_on_tail (a : char) (t : str) :
  forallb (fun c => negb (is_char a c)) t = true ->
  forall s : str, exists l x, split_on a (s ++ t) = l ++ [x ++ t].
Proof.
  intros Ht. induction s as [|c s (l & x & IH)].
  - exists [], []. now apply split_on_none.
  - cbn [app split_on]. destruct (is_char a c).
    + exists ([] :: l), x. now rewrite IH.
    + rewrite IH. destruct l as [|y l].
      * now exists [], (c :: x).
      * now exists ((c :: y) :: l), x.
Qed.

Lemma lstrip_char_tail (a : char) (t : str) :
  starts_with a t = false -> t <> [] ->
  forall s : str, exists s', lstrip_char a (s ++ t) = s' ++ t.
Proof.
  intros Ht Hne. induction s as [|c s [s' IH]].
  - exists []. destruct t as [|c t]; [now elim Hne|]. cbn [app lstrip_char].
    cbn [starts_with] in Ht. now rewrite Ht.
  - cbn [app lstrip_char]. destruct (is_char a c); [now exists s'|].
    now exists (c :: s).
Qed.

Lemma existsb_join_last (f : char -> bool) (sep : str) (x : str) :
  existsb f x = true ->
  forall l : list str, existsb f (join sep (l ++ [x])) = true.
Proof.
  intros Hx. induction l as [|y l IH]; [exact Hx|].
  cbn [app join]. destruct (l ++ [x]) as [|z l'] eqn:E; [now destruct l|].
  rewrite !existsb_app, IH. now rewrite !orb_true_r.
Qed.

Lemma underscore_not_slash (t : str) :
  forallb (fun c => negb (is_char SLASH c)) t = true ->
  existsb (is_char UNDERSCORE) t = true ->
  t <> [] /\ starts_with SLASH t = false.
Proof.
  destruct t as [|c t]; [discriminate|]. cbn [forallb starts_with]. intros H _.
  apply andb_true_iff in H. destruct H as [H _]. apply negb_true_iff in H.
  split; [discriminate|exact H].
Qed.

Lemma splitroot_tail (s t : str) :
  t <> [] -> starts_with SLASH t = false ->
  exists r s', splitroot (s ++ t) = (r, s' ++ t).
Proof.
  intros Hne Ht. unfold splitroot.
  destruct (s ++ t) as [|c a] eqn:E.
  - destruct s; [now elim Hne | discriminate].
  - destruct (is_char SLASH c); [|exists [], s; now rewrite E].
    rewrite <- E. destruct (lstrip_char_tail SLASH t Ht Hne s) as [s' ->].
    cbv zeta. destruct (_ =? 2); [now exists [SLASH; SLASH], s' | now exists [SLASH], s'].
Qed.

Lemma components_tail (s t : str) :
  forallb (fun c => negb (is_char SLASH c)) t = true ->
  existsb (is_char UNDERSCORE) t = true ->
  exists l x, components (s ++ t) = l ++ [x ++ t].
Proof.
  intros Ht Hu. destruct (split_on_tail SLASH t Ht s) as (l & x & E).
  exists (filter (fun x => negb (str_eqb x []) && negb (str_eqb x (lit "."))) l), x.
  unfold components. rewrite E, filter_app. cbn [filter].
  assert (Hx : existsb (is_char UNDERSCORE) (x ++ t) = true)
    by (rewrite existsb_app, Hu; apply orb_true_r).
  rewrite !str_eqb_neq; [reflexivity | |]; intros E'; rewrite E' in Hx; discriminate.
Qed.

Lemma path_str_last (r : str) (ps : list str) (x : str) :
  existsb (is_char UNDERSCORE) x = true ->
  existsb (is_char UNDERSCORE) (path_str {| root := r; parts := ps ++ [x] |}) = true.
Proof.
  intros Hx. unfold path_str. cbn [root parts].
  pose proof (existsb_join_last (is_char UNDERSCORE) [SLASH] x Hx ps) as H.
  assert (H' : existsb (is_char UNDERSCORE) (r ++ join [SLASH] (ps ++ [x])) = true)
    by (rewrite existsb_app, H; apply orb_true_r).
  destruct (r ++ join [SLASH] (ps ++ [x])); [discriminate | exact H'].
Qed.

(** A path whose last argument ends with a piece of a name that holds
    an underscore has an underscore in its string. *)
Lemma path_last_underscore (args : list str) (s t : str) :
  forallb (fun c => negb (is_char SLASH c)) t = true ->
  existsb (is_char UNDERSCORE) t = true ->
  existsb (is_char UNDERSCORE) (path_str (Path (args ++ [s ++ t]))) = true.
Proof.
  intros Ht Hu. destruct (underscore_not_slash t Ht Hu) as [Hne Hs].
  unfold Path. rewrite rev_app_distr. cbn [rev app parse_parts].
  destruct (splitroot_tail s t Hne Hs) as (r & s' & ->).
  destruct (components_tail s' t Ht Hu) as (l & x & ->).
  assert (Hx : existsb (is_char UNDERSCORE) (x ++ t) = true)
    by (rewrite existsb_app, Hu; apply orb_true_r).
  destruct r as [|c r].
  - rewrite app_assoc. now apply path_str_last.
  - now apply path_str_last.
Qed.

Lemma path_last_not_filing (args : list str) (s t : str) :
  forallb (fun c => negb (is_char SLASH c)) t = true ->
  existsb (is_char UNDERSCORE) t = true ->
  is_filing (Path (args ++ [s ++ t])) = false.
Proof. intros Ht Hu. now rewrite is_filing_eq, path_last_underscore. Qed.

Lemma path_mda_not_filing (filing : path) : is_filing (path_mda filing) = false.
Proof. unfold path_mda, Path_from. now apply path_last_not_filing. Qed.

Lemma path_item1_not_filing (filing : path) : is_filing (path_item1 filing) = false.
Proof. unfold path_item1, Path_from. now apply path_last_not_filing. Qed.

Lemma path_log_not_filing (form_type : str) (log : string) :
  forallb (fun c => negb (is_char SLASH c)) (lit log) = true ->
  existsb (is_char UNDERSCORE) (lit log) = true ->
  is_filing (path_log form_type log) = false.
Proof.
  intros Ht Hu. unfold path_log.
  apply (path_last_not_filing [lit "output"; lit "filings"; form_type] [] (lit log) Ht Hu).
Qed.

(** Property X12: a file is taken as a filing exactly when the string
    of its path, directories included, holds no underscore.  The
    excerpt files and the logs that the drivers write hold one: they
    are never taken as filings. *)
Theorem outputs_are_not_filings (filing : path) (form_type : str) :
  (forall f, is_filing f = negb (existsb (is_char UNDERSCORE) (path_str f)))
  /\ is_filing (path_mda filing) = false
  /\ is_filing (path_item1 filing) = false
  /\ is_filing (path_log form_type "log_parse.txt") = false
  /\ is_filing (path_log form_type "log_extract_mda.txt") = false
  /\ is_filing (path_log form_type "log_extract_item1.txt") = false.
Proof.
  split; [exact is_filing_eq|].
  split; [apply path_mda_not_filing|]. split; [apply path_item1_not_filing|].
  split; [|split]; now apply path_log_not_filing.
Qed.

(** ** Commands and loops *)

Lemma file_at_put (p q : path) (v : str) (w : world) :
  file_at (files (put q v w)) p
  = if path_eq_dec p q then Some v else file_at (files w) p.
Proof. reflexivity. Qed.

Lemma file_at_put_other (p q : path) (v : str) (w : world) :
  p <> q -> file_at (files (put q v w)) p = file_at (files w) p.
Proof. intros H. rewrite file_at_put. now destruct (path_eq_dec p q). Qed.

Lemma file_at_put_same (p : path) (v : str) (w : world) :
  file_at (files (put p v w)) p = Some v.
Proof. rewrite file_at_put. now destruct (path_eq_dec p p). Qed.

(** An invariant of the body is an invariant of the loop. *)
Lemma for_each_inv {A : Type} (I : world -> Prop) (body : A -> io unit) :
  forall l : list A,
    (forall x w, In x l -> I w -> I (fst (body x w))) ->
    forall w, I w -> I (fst (for_each l body w)).
Proof.
  induction l as [|x l IH]; intros Hbody w Hw; [exact Hw|].
  cbn [for_each]. unfold bind.
  pose proof (Hbody x w (or_introl eq_refl) Hw) as Hx.
  destruct (body x w) as [w' [u|e]]; cbn [fst] in *; [|exact Hx].
  apply IH; [|exact Hx]. intros y w0 Hy. apply Hbody. now right.
Qed.

(** The same for a loop that comes to its end: only the rounds that
    come to their end count. *)
Lemma for_each_inv_done {A : Type} (I : world -> Prop) (body : A -> io unit) :
  forall l : list A,
    (forall x w w', In x l -> I w -> body x w = (w', Done tt) -> I w') ->
    forall w w', I w -> for_each l body w = (w', Done tt) -> I w'.
Proof.
  induction l as [|x l IH]; intros Hbody w w' Hw E.
  - cbn in E. now injection E as <-.
  - cbn [for_each] in E. unfold bind in E.
    destruct (body x w) as [w1 [[]|e]] eqn:Ex; [|discriminate].
    apply (IH (fun y w0 w0' Hy => Hbody y w0 w0' (or_intror Hy)) w1 w');
      [|exact E].
    now apply (Hbody x w w1 (or_introl eq_refl)).
Qed.

(** What a loop that comes to its end has done for each element, when
    the body only moves the world forward in an order [R]. *)
Lemma for_each_done {A : Type} (R : world -> world -> Prop) (body : A -> io unit) :
  (forall w, R w w) -> (forall w1 w2 w3, R w1 w2 -> R w2 w3 -> R w1 w3) ->
  (forall x w, R w (fst (body x w))) ->
  forall (l : list A) (w w' : world),
    for_each l body w = (w', Done tt) ->
    R w w'
    /\ forall x, In x l ->
         exists w1 w2, R w w1 /\ body x w1 = (w2, Done tt) /\ R w2 w'.
Proof.
  intros Hrefl Htrans Hbody. induction l as [|x l IH]; intros w w' E.
  - cbn in E. injection E as <-. split; [apply Hrefl | intros x []].
  - cbn [for_each] in E. unfold bind in E.
    pose proof (Hbody x w) as Hx.
    destruct (body x w) as [w1 [[]|e]] eqn:Ex; [|discriminate].
    cbn [fst] in Hx. destruct (IH w1 w' E) as [H1 H2].
    split; [now apply Htrans with w1|].
    intros y [<-|Hy].
    + exists w, w1. split; [apply Hrefl|]. now split.
    + destruct (H2 y Hy) as (w2 & w3 & Ha & Hb & Hc).
      exists w2, w3. split; [now apply Htrans with w1|]. now split.
Qed.

(** A loop whose rounds all leave the world as it is leaves it as it is. *)
Lemma for_each_skip {A : Type} (body : A -> io unit) (w : world) :
  forall l : list A,
    (forall x, In x l -> body x w = (w, Done tt)) ->
    for_each l body w = (w, Done tt).
Proof.
  induction l as [|x l IH]; intros H; [reflexivity|].
  cbn [for_each]. unfold bind. rewrite (H x (or_introl eq_refl)).
  apply IH. intros y Hy. apply H. now right.
Qed.

Ltac open_step :=
  unfold write_log, strftime_now, append_text, write_text, read_text,
    path_exists, ret;
  unfold bind; cbv beta iota zeta delta [negb].

Ltac look_up :=
  cbn [fst files put file_at clock] in *;
  repeat match goal with
         | |- context [path_eq_dec ?p ?q] =>
             destruct (path_eq_dec p q); try congruence
         end.

(** ** One round of an extraction *)

Section ExtractStep.

Variable timestamp : nat -> str.
Variables (target log filing : path) (excerpt : str -> str) (what : string).

Let step : io unit :=
  present <- path_exists target ;;
  if negb present then
    txt <- read_text filing ;;
    let x := excerpt txt in
    write_text false target x ;;;
    write_log timestamp log what target (length x)
  else ret tt.

(** Nothing is done for a filing whose excerpt file is there. *)
Lemma step_present (w : world) :
  file_at (files w) target <> None -> step w = (w, Done tt).
Proof.
  intros H. unfold step. open_step.
  now destruct (file_at (files w) target).
Qed.

(** Apart from the excerpt file and the log no file is touched. *)
Lemma step_frame (w : world) (p : path) :
  p <> target -> p <> log ->
  file_at (files (fst (step w))) p = file_at (files w) p.
Proof.
  intros Ht Hl. unfold step. open_step.
  destruct (file_at (files w) target); cbv beta iota zeta; [reflexivity|].
  destruct (file_at (files w) filing); cbv beta iota zeta; [|reflexivity].
  destruct (forallb encodable (excerpt _)); cbv beta iota zeta; [|now look_up].
  destruct (forallb encodable (log_line _ _ _ _)); cbv beta iota zeta; now look_up.
Qed.

(** No file is lost. *)
Lemma step_grows (w : world) (p : path) :
  file_at (files w) p <> None -> file_at (files (fst (step w))) p <> None.
Proof.
  intros H. unfold step. open_step.
  destruct (file_at (files w) target) eqn:Et; cbv beta iota zeta; [exact H|].
  destruct (file_at (files w) filing); cbv beta iota zeta; [|exact H].
  destruct (forallb encodable (excerpt _)); cbv beta iota zeta; [|now look_up].
  destruct (forallb encodable (log_line _ _ _ _)); cbv beta iota zeta; now look_up.
Qed.

(** A file that appears is the excerpt file or the log. *)
Lemma step_new (w : world) (p : path) :
  file_at (files (fst (step w))) p <> None ->
  file_at (files w) p <> None \/ p = target \/ p = log.
Proof.
  destruct (path_eq_dec p target) as [->|Ht]; [now right; left|].
  destruct (path_eq_dec p log) as [->|Hl]; [now right; right|].
  rewrite (step_frame w p Ht Hl). now left.
Qed.

(** After a round that comes to its end the excerpt file is there. *)
Lemma step_done (w w' : world) :
  step w = (w', Done tt) -> file_at (files w') target <> None.
Proof.
  unfold step. open_step.
  destruct (file_at (files w) target) eqn:Et; cbv beta iota zeta.
  - intros [= <-]. now rewrite Et.
  - destruct (file_at (files w) filing); cbv beta iota zeta; [|discriminate].
    destruct (forallb encodable (excerpt _)); cbv beta iota zeta; [|discriminate].
    destruct (forallb encodable (log_line _ _ _ _)); cbv beta iota zeta;
      [|discriminate].
    intros [= <-]. now look_up.
Qed.

(** The excerpt file that a round writes holds the excerpt of the text
    of the filing. *)
Lemma step_content (w w' : world) :
  file_at (files w) target = None -> target <> log ->
  step w = (w', Done tt) ->
  exists u, file_at (files w) filing = Some u
            /\ file_at (files w') target = Some (excerpt (universal_newlines false u)).
Proof.
  intros Et Hl. unfold step. open_step.
  rewrite Et. cbv beta iota zeta.
  destruct (file_at (files w) filing) as [u|]; cbv beta iota zeta; [|discriminate].
  destruct (forallb encodable (excerpt _)); cbv beta iota zeta; [|discriminate].
  destruct (forallb encodable (log_line _ _ _ _)); cbv beta iota zeta; [|discriminate].
  intros [= <-]. exists u. split; [reflexivity|]. now look_up.
Qed.

(** A log that is there is only added to. *)
Lemma step_log (w : world) (old : str) :
  file_at (files w) log = Some old ->
  exists added, file_at (files (fst (step w))) log = Some (old ++ added).
Proof.
  intros Ho.
  assert (Hsame : exists added, file_at (files w) log = Some (old ++ added))
    by (exists []; now rewrite app_nil_r).
  unfold step. open_step.
  destruct (file_at (files w) target) eqn:Et; cbv beta iota zeta; [exact Hsame|].
  assert (Ht : log <> target) by (intros E; rewrite E, Et in Ho; discriminate).
  destruct (file_at (files w) filing); cbv beta iota zeta; [|exact Hsame].
  destruct (forallb encodable (excerpt _)); cbv beta iota zeta;
    [|cbn [fst]; now rewrite file_at_put_other].
  destruct (forallb encodable (log_line _ _ _ _)); cbv beta iota zeta;
    cbn [fst files put file_at clock];
    (destruct (path_eq_dec log log) as [_|Hn]; [|now elim Hn]);
    (destruct (path_eq_dec log target) as [E|_]; [now elim Ht|]);
    rewrite Ho; [now eexists | exists []; now rewrite app_nil_r].
Qed.

End ExtractStep.

(** ** The loops of an extraction *)

Lemma quarter_body (rglob : tree -> path -> list path) (form_type : str)
    (yq : Z * Z) (body : path -> io unit) (w : world) :
  (filings <- filings_of rglob form_type (fst yq) (snd yq) ;; for_each filings body) w
  = for_each (filter is_filing
                (rglob (files w) (path_filings_dir form_type (fst yq) (snd yq))))
             body w.
Proof. reflexivity. Qed.

Section ExtractLoop.

Variable rglob : tree -> path -> list path.
Variable timestamp : nat -> str.
Variables (target : path -> path) (log : path) (excerpt : str -> str) (what : string).
Variables (start end_ : Z) (form_type : str).

Hypothesis target_not_filing : forall f, is_filing (target f) = false.
Hypothesis log_not_filing : is_filing log = false.

Let step (filing : path) : io unit :=
  present <- path_exists (target filing) ;;
  if negb present then
    txt <- read_text filing ;;
    let x := excerpt txt in
    write_text false (target filing) x ;;;
    write_log timestamp log what (target filing) (length x)
  else ret tt.

Let run : io unit :=
  for_each (quarters start end_) (fun yq =>
    filings <- filings_of rglob form_type (fst yq) (snd yq) ;;
    for_each filings step).

Lemma run_inv (I : world -> Prop) :
  (forall f w, is_filing f = true -> I w -> I (fst (step f w))) ->
  forall w, I w -> I (fst (run w)).
Proof.
  intros Hstep. unfold run. apply for_each_inv. intros yq w _ Hw.
  rewrite quarter_body. apply for_each_inv; [|exact Hw].
  intros f w1 Hf. apply filter_In in Hf. now apply Hstep.
Qed.

(** A file that was there, or that can be a filing, is left as it is:
    the log apart. *)
Lemma run_frame (w : world) (p : path) :
  file_at (files w) p <> None \/ is_filing p = true -> p <> log ->
  file_at (files (fst (run w))) p = file_at (files w) p.
Proof.
  intros Hp Hl.
  apply (run_inv (fun w1 => file_at (files w1) p = file_at (files w) p));
    [|reflexivity].
  intros f w1 _ E. destruct (path_eq_dec p (target f)) as [->|Ht].
  - unfold step. rewrite step_present; [exact E|]. rewrite E.
    destruct Hp as [Hp|Hp]; [exact Hp|]. rewrite target_not_filing in Hp. discriminate.
  - unfold step. now rewrite step_frame.
Qed.

Lemma run_grows (w : world) : grows w (fst (run w)).
Proof.
  apply (run_inv (grows w)); [|now intros p].
  intros f w1 _ H p Hp. unfold step. apply step_grows. now apply H.
Qed.

(** A file that appears cannot be a filing. *)
Lemma run_new (w : world) (p : path) :
  file_at (files (fst (run w))) p <> None ->
  file_at (files w) p <> None \/ is_filing p = false.
Proof.
  apply (run_inv (fun w1 => file_at (files w1) p <> None ->
                            file_at (files w) p <> None \/ is_filing p = false));
    [|now left].
  intros f w1 _ H Hp. unfold step in Hp. apply step_new in Hp.
  destruct Hp as [Hp|[->| ->]]; [now apply H | now right | now right].
Qed.

Lemma run_inv_done (I : world -> Prop) :
  (forall f w1 w2, is_filing f = true -> I w1 -> step f w1 = (w2, Done tt) -> I w2) ->
  forall w w', I w -> run w = (w', Done tt) -> I w'.
Proof.
  intros Hstep. unfold run. apply for_each_inv_done. intros yq w1 w2 _ Hw E.
  rewrite quarter_body in E. revert E. apply for_each_inv_done; [|exact Hw].
  intros f w3 w4 Hf. apply filter_In in Hf. now apply Hstep.
Qed.

(** After a run that comes to its end, a file that has appeared, the
    log apart, is the excerpt file of a filing and holds the excerpt
    of its text. *)
Lemma run_content (w w' : world) :
  run w = (w', Done tt) ->
  forall p v,
    file_at (files w) p = None -> p <> log -> file_at (files w') p = Some v ->
    exists f u, target f = p /\ is_filing f = true
                /\ file_at (files w) f = Some u
                /\ v = excerpt (universal_newlines false u).
Proof.
  intros E p v Hp Hl.
  assert (J : (forall q, is_filing q = true ->
                 file_at (files w') q = file_at (files w) q)
              /\ (file_at (files w') p = Some v ->
                  exists f u, target f = p /\ is_filing f = true
                              /\ file_at (files w) f = Some u
                              /\ v = excerpt (universal_newlines false u))).
  { revert E.
    apply (run_inv_done
             (fun w1 => (forall q, is_filing q = true ->
                           file_at (files w1) q = file_at (files w) q)
                        /\ (file_at (files w1) p = Some v ->
                            exists f u, target f = p /\ is_filing f = true
                                        /\ file_at (files w) f = Some u
                                        /\ v = excerpt (universal_newlines false u)))).
    - intros f w1 w2 Hf [J1 J2] E. split.
      + intros q Hq. rewrite <- (J1 q Hq).
        replace w2 with (fst (step f w1)) by now rewrite E.
        unfold step. apply step_frame; intros ->; congruence.
      + intros Hv. destruct (path_eq_dec p (target f)) as [->|Ht].
        * destruct (file_at (files w1) (target f)) as [v1|] eqn:E1.
          -- unfold step in E. rewrite step_present in E by (rewrite E1; discriminate).
             injection E as <-. apply J2. congruence.
          -- unfold step in E. apply step_content in E; [|exact E1|exact Hl].
             destruct E as (u & Eu & Ev). exists f, u.
             rewrite (J1 f Hf) in Eu. rewrite Ev in Hv. injection Hv as <-.
             now repeat split.
        * apply J2. rewrite <- Hv.
          replace w2 with (fst (step f w1)) by now rewrite E.
          unfold step. symmetry. now apply step_frame.
    - split; [reflexivity|]. rewrite Hp. discriminate. }
  apply J.
Qed.

(** A log that is there is only added to. *)
Lemma run_log (w : world) (old : str) :
  file_at (files w) log = Some old ->
  exists added, file_at (files (fst (run w))) log = Some (old ++ added).
Proof.
  intros Ho.
  apply (run_inv (fun w1 => exists added, file_at (files w1) log = Some (old ++ added)));
    [|exists []; now rewrite app_nil_r].
  intros f w1 _ [added E]. unfold step.
  destruct (step_log timestamp (target f) log f excerpt what w1 _ E) as [more E'].
  exists (added ++ more). now rewrite app_assoc.
Qed.

Hypothesis rglob_lists : lists_files rglob.

(** A file that appears, the log apart, is the excerpt file of a
    filing in the directory of a quarter of the run. *)
Lemma run_origin (w : world) (p : path) :
  p <> log -> file_at (files w) p = None ->
  file_at (files (fst (run w))) p <> None ->
  exists yq f,
    In yq (quarters start end_)
    /\ beneath (path_filings_dir form_type (fst yq) (snd yq)) f = true
    /\ is_txt f = true /\ is_filing f = true /\ p = target f.
Proof.
  intros Hl Hp. unfold run.
  apply (for_each_inv
           (fun w1 =>
              file_at (files w1) p <> None ->
              exists yq f,
                In yq (quarters start end_)
                /\ beneath (path_filings_dir form_type (fst yq) (snd yq)) f = true
                /\ is_txt f = true /\ is_filing f = true /\ p = target f)).
  - intros yq w1 Hyq H. rewrite quarter_body.
    apply (for_each_inv
             (fun w2 =>
                file_at (files w2) p <> None ->
                exists yq f,
                  In yq (quarters start end_)
                  /\ beneath (path_filings_dir form_type (fst yq) (snd yq)) f = true
                  /\ is_txt f = true /\ is_filing f = true /\ p = target f));
      [|exact H].
    intros f w2 Hf H2 Hn. apply filter_In in Hf. destruct Hf as [Hf Hfil].
    apply rglob_lists in Hf. destruct Hf as (_ & Hb & Ht).
    unfold step in Hn. apply step_new in Hn. destruct Hn as [Hn|[->| ->]].
    + now apply H2.
    + exists yq, f. now repeat split.
    + now elim Hl.
  - intros H. now elim H.
Qed.

(** After a run that comes to its end every filing of its quarters has
    its excerpt file. *)
Lemma run_done (w w' : world) :
  run w = (w', Done tt) ->
  forall yq f,
    In yq (quarters start end_) ->
    In f (rglob (files w) (path_filings_dir form_type (fst yq) (snd yq))) ->
    is_filing f = true ->
    file_at (files w') (target f) <> None.
Proof.
  assert (Hrefl : forall w0, grows w0 w0) by (now intros w0 p).
  assert (Htrans : forall w1 w2 w3, grows w1 w2 -> grows w2 w3 -> grows w1 w3)
    by (intros w1 w2 w3 H1 H2 p Hp; now apply H2, H1).
  assert (Hstep : forall f w0, grows w0 (fst (step f w0)))
    by (intros f w0 p Hp; unfold step; now apply step_grows).
  intros E yq f Hyq Hf Hfil.
  apply (for_each_done grows _ Hrefl Htrans) in E.
  - destruct E as [_ E]. destruct (E yq Hyq) as (w1 & w2 & H1 & E1 & H2).
    rewrite quarter_body in E1.
    apply (for_each_done grows _ Hrefl Htrans Hstep) in E1.
    destruct E1 as [_ E1]. destruct (E1 f) as (w3 & w4 & _ & E3 & H4).
    + apply filter_In. split; [|exact Hfil].
      apply rglob_lists. apply rglob_lists in Hf. destruct Hf as (Hf & Hb).
      split; [now apply H1 | exact Hb].
    + unfold step in E3. apply step_done in E3. now apply H2, H4.
  - intros x w0. rewrite quarter_body. apply for_each_inv; [|apply Hrefl].
    intros f0 w1 _ H. apply Htrans with w1; [exact H | apply Hstep].
Qed.

(** A second run finds every excerpt file and does nothing. *)
Lemma run_again (w w' : world) :
  run w = (w', Done tt) -> run w' = (w', Done tt).
Proof.
  intros E. unfold run. apply for_each_skip. intros yq Hyq.
  rewrite quarter_body. apply for_each_skip. intros f Hf.
  apply filter_In in Hf. destruct Hf as [Hf Hfil].
  unfold step. apply step_present.
  apply (run_done w w' E yq f Hyq); [|exact Hfil].
  apply rglob_lists. apply rglob_lists in Hf. destruct Hf as (Hf & Hb).
  split; [|exact Hb].
  replace w' with (fst (run w)) in Hf by now rewrite E.
  apply run_new in Hf. destruct Hf as [Hf|Hf]; [exact Hf | congruence].
Qed.

End ExtractLoop.

(** ** The lister of the examples *)

Lemma file_at_in (t : tree) (p : path) :
  file_at t p <> None <-> In p (List.map fst t).
Proof.
  induction t as [|[q v] t IH]; cbn [file_at List.map fst In]; [tauto|].
  destruct (path_eq_dec p q) as [->|Hq].
  - split; [now left | discriminate].
  - rewrite IH. split; [now right | intros [E|H]; [now elim Hq | exact H]].
Qed.

Lemma list_tree_lists : lists_files list_tree.
Proof.
  intros t d. unfold list_tree. split.
  - apply NoDup_filter, NoDup_nodup.
  - intros p. rewrite filter_In, nodup_In, <- file_at_in, andb_true_iff. tauto.
Qed.

(** ** What an extraction leaves alone *)

(** Property X13: [extract_mda] and [extract_item1] change and remove
    no file that is there when they start, and no file that can be
    taken as a filing: they write new excerpt files and their own log
    only, also when an error ends the run. *)
Theorem extraction_keeps_files (P : parsing_patterns)
    (rglob : tree -> path -> list path) (timestamp : nat -> str)
    (start end_ : Z) (form_type : str) (w : world) (p : path) :
  file_at (files w) p <> None \/ is_filing p = true ->
  (p <> path_log form_type "log_extract_mda.txt" ->
   file_at (files (fst (extract_mda P rglob timestamp start end_ form_type w))) p
   = file_at (files w) p)
  /\ (p <> path_log form_type "log_extract_item1.txt" ->
      file_at (files (fst (extract_item1 P rglob timestamp start end_ form_type w))) p
      = file_at (files w) p).
Proof.
  intros Hp. split; intros Hl.
  - exact (run_frame rglob timestamp path_mda
             (path_log form_type "log_extract_mda.txt")
             (fun txt => clean_mda_text P txt form_type)
             "MD&A extraction successful!" start end_ form_type
             path_mda_not_filing w p Hp Hl).
  - exact (run_frame rglob timestamp path_item1
             (path_log form_type "log_extract_item1.txt")
             (fun txt => clean_item1_text P txt)
             "Item 1 extraction successful!" start end_ form_type
             path_item1_not_filing w p Hp Hl).
Qed.

Lemma extraction_keeps_files_witness :
  file_at (files (fst (extract_mda spec_patterns list_tree stamp_0 1996 1996
                         (lit "10-k") world_0))) (path_mda filing_b)
  = file_at (files world_0) (path_mda filing_b)
  /\ file_at (files (fst (extract_item1 spec_patterns list_tree stamp_0 1996 1996
                            (lit "10-k") world_0))) filing_a
     = file_at (files world_0) filing_a.
Proof.
  split.
  - refine (proj1 (extraction_keeps_files spec_patterns list_tree stamp_0 1996 1996
                     (lit "10-k") world_0 (path_mda filing_b) _) _).
    + left. vm_compute. discriminate.
    + vm_compute. discriminate.
  - refine (proj2 (extraction_keeps_files spec_patterns list_tree stamp_0 1996 1996
                     (lit "10-k") world_0 filing_a _) _).
    + right. vm_compute. reflexivity.
    + vm_compute. discriminate.
Defined.

(** ** A second extraction *)

(** Property X15: when [rglob] lists the files of a directory, a run
    of [extract_mda] or [extract_item1] that comes to its end leaves a
    world in which the same run writes nothing: every filing has its
    excerpt file, no file and no log line is added. *)
Theorem extraction_second_run (P : parsing_patterns)
    (rglob : tree -> path -> list path) (timestamp : nat -> str)
    (start end_ : Z) (form_type : str) (w : world) :
  lists_files rglob ->
  (forall w', extract_mda P rglob timestamp start end_ form_type w = (w', Done tt) ->
              extract_mda P rglob timestamp start end_ form_type w' = (w', Done tt))
  /\ (forall w', extract_item1 P rglob timestamp start end_ form_type w = (w', Done tt) ->
                 extract_item1 P rglob timestamp start end_ form_type w' = (w', Done tt)).
Proof.
  intros Hl. split; intros w' E.
  - exact (run_again rglob timestamp path_mda
             (path_log form_type "log_extract_mda.txt")
             (fun txt => clean_mda_text P txt form_type)
             "MD&A extraction successful!" start end_ form_type
             path_mda_not_filing
             (path_log_not_filing form_type "log_extract_mda.txt" eq_refl eq_refl)
             Hl w w' E).
  - exact (run_again rglob timestamp path_item1
             (path_log form_type "log_extract_item1.txt")
             (fun txt => clean_item1_text P txt)
             "Item 1 extraction successful!" start end_ form_type
             path_item1_not_filing
             (path_log_not_filing form_type "log_extract_item1.txt" eq_refl eq_refl)
             Hl w w' E).
Qed.

Lemma extraction_second_run_witness :
  extract_mda spec_patterns list_tree stamp_0 1996 1996 (lit "10-k")
    (fst (extract_mda spec_patterns list_tree stamp_0 1996 1996 (lit "10-k") world_0))
  = (fst (extract_mda spec_patterns list_tree stamp_0 1996 1996 (lit "10-k") world_0),
     Done tt)
  /\ extract_item1 spec_patterns list_tree stamp_0 1996 1996 (lit "10-k")
       (fst (extract_item1 spec_patterns list_tree stamp_0 1996 1996 (lit "10-k")
               world_0))
     = (fst (extract_item1 spec_patterns list_tree stamp_0 1996 1996 (lit "10-k")
               world_0),
        Done tt).
Proof.
  split.
  - refine (proj1 (extraction_second_run spec_patterns list_tree stamp_0 1996 1996
                     (lit "10-k") world_0 list_tree_lists) _ _).
    vm_compute. reflexivity.
  - refine (proj2 (extraction_second_run spec_patterns list_tree stamp_0 1996 1996
                     (lit "10-k") world_0 list_tree_lists) _ _).
    vm_compute. reflexivity.
Defined.

(** ** What an extraction writes *)

(** Property X16: when [rglob] lists the files of a directory and a
    run of [extract_mda] comes to its end, every filing found in a
    quarter of the run has its excerpt file, and every file that has
    appeared, the log apart, is the excerpt file of a filing and holds
    [clean_mda_text] of the text of that filing. *)
Theorem extract_mda_writes_excerpts (P : parsing_patterns)
    (rglob : tree -> path -> list path) (timestamp : nat -> str)
    (start end_ : Z) (form_type : str) (w w' : world) :
  lists_files rglob ->
  extract_mda P rglob timestamp start end_ form_type w = (w', Done tt) ->
  (forall year qtr f,
      In (year, qtr) (quarters start end_) ->
      In f (rglob (files w) (path_filings_dir form_type year qtr)) ->
      is_filing f = true ->
      file_at (files w') (path_mda f) <> None)
  /\ (forall p v,
         file_at (files w) p = None ->
         p <> path_log form_type "log_extract_mda.txt" ->
         file_at (files w') p = Some v ->
         exists f u,
           path_mda f = p /\ is_filing f = true /\ file_at (files w) f = Some u
           /\ v = clean_mda_text P (universal_newlines false u) form_type).
Proof.
  intros Hl E. split.
  - intros year qtr f Hq Hf Hfil.
    exact (run_done rglob timestamp path_mda
             (path_log form_type "log_extract_mda.txt")
             (fun txt => clean_mda_text P txt form_type)
             "MD&A extraction successful!" start end_ form_type
             Hl w w' E (year, qtr) f Hq Hf Hfil).
  - exact (run_content rglob timestamp path_mda
             (path_log form_type "log_extract_mda.txt")
             (fun txt => clean_mda_text P txt form_type)
             "MD&A extraction successful!" start end_ form_type
             path_mda_not_filing
             (path_log_not_filing form_type "log_extract_mda.txt" eq_refl eq_refl)
             w w' E).
Qed.

Lemma extract_mda_writes_excerpts_witness :
  file_at (files (fst (extract_mda spec_patterns list_tree stamp_0 1996 1996
                         (lit "10-k") world_0))) (path_mda filing_a)
  <> None.
Proof.
  refine (proj1 (extract_mda_writes_excerpts spec_patterns list_tree stamp_0 1996 1996
                   (lit "10-k") world_0 _ list_tree_lists _)
                1996%Z 1%Z filing_a _ _ _).
  - vm_compute. reflexivity.
  - vm_compute. left. reflexivity.
  - vm_compute. left. reflexivity.
  - vm_compute. reflexivity.
Defined.

(** Property X17: when [rglob] lists the files of a directory and a
    run of [extract_item1] comes to its end, every filing found in a
    quarter of the run has its excerpt file, and every file that has
    appeared, the log apart, is the excerpt file of a filing and holds
    [clean_item1_text] of the text of that filing. *)
Theorem extract_item1_writes_excerpts (P : parsing_patterns)
    (rglob : tree -> path -> list path) (timestamp : nat -> str)
    (start end_ : Z) (form_type : str) (w w' : world) :
  lists_files rglob ->
  extract_item1 P rglob timestamp start end_ form_type w = (w', Done tt) ->
  (forall year qtr f,
      In (year, qtr) (quarters start end_) ->
      In f (rglob (files w) (path_filings_dir form_type year qtr)) ->
      is_filing f = true ->
      file_at (files w') (path_item1 f) <> None)
  /\ (forall p v,
         file_at (files w) p = None ->
         p <> path_log form_type "log_extract_item1.txt" ->
         file_at (files w') p = Some v ->
         exists f u,
           path_item1 f = p /\ is_filing f = true /\ file_at (files w) f = Some u
           /\ v = clean_item1_text P (universal_newlines false u)).
Proof.
  intros Hl E. split.
  - intros year qtr f Hq Hf Hfil.
    exact (run_done rglob timestamp path_item1
             (path_log form_type "log_extract_item1.txt")
             (fun txt => clean_item1_text P txt)
             "Item 1 extraction successful!" start end_ form_type
             Hl w w' E (year, qtr) f Hq Hf Hfil).
  - exact (run_content rglob timestamp path_item1
             (path_log form_type "log_extract_item1.txt")
             (fun txt => clean_item1_text P txt)
             "Item 1 extraction successful!" start end_ form_type
             path_item1_not_filing
             (path_log_not_filing form_type "log_extract_item1.txt" eq_refl eq_refl)
             w w' E).
Qed.

Lemma extract_item1_writes_excerpts_witness :
  file_at (files (fst (extract_item1 spec_patterns list_tree stamp_0 1996 1996
                         (lit "10-k") world_0))) (path_item1 filing_b)
  <> None.
Proof.
  refine (proj1 (extract_item1_writes_excerpts spec_patterns list_tree stamp_0 1996
                   1996 (lit "10-k") world_0 _ list_tree_lists _)
                1996%Z 3%Z filing_b _ _ _).
  - vm_compute. reflexivity.
  - vm_compute. right. right. left. reflexivity.
  - vm_compute. left. reflexivity.
  - vm_compute. reflexivity.
Defined.

(** ** The directories of the quarters *)

Lemma lit_cons (c : ascii) (s : string) : lit (String c s) = N_of_ascii c :: lit s.
Proof. reflexivity. Qed.

Lemma lit_inj (s t : string) : lit s = lit t -> s = t.
Proof.
  revert t. induction s as [|c s IH]; intros [|d t]; try discriminate; [reflexivity|].
  rewrite !lit_cons. intros [= Ec Es]. f_equal; [|now apply IH].
  rewrite <- (ascii_N_embedding c), <- (ascii_N_embedding d). now rewrite Ec.
Qed.

Lemma uint_numeral (d : Decimal.uint) :
  forallb is_numeral (lit (NilEmpty.string_of_uint d)) = true.
Proof. induction d; cbn [NilEmpty.string_of_uint]; rewrite ?lit_cons; trivial. Qed.

Lemma str_of_int_numeral (n : Z) :
  forallb is_numeral (str_of_int n) = true /\ str_of_int n <> [].
Proof.
  unfold str_of_int.
  assert (H : forall d, forallb is_numeral (lit (NilZero.string_of_uint d)) = true
                        /\ lit (NilZero.string_of_uint d) <> []).
  { intros d. unfold NilZero.string_of_uint. destruct d;
      (split; [try reflexivity; apply (uint_numeral (_ _)) | discriminate]). }
  destruct (Z.to_int n) as [d|d]; cbn [NilZero.string_of_int].
  - apply H.
  - rewrite lit_cons. split; [|discriminate]. cbn [forallb]. now rewrite (proj1 (H d)).
Qed.

Lemma str_of_int_inj (n m : Z) : str_of_int n = str_of_int m -> n = m.
Proof.
  unfold str_of_int. intros E. apply lit_inj in E.
  assert (H : forall z, NilZero.int_of_string (NilZero.string_of_int (Z.to_int z))
                        = Some (Z.to_int z)).
  { intros z. apply NilZero.isi; destruct z as [|p|p]; cbn [Z.to_int];
      try discriminate; intros [= E']; now apply (DecimalPos.Unsigned.to_uint_nonnil p). }
  apply DecimalZ.to_int_inj. pose proof (H n) as Hn. rewrite E, H in Hn.
  now injection Hn.
Qed.

(** An argument without a slash that is not empty and not a dot is a
    component of its own. *)
Lemma components_plain (s : str) :
  forallb (fun c => negb (is_char SLASH c)) s = true -> s <> [] -> s <> lit "." ->
  splitroot s = ([], s) /\ components s = [s].
Proof.
  intros Hs Hne Hdot. split.
  - destruct s as [|c s]; [now elim Hne|]. cbn [splitroot forallb] in *.
    apply andb_true_iff in Hs. destruct Hs as [Hc _]. apply negb_true_iff in Hc.
    now rewrite Hc.
  - unfold components. rewrite (split_on_none _ _ Hs). cbn [filter].
    now rewrite !str_eqb_neq.
Qed.

Lemma numeral_plain (s : str) :
  forallb is_numeral s = true ->
  forallb (fun c => negb (is_char SLASH c)) s = true /\ s <> lit ".".
Proof.
  intros H. split.
  - rewrite forallb_forall in *. intros c Hc. specialize (H c Hc).
    destruct (is_char SLASH c) eqn:E; [|reflexivity].
    apply is_char_eq in E. subst c. discriminate.
  - intros ->. discriminate.
Qed.

(** The directory of a quarter: the directory of the form type, the
    year and the quarter. *)
Lemma path_filings_dir_parts (form_type : str) (year qtr : Z) :
  root (path_filings_dir form_type year qtr)
  = root (Path [lit "output"; lit "filings"; form_type])
  /\ parts (path_filings_dir form_type year qtr)
     = parts (Path [lit "output"; lit "filings"; form_type])
       ++ [str_of_int year; lit "q" ++ str_of_int qtr].
Proof.
  destruct (str_of_int_numeral year) as [Hy Hy'].
  destruct (str_of_int_numeral qtr) as [Hq Hq'].
  destruct (numeral_plain _ Hy) as [Hy1 Hy2].
  destruct (numeral_plain _ Hq) as [Hq1 _].
  destruct (components_plain (str_of_int year) Hy1 Hy' Hy2) as [Ey Ey'].
  destruct (components_plain (lit "q" ++ str_of_int qtr)) as [Eq Eq'];
    [cbn [lit List.map list_ascii_of_string app forallb]; now rewrite Hq1
    | discriminate
    | destruct (str_of_int qtr); [now elim Hq' | discriminate] |].
  unfold path_filings_dir, Path. cbn [rev app parse_parts].
  rewrite Eq, Ey. cbn [root parts]. rewrite Eq', Ey', <- app_assoc. now split.
Qed.

Lemma proper_prefix_same (l1 l2 m : list str) :
  proper_prefix l1 m = true -> proper_prefix l2 m = true ->
  length l1 = length l2 -> l1 = l2.
Proof.
  revert l2 m. induction l1 as [|x l1 IH]; intros [|y l2] m H1 H2 Hlen;
    try discriminate; [reflexivity|].
  destruct m as [|z m]; [discriminate|]. cbn [proper_prefix] in H1, H2.
  apply andb_true_iff in H1, H2. destruct H1 as [Ex H1], H2 as [Ey H2].
  apply str_eqb_eq in Ex, Ey. subst x y. f_equal.
  apply (IH l2 m H1 H2). now injection Hlen.
Qed.

(** No file is in the directories of two quarters. *)
Lemma quarter_of_file (form_type : str) (yq1 yq2 : Z * Z) (f : path) :
  beneath (path_filings_dir form_type (fst yq1) (snd yq1)) f = true ->
  beneath (path_filings_dir form_type (fst yq2) (snd yq2)) f = true ->
  yq1 = yq2.
Proof.
  unfold beneath. intros H1 H2. apply andb_true_iff in H1, H2.
  destruct H1 as [_ H1], H2 as [_ H2].
  destruct (path_filings_dir_parts form_type (fst yq1) (snd yq1)) as [_ E1].
  destruct (path_filings_dir_parts form_type (fst yq2) (snd yq2)) as [_ E2].
  pose proof (proper_prefix_same _ _ _ H1 H2) as E.
  rewrite E1, E2 in E. rewrite !length_app in E. specialize (E eq_refl).
  apply app_inv_head in E. injection E as Ey Eq.
  apply str_of_int_inj in Ey. apply str_of_int_inj in Eq.
  destruct yq1, yq2. cbn [fst snd] in *. now subst.
Qed.

(** ** One round of the cleaning *)

Section CleanStep.

Variable P : parsing_patterns.
Variable html_unescape : str -> str.
Variable timestamp : nat -> str.
Variables (log filing : path).

Let step : io unit := clean_filing P html_unescape timestamp log filing.

Lemma clean_frame (w : world) (p : path) :
  p <> filing -> p <> log ->
  file_at (files (fst (step w))) p = file_at (files w) p.
Proof.
  intros Hf Hl. unfold step, clean_filing. open_step.
  destruct (file_at (files w) filing); cbv beta iota zeta; [|reflexivity].
  destruct (forallb encodable (log_line _ _ _ _)); cbv beta iota zeta; now look_up.
Qed.

Lemma clean_grows (w : world) : grows w (fst (step w)).
Proof.
  intros p H. unfold step, clean_filing. open_step.
  destruct (file_at (files w) filing); cbv beta iota zeta; [|exact H].
  destruct (forallb encodable (log_line _ _ _ _)); cbv beta iota zeta; now look_up.
Qed.

(** The filing that is rewritten was there: only the log can appear. *)
Lemma clean_new (w : world) (p : path) :
  p <> log -> file_at (files w) p = None ->
  file_at (files (fst (step w))) p = None.
Proof.
  intros Hl Hp. unfold step, clean_filing. open_step.
  destruct (file_at (files w) filing) eqn:Ef; cbv beta iota zeta; [|exact Hp].
  destruct (forallb encodable (log_line _ _ _ _)); cbv beta iota zeta; now look_up.
Qed.

(** The filing holds its normalised text, whatever becomes of the log. *)
Lemma clean_content (w : world) (u : str) :
  file_at (files w) filing = Some u -> filing <> log ->
  file_at (files (fst (step w))) filing
  = Some (filter encodable
            (clean_filing_text P html_unescape (universal_newlines false u))).
Proof.
  intros Ef Hl. unfold step, clean_filing. open_step.
  rewrite Ef. cbv beta iota zeta.
  destruct (forallb encodable (log_line _ _ _ _)); cbv beta iota zeta; now look_up.
Qed.

(** A log that is there is only added to. *)
Lemma clean_log (w : world) (old : str) :
  filing <> log -> file_at (files w) log = Some old ->
  exists added, file_at (files (fst (step w))) log = Some (old ++ added).
Proof.
  intros Hf Ho. unfold step, clean_filing. open_step.
  destruct (file_at (files w) filing); cbv beta iota zeta;
    [|exists []; now rewrite app_nil_r].
  destruct (forallb encodable (log_line _ _ _ _)); cbv beta iota zeta;
    cbn [fst files put file_at clock];
    (destruct (path_eq_dec log log) as [_|Hn]; [|now elim Hn]);
    (destruct (path_eq_dec log filing) as [E|_]; [now elim Hf|]);
    rewrite Ho; [now eexists | exists []; now rewrite app_nil_r].
Qed.

End CleanStep.

(** ** The loops of the cleaning *)

Section CleanLoop.

Variable P : parsing_patterns.
Variable html_unescape : str -> str.
Variable rglob : tree -> path -> list path.
Variable timestamp : nat -> str.
Variable form_type : str.

Let log : path := path_log form_type "log_parse.txt".
Let step : path -> io unit := clean_filing P html_unescape timestamp log.
Let dir (yq : Z * Z) : path := path_filings_dir form_type (fst yq) (snd yq).
Let round (yq : Z * Z) : io unit :=
  filings <- filings_of rglob form_type (fst yq) (snd yq) ;; for_each filings step.
Let cleaned (u : str) : str :=
  filter encodable (clean_filing_text P html_unescape (universal_newlines false u)).

Lemma log_parse_not_filing : is_filing log = false.
Proof. now apply path_log_not_filing. Qed.

Lemma filing_not_log (f : path) : is_filing f = true -> f <> log.
Proof. intros H ->. rewrite log_parse_not_filing in H. discriminate. Qed.

(** The filings of a list are the only files that a loop over it can
    change, the log apart. *)
Lemma steps_frame (l : list path) (w : world) (p : path) :
  ~ In p l -> p <> log ->
  file_at (files (fst (for_each l step w))) p = file_at (files w) p.
Proof.
  intros Hp Hl.
  apply (for_each_inv (fun w1 => file_at (files w1) p = file_at (files w) p));
    [|reflexivity].
  intros f w1 Hf E. rewrite <- E. unfold step. apply clean_frame; [|exact Hl].
  intros ->. now apply Hp.
Qed.

Lemma steps_grow (l : list path) (w : world) : grows w (fst (for_each l step w)).
Proof.
  apply (for_each_inv (grows w)); [|now intros p].
  intros f w1 _ H p Hp. unfold step. apply clean_grows. now apply H.
Qed.

Lemma steps_new (l : list path) (w : world) (p : path) :
  p <> log -> file_at (files w) p = None ->
  file_at (files (fst (for_each l step w))) p = None.
Proof.
  intros Hl Hp.
  apply (for_each_inv (fun w1 => file_at (files w1) p = None)); [|exact Hp].
  intros f w1 _ E. unfold step. now apply clean_new.
Qed.

(** A loop over distinct filings that comes to its end has normalised
    each of them. *)
Lemma steps_content : forall (l : list path) (w w' : world),
  NoDup l -> (forall f, In f l -> f <> log) ->
  for_each l step w = (w', Done tt) ->
  forall f u, In f l -> file_at (files w) f = Some u ->
              file_at (files w') f = Some (cleaned u).
Proof.
  induction l as [|x l IH]; intros w w' Hnd Hlog E f u Hf Hu; [destruct Hf|].
  apply NoDup_cons_iff in Hnd. destruct Hnd as [Hx Hnd].
  cbn [for_each] in E. unfold bind in E.
  destruct (step x w) as [w1 [[]|e]] eqn:Ex; [|discriminate].
  assert (E1 : w1 = fst (step x w)) by now rewrite Ex.
  destruct Hf as [<-|Hf].
  - replace w' with (fst (for_each l step w1)) by now rewrite E.
    rewrite steps_frame; [|exact Hx | apply Hlog; now left].
    rewrite E1. unfold step. apply clean_content; [exact Hu | apply Hlog; now left].
  - apply (IH w1 w' Hnd (fun g Hg => Hlog g (or_intror Hg)) E f u Hf).
    rewrite E1. unfold step. rewrite clean_frame; [exact Hu | | apply Hlog; now right].
    intros ->. now apply Hx.
Qed.

Lemma round_eq (yq : Z * Z) (w : world) :
  round yq w = for_each (filter is_filing (rglob (files w) (dir yq))) step w.
Proof. reflexivity. Qed.

(** A file that cannot be taken as a filing is left as it is, the log
    apart, and no file but the log appears. *)
Lemma rounds_frame (ql : list (Z * Z)) (w : world) (p : path) :
  p <> log ->
  (is_filing p = false ->
   file_at (files (fst (for_each ql round w))) p = file_at (files w) p)
  /\ (file_at (files w) p = None ->
      file_at (files (fst (for_each ql round w))) p = None).
Proof.
  intros Hl. split.
  - intros Hp.
    apply (for_each_inv (fun w1 => file_at (files w1) p = file_at (files w) p));
      [|reflexivity].
    intros yq w1 _ E. rewrite <- E, round_eq. apply steps_frame; [|exact Hl].
    intros Hin. apply filter_In in Hin. destruct Hin as [_ Hin]. congruence.
  - intros Hp.
    apply (for_each_inv (fun w1 => file_at (files w1) p = None)); [|exact Hp].
    intros yq w1 _ E. rewrite round_eq. now apply steps_new.
Qed.

(** A log that is there is only added to. *)
Lemma rounds_log (ql : list (Z * Z)) (w : world) (old : str) :
  file_at (files w) log = Some old ->
  exists added, file_at (files (fst (for_each ql round w))) log = Some (old ++ added).
Proof.
  intros Ho.
  apply (for_each_inv
           (fun w1 => exists added, file_at (files w1) log = Some (old ++ added)));
    [|exists []; now rewrite app_nil_r].
  intros yq w1 _ H. rewrite round_eq.
  apply (for_each_inv
           (fun w2 => exists added, file_at (files w2) log = Some (old ++ added)));
    [|exact H].
  intros f w2 Hf [added E]. apply filter_In in Hf. destruct Hf as [_ Hf].
  unfold step.
  destruct (clean_log P html_unescape timestamp log f w2 _
              (filing_not_log f Hf) E) as [more E'].
  exists (added ++ more). now rewrite app_assoc.
Qed.

Hypothesis rglob_lists : lists_files rglob.

(** A file outside the directories of the quarters is left as it is,
    the log apart. *)
Lemma rounds_elsewhere (ql : list (Z * Z)) (w : world) (p : path) :
  p <> log -> (forall yq, In yq ql -> beneath (dir yq) p = false) ->
  file_at (files (fst (for_each ql round w))) p = file_at (files w) p.
Proof.
  intros Hl Hp.
  apply (for_each_inv (fun w1 => file_at (files w1) p = file_at (files w) p));
    [|reflexivity].
  intros yq w1 Hyq E. rewrite <- E, round_eq. apply steps_frame; [|exact Hl].
  intros Hin. apply filter_In in Hin. destruct Hin as [Hin _].
  apply rglob_lists in Hin. destruct Hin as (_ & Hb & _).
  rewrite (Hp yq Hyq) in Hb. discriminate.
Qed.

(** A run over distinct quarters that comes to its end has normalised
    every filing of its quarters, once. *)
Lemma rounds_content : forall (ql : list (Z * Z)) (w w' : world),
  NoDup ql ->
  for_each ql round w = (w', Done tt) ->
  forall yq f u,
    In yq ql -> In f (rglob (files w) (dir yq)) -> is_filing f = true ->
    file_at (files w) f = Some u ->
    file_at (files w') f = Some (cleaned u).
Proof.
  induction ql as [|x ql IH]; intros w w' Hnd E yq f u Hyq Hf Hfil Hu; [destruct Hyq|].
  apply NoDup_cons_iff in Hnd. destruct Hnd as [Hx Hnd].
  cbn [for_each] in E. unfold bind in E.
  destruct (round x w) as [w1 [[]|e]] eqn:Ex; [|discriminate].
  pose proof Hf as Hf'. apply rglob_lists in Hf'. destruct Hf' as (_ & Hb & Ht).
  destruct Hyq as [<-|Hyq].
  - replace w' with (fst (for_each ql round w1)) by now rewrite E.
    rewrite rounds_elsewhere; [|now apply filing_not_log|].
    + rewrite round_eq in Ex. revert Ex. intros Ex.
      apply (steps_content _ w w1) with (f := f) (u := u) in Ex; trivial.
      * apply NoDup_filter, rglob_lists.
      * intros g Hg. apply filter_In in Hg. now apply filing_not_log.
      * apply filter_In. now split.
    + intros yq Hyq. destruct (beneath (dir yq) f) eqn:Eb; [|reflexivity].
      exfalso. apply Hx. now rewrite (quarter_of_file form_type x yq f Hb Eb).
  - assert (E1 : file_at (files w1) f = Some u).
    { replace w1 with (fst (round x w)) by now rewrite Ex.
      rewrite round_eq, steps_frame; [exact Hu | | now apply filing_not_log].
      intros Hin. apply filter_In in Hin. destruct Hin as [Hin _].
      apply rglob_lists in Hin. destruct Hin as (_ & Hb' & _).
      apply Hx. now rewrite (quarter_of_file form_type x yq f Hb' Hb). }
    apply (IH w1 w' Hnd E yq f u Hyq); trivial.
    apply rglob_lists. split; [rewrite E1; discriminate | now split].
Qed.

End CleanLoop.

(** ** What the cleaning leaves alone, and what it writes *)

(** Property X14: [clean_filings] changes no file whose path holds an
    underscore, so no excerpt file, and makes no new file: its own log
    apart, also when an error ends the run. *)
Theorem cleaning_keeps_other_files (P : parsing_patterns) (html_unescape : str -> str)
    (rglob : tree -> path -> list path) (timestamp : nat -> str)
    (start end_ : Z) (form_type : str) (w : world) (p : path) :
  p <> path_log form_type "log_parse.txt" ->
  (is_filing p = false ->
   file_at (files (fst (clean_filings P html_unescape rglob timestamp start end_
                          form_type w))) p
   = file_at (files w) p)
  /\ (file_at (files w) p = None ->
      file_at (files (fst (clean_filings P html_unescape rglob timestamp start end_
                             form_type w))) p
      = None).
Proof.
  intros Hl.
  exact (rounds_frame P html_unescape rglob timestamp form_type
           (quarters start end_) w p Hl).
Qed.

Lemma cleaning_keeps_other_files_witness :
  file_at (files (fst (clean_filings spec_patterns py_unescape list_tree stamp_0
                         1996 1996 (lit "10-k") world_0))) (path_mda filing_b)
  = file_at (files world_0) (path_mda filing_b).
Proof.
  refine (proj1 (cleaning_keeps_other_files spec_patterns py_unescape list_tree stamp_0
                   1996 1996 (lit "10-k") world_0 (path_mda filing_b) _) _).
  - vm_compute. discriminate.
  - vm_compute. reflexivity.
Defined.

(** Property X18: when [rglob] lists the files of a directory and a
    run of [clean_filings] comes to its end, every filing found in a
    quarter of the run holds [clean_filing_text] of the text it held,
    less what UTF-8 cannot encode: each filing is normalised once and
    once only. *)
Theorem clean_filings_rewrites (P : parsing_patterns) (html_unescape : str -> str)
    (rglob : tree -> path -> list path) (timestamp : nat -> str)
    (start end_ : Z) (form_type : str) (w w' : world) :
  lists_files rglob ->
  clean_filings P html_unescape rglob timestamp start end_ form_type w
  = (w', Done tt) ->
  forall year qtr f u,
    In (year, qtr) (quarters start end_) ->
    In f (rglob (files w) (path_filings_dir form_type year qtr)) ->
    is_filing f = true ->
    file_at (files w) f = Some u ->
    file_at (files w') f
    = Some (filter encodable
              (clean_filing_text P html_unescape (universal_newlines false u))).
Proof.
  intros Hl E year qtr f u Hq Hf Hfil Hu.
  assert (Hnd : NoDup (quarters start end_)).
  { unfold quarters. apply NoDup_list_prod; apply NoDup_py_range. }
  exact (rounds_content P html_unescape rglob timestamp form_type Hl
           (quarters start end_) w w' Hnd E (year, qtr) f u Hq Hf Hfil Hu).
Qed.

Lemma clean_filings_rewrites_witness :
  file_at (files (fst (clean_filings spec_patterns py_unescape list_tree stamp_0
                         1996 1996 (lit "10-k") world_0))) filing_b
  = Some (filter encodable
            (clean_filing_text spec_patterns py_unescape
               (universal_newlines false
                  (lit "<p>Item 1. Business -- retail.</p> Item 2.")))).
Proof.
  refine (clean_filings_rewrites spec_patterns py_unescape list_tree stamp_0
            1996 1996 (lit "10-k") world_0 _ list_tree_lists _
            1996%Z 3%Z filing_b _ _ _ _ _).
  - vm_compute. reflexivity.
  - vm_compute. right. right. left. reflexivity.
  - vm_compute. left. reflexivity.
  - vm_compute. reflexivity.
  - vm_compute. reflexivity.
Defined.

(** ** The logs *)

(** Property X19: a log that is there when a driver starts is only
    added to: what it held stays at its beginning, also when an error
    ends the run. *)
Theorem logs_are_appended (P : parsing_patterns) (html_unescape : str -> str)
    (rglob : tree -> path -> list path) (timestamp : nat -> str)
    (start end_ : Z) (form_type : str) (w : world) (old : str) :
  (file_at (files w) (path_log form_type "log_parse.txt") = Some old ->
   exists added,
     file_at (files (fst (clean_filings P html_unescape rglob timestamp start end_
                            form_type w)))
             (path_log form_type "log_parse.txt")
     = Some (old ++ added))
  /\ (file_at (files w) (path_log form_type "log_extract_mda.txt") = Some old ->
      exists added,
        file_at (files (fst (extract_mda P rglob timestamp start end_ form_type w)))
                (path_log form_type "log_extract_mda.txt")
        = Some (old ++ added))
  /\ (file_at (files w) (path_log form_type "log_extract_item1.txt") = Some old ->
      exists added,
        file_at (files (fst (extract_item1 P rglob timestamp start end_ form_type w)))
                (path_log form_type "log_extract_item1.txt")
        = Some (old ++ added)).
Proof.
  split; [|split]; intros Ho.
  - exact (rounds_log P html_unescape rglob timestamp form_type
             (quarters start end_) w old Ho).
  - exact (run_log rglob timestamp path_mda
             (path_log form_type "log_extract_mda.txt")
             (fun txt => clean_mda_text P txt form_type)
             "MD&A extraction successful!" start end_ form_type w old Ho).
  - exact (run_log rglob timestamp path_item1
             (path_log form_type "log_extract_item1.txt")
             (fun txt => clean_item1_text P txt)
             "Item 1 extraction successful!" start end_ form_type w old Ho).
Qed.

Lemma logs_are_appended_witness :
  exists added,
    file_at (files (fst (extract_mda spec_patterns list_tree stamp_0 1996 1996
                           (lit "10-k") world_2)))
            (path_log (lit "10-k") "log_extract_mda.txt")
    = Some (lit "earlier" ++ added).
Proof.
  refine (proj1 (proj2 (logs_are_appended spec_patterns py_unescape list_tree stamp_0
                          1996 1996 (lit "10-k") world_2 (lit "earlier"))) _).
  vm_compute. reflexivity.
Defined.

(** ** Form types without a section pattern *)

(** Property X20: [extract_mda] looks for a section in filings of the
    form types 10-k and 10-q only.  For any other form type, when the
    table-of-contents patterns find nothing in the empty text, every
    excerpt file that a run writes is empty. *)
Theorem other_form_types_write_empty_excerpts (P : parsing_patterns)
    (rglob : tree -> path -> list path) (timestamp : nat -> str)
    (start end_ : Z) (form_type : str) (w w' : world) :
  toc_silent P ->
  form_type <> lit "10-k" -> form_type <> lit "10-q" ->
  extract_mda P rglob timestamp start end_ form_type w = (w', Done tt) ->
  forall p v,
    file_at (files w) p = None ->
    p <> path_log form_type "log_extract_mda.txt" ->
    file_at (files w') p = Some v ->
    v = [].
Proof.
  intros Htoc Hk Hq E p v Hp Hl Hv.
  destruct (run_content rglob timestamp path_mda
              (path_log form_type "log_extract_mda.txt")
              (fun txt => clean_mda_text P txt form_type)
              "MD&A extraction successful!" start end_ form_type
              path_mda_not_filing
              (path_log_not_filing form_type "log_extract_mda.txt" eq_refl eq_refl)
              w w' E p v Hp Hl Hv) as (f & u & _ & _ & _ & ->).
  unfold clean_mda_text. rewrite (str_eqb_neq _ _ Hk), (str_eqb_neq _ _ Hq).
  now apply clean_excerpt_nil.
Qed.

Lemma other_form_types_write_empty_excerpts_witness :
  file_at (files (fst (extract_mda spec_patterns list_tree stamp_0 1996 1996
                         (lit "10-k/a") world_1))) (path_mda filing_c)
  = Some [].
Proof.
  destruct (file_at (files (fst (extract_mda spec_patterns list_tree stamp_0 1996 1996
                                   (lit "10-k/a") world_1))) (path_mda filing_c))
    as [v|] eqn:Hv; [|vm_compute in Hv; discriminate].
  f_equal.
  refine (other_form_types_write_empty_excerpts spec_patterns list_tree stamp_0
            1996 1996 (lit "10-k/a") world_1 _ _ _ _ _ (path_mda filing_c) v _ _ Hv).
  - split; vm_compute; reflexivity.
  - vm_compute. discriminate.
  - vm_compute. discriminate.
  - vm_compute. reflexivity.
  - vm_compute. reflexivity.
  - vm_compute. discriminate.
Defined.

(** ** The range of a run *)

(** Property X11: when [rglob] lists the files of a directory, a run
    of a driver that comes to its end has dealt with every filing in
    the directory of a quarter 1 to 4 of a year from [start] to [end],
    both included: [clean_filings] has normalised it, [extract_mda]
    and [extract_item1] have made its excerpt file.  When [end] is
    before [start] the drivers do nothing. *)
Theorem drivers_cover_the_range (P : parsing_patterns) (html_unescape : str -> str)
    (rglob : tree -> path -> list path) (timestamp : nat -> str)
    (start end_ : Z) (form_type : str) (w : world) :
  lists_files rglob ->
  (forall year qtr f u,
      (start <= year <= end_)%Z -> (1 <= qtr <= 4)%Z ->
      beneath (path_filings_dir form_type year qtr) f = true ->
      is_txt f = true -> is_filing f = true ->
      file_at (files w) f = Some u ->
      (forall w',
          clean_filings P html_unescape rglob timestamp start end_ form_type w
          = (w', Done tt) ->
          file_at (files w') f
          = Some (filter encodable
                    (clean_filing_text P html_unescape (universal_newlines false u))))
      /\ (forall w',
             extract_mda P rglob timestamp start end_ form_type w = (w', Done tt) ->
             file_at (files w') (path_mda f) <> None)
      /\ (forall w',
             extract_item1 P rglob timestamp start end_ form_type w = (w', Done tt) ->
             file_at (files w') (path_item1 f) <> None))
  /\ ((end_ < start)%Z ->
      clean_filings P html_unescape rglob timestamp start end_ form_type w
      = (w, Done tt)
      /\ extract_mda P rglob timestamp start end_ form_type w = (w, Done tt)
      /\ extract_item1 P rglob timestamp start end_ form_type w = (w, Done tt)).
Proof.
  intros Hl. split.
  - intros year qtr f u Hy Hq Hb Ht Hfil Hu.
    assert (Hin : In (year, qtr) (quarters start end_)) by (apply in_quarters; lia).
    assert (Hf : In f (rglob (files w) (path_filings_dir form_type year qtr))).
    { apply Hl. split; [rewrite Hu; discriminate | now split]. }
    split; [|split]; intros w' E.
    + exact (rounds_content P html_unescape rglob timestamp form_type Hl
               (quarters start end_) w w' (NoDup_quarters start end_) E
               (year, qtr) f u Hin Hf Hfil Hu).
    + exact (run_done rglob timestamp path_mda
               (path_log form_type "log_extract_mda.txt")
               (fun txt => clean_mda_text P txt form_type)
               "MD&A extraction successful!" start end_ form_type
               Hl w w' E (year, qtr) f Hin Hf Hfil).
    + exact (run_done rglob timestamp path_item1
               (path_log form_type "log_extract_item1.txt")
               (fun txt => clean_item1_text P txt)
               "Item 1 extraction successful!" start end_ form_type
               Hl w w' E (year, qtr) f Hin Hf Hfil).
  - intros H. unfold clean_filings, extract_mda, extract_item1.
    rewrite (quarters_empty start end_ H). now repeat split.
Qed.

Lemma drivers_cover_the_range_witness :
  file_at (files (fst (extract_item1 spec_patterns list_tree stamp_0 1995 1997
                         (lit "10-k") world_0))) (path_item1 filing_a)
  <> None.
Proof.
  refine (proj2 (proj2 (proj1 (drivers_cover_the_range spec_patterns py_unescape
                                 list_tree stamp_0 1995 1997 (lit "10-k") world_0
                                 list_tree_lists)
                              1996%Z 1%Z filing_a
                              (lit "Item 7. Sales  rose ,  costs fell. Item 8. <p>Notes</p>")
                              _ _ _ _ _ _)) _ _).
  - lia.
  - lia.
  - vm_compute. reflexivity.
  - vm_compute. reflexivity.
  - vm_compute. reflexivity.
  - vm_compute. reflexivity.
  - vm_compute. reflexivity.
Defined.

(** Property X21: when [rglob] lists the files of a directory, a
    driver stays within the directories of the quarters 1 to 4 of the
    years from [start] to [end], its log apart, also when an error
    ends the run: [clean_filings] leaves every file outside them as it
    is, and a file that [extract_mda] or [extract_item1] makes is the
    excerpt file of a filing in one of them. *)
Theorem drivers_stay_in_range (P : parsing_patterns) (html_unescape : str -> str)
    (rglob : tree -> path -> list path) (timestamp : nat -> str)
    (start end_ : Z) (form_type : str) (w : world) (p : path) :
  lists_files rglob ->
  (p <> path_log form_type "log_parse.txt" ->
   (forall year qtr,
       (start <= year <= end_)%Z -> (1 <= qtr <= 4)%Z ->
       beneath (path_filings_dir form_type year qtr) p = false) ->
   file_at (files (fst (clean_filings P html_unescape rglob timestamp start end_
                          form_type w))) p
   = file_at (files w) p)
  /\ (p <> path_log form_type "log_extract_mda.txt" ->
      file_at (files w) p = None ->
      file_at (files (fst (extract_mda P rglob timestamp start end_ form_type w))) p
      <> None ->
      exists year qtr f,
        (start <= year <= end_)%Z /\ (1 <= qtr <= 4)%Z
        /\ beneath (path_filings_dir form_type year qtr) f = true
        /\ is_txt f = true /\ is_filing f = true /\ p = path_mda f)
  /\ (p <> path_log form_type "log_extract_item1.txt" ->
      file_at (files w) p = None ->
      file_at (files (fst (extract_item1 P rglob timestamp start end_ form_type w))) p
      <> None ->
      exists year qtr f,
        (start <= year <= end_)%Z /\ (1 <= qtr <= 4)%Z
        /\ beneath (path_filings_dir form_type year qtr) f = true
        /\ is_txt f = true /\ is_filing f = true /\ p = path_item1 f).
Proof.
  intros Hl. split; [|split].
  - intros Hp Hout.
    apply (rounds_elsewhere P html_unescape rglob timestamp form_type Hl
             (quarters start end_) w p Hp).
    intros [year qtr] Hin. apply in_quarters in Hin. now apply Hout.
  - intros Hp Hnone Hnew.
    destruct (run_origin rglob timestamp path_mda
                (path_log form_type "log_extract_mda.txt")
                (fun txt => clean_mda_text P txt form_type)
                "MD&A extraction successful!" start end_ form_type
                Hl w p Hp Hnone Hnew) as ([year qtr] & f & Hin & H).
    apply in_quarters in Hin. exists year, qtr, f. tauto.
  - intros Hp Hnone Hnew.
    destruct (run_origin rglob timestamp path_item1
                (path_log form_type "log_extract_item1.txt")
                (fun txt => clean_item1_text P txt)
                "Item 1 extraction successful!" start end_ form_type
                Hl w p Hp Hnone Hnew) as ([year qtr] & f & Hin & H).
    apply in_quarters in Hin. exists year, qtr, f. tauto.
Qed.

Lemma drivers_stay_in_range_witness :
  file_at (files (fst (clean_filings spec_patterns py_unescape list_tree stamp_0
                         1996 1996 (lit "10-k") world_1))) filing_c
  = file_at (files world_1) filing_c.
Proof.
  refine (proj1 (drivers_stay_in_range spec_patterns py_unescape list_tree stamp_0
                   1996 1996 (lit "10-k") world_1 filing_c list_tree_lists) _ _).
  - vm_compute. discriminate.
  - intros year qtr Hy Hq.
    assert (E : year = 1996%Z) by lia. subst year.
    assert (Hc : qtr = 1%Z \/ qtr = 2%Z \/ qtr = 3%Z \/ qtr = 4%Z) by lia.
    destruct Hc as [-> | [-> | [-> | ->]]]; vm_compute; reflexivity.
Defined.
